(** * Outlook-to-Google calendar synchronisation: the event accessor, the
      matcher, the iCal event filter and the poll loop.

    The development embeds the Python sources

    - [otg/api/events.py]      ([event_field], [is_same_event],
                                [has_event_changed]),
    - [itg/api/outlook.py]     ([filter_events]),
    - [itg/tools/sync_calendars.py] ([sync_events])

    as Rocq functions and states their properties.  Python exceptions are
    values of [exn] carried by the [result] type; Python dictionaries are
    finite maps. *)

From Stdlib Require Import ZArith String Ascii List Lia Bool DecimalString.
From stdpp Require Import base option list gmap strings.

Local Open Scope string_scope.
Local Open Scope Z_scope.

(** ** Exceptions and results *)

(** The exceptions the embedded code can raise.  [PyException msg] is the
    plain [Exception(msg)] that [event_field] raises itself; the others are
    raised by the interpreter or by library calls. *)
Inductive exn :=
| PyException (msg : string)
| KeyError (key : string)
| AttributeError (attr : string)
| TypeError
| ValueError.

Inductive result (A : Type) :=
| Ok (a : A)
| Raise (e : exn).
Arguments Ok {A} a.
Arguments Raise {A} e.

Definition rbind {A B} (r : result A) (k : A -> result B) : result B :=
  match r with
  | Ok a => k a
  | Raise e => Raise e
  end.

#[global] Instance result_bind : MBind result := fun _ _ k r => rbind r k.
#[global] Instance result_ret : MRet result := fun _ a => Ok a.
#[global] Instance result_fmap : FMap result :=
  fun _ _ f r => rbind r (fun a => Ok (f a)).

Definition is_ok {A} (r : result A) : bool :=
  match r with Ok _ => true | Raise _ => false end.

#[global] Instance exn_eq_dec : EqDecision exn.
Proof. solve_decision. Defined.

#[global] Instance result_eq_dec {A} `{EqDecision A} : EqDecision (result A).
Proof. solve_decision. Defined.

(** ** Dates and date-times *)

Module Datetime.

(** [datetime.date]. *)
Record date := Date { year : Z; month : Z; day : Z }.

(** The [tzinfo] attribute of an aware value, as far as the comparison of
    date-times reads it: which object it is, the offset east of UTC (in
    microseconds) that its [utcoffset()] gives for the value at hand, and
    the offset it gives for the same wall clock with the attribute [fold]
    flipped.  [Timezone off] is an instance of [datetime.timezone], whose
    offset is fixed; [Zone key off flipped] is an instance of another
    [tzinfo] class (a [zoneinfo.ZoneInfo], say), [key] standing for the
    identity of the object.  The two offsets of a [Zone] differ at a wall
    clock that the zone repeats or skips. *)
Inductive tz :=
| Timezone (off : Z)
| Zone (key : string) (off flipped : Z).

Definition tz_offset (z : tz) : Z :=
  match z with
  | Timezone off => off
  | Zone _ off _ => off
  end.

Definition tz_flipped (z : tz) : Z :=
  match z with
  | Timezone off => off
  | Zone _ _ flipped => flipped
  end.

(** [datetime.datetime]; [tzinfo] is [None] for a naive value. *)
Record datetime := DateTime {
  dt_date : date;
  hour : Z;
  minute : Z;
  second : Z;
  microsecond : Z;
  tzinfo : option tz
}.

(** [t.utcoffset()], in microseconds: [None] for a naive value. *)
Definition utcoffset (t : datetime) : option Z := tz_offset <$> tzinfo t.

#[global] Instance tz_eq_dec : EqDecision tz.
Proof. solve_decision. Defined.

#[global] Instance date_eq_dec : EqDecision date.
Proof. solve_decision. Defined.

#[global] Instance datetime_eq_dec : EqDecision datetime.
Proof. solve_decision. Defined.

Definition is_leap (y : Z) : bool :=
  (y mod 4 =? 0) && (negb (y mod 100 =? 0) || (y mod 400 =? 0)).

Definition days_in_month (y m : Z) : Z :=
  match m with
  | 1 | 3 | 5 | 7 | 8 | 10 | 12 => 31
  | 4 | 6 | 9 | 11 => 30
  | 2 => if is_leap y then 29 else 28
  | _ => 0
  end.

Definition days_before_year (y : Z) : Z :=
  let y' := y - 1 in y' * 365 + y' / 4 - y' / 100 + y' / 400.

(** The table [_DAYS_BEFORE_MONTH]. *)
Definition DAYS_BEFORE_MONTH (m : Z) : Z :=
  match m with
  | 1 => 0 | 2 => 31 | 3 => 59 | 4 => 90 | 5 => 120 | 6 => 151
  | 7 => 181 | 8 => 212 | 9 => 243 | 10 => 273 | 11 => 304 | _ => 334
  end.

Definition days_before_month (y m : Z) : Z :=
  DAYS_BEFORE_MONTH m + (if (2 <? m) && is_leap y then 1 else 0).

(** [date.toordinal()]: day 1 is 0001-01-01. *)
Definition toordinal (d : date) : Z :=
  days_before_year (year d) + days_before_month (year d) (month d) + day d.

(** The range check of the [date] constructor. *)
Definition valid_date (d : date) : bool :=
  (1 <=? year d) && (year d <=? 9999) &&
  (1 <=? month d) && (month d <=? 12) &&
  (1 <=? day d) && (day d <=? days_in_month (year d) (month d)).

Definition us_per_day : Z := 86400000000.

(** An offset lies strictly between -24 h and +24 h: the range check of
    [timezone] and of [datetime.utcoffset()]. *)
Definition valid_offset (off : Z) : bool :=
  (- us_per_day <? off) && (off <? us_per_day).

(** The range check of the [datetime] constructor, and of the offsets. *)
Definition valid_datetime (t : datetime) : bool :=
  valid_date (dt_date t) &&
  (0 <=? hour t) && (hour t <=? 23) &&
  (0 <=? minute t) && (minute t <=? 59) &&
  (0 <=? second t) && (second t <=? 59) &&
  (0 <=? microsecond t) && (microsecond t <=? 999999) &&
  match tzinfo t with
  | None => true
  | Some z => valid_offset (tz_offset z) && valid_offset (tz_flipped z)
  end.

(** Microseconds of the local wall clock since the start of day 0. *)
Definition wall_us (t : datetime) : Z :=
  (((toordinal (dt_date t) * 24 + hour t) * 60 + minute t) * 60 + second t)
    * 1000000 + microsecond t.

(** The instant an aware value denotes, in microseconds of UTC. *)
Definition instant (t : datetime) (off : Z) : Z := wall_us t - off.

(** The fields of the wall clock, which the comparison reads when the two
    offsets are known to agree. *)
Definition wall (t : datetime) : date * Z * Z * Z * Z :=
  (dt_date t, hour t, minute t, second t, microsecond t).

(** [mytz is ottz]: both values naive, or both with the same [tzinfo]
    object.  Two [timezone] objects are not told apart here: whether they
    are one object or two, their offsets decide, and for equal offsets the
    comparison below reads the wall clock as it does for one object. *)
Definition same_tzinfo (a b : option tz) : bool :=
  match a, b with
  | None, None => true
  | Some (Zone k1 _ _), Some (Zone k2 _ _) => bool_decide (k1 = k2)
  | _, _ => false
  end.

(** [t.utcoffset() != t.replace(fold=not t.fold).utcoffset()]. *)
Definition fold_dependent (t : datetime) : bool :=
  match tzinfo t with
  | Some z => negb (tz_offset z =? tz_flipped z)
  | None => false
  end.

(** [datetime.__eq__] between two date-times.  With one [tzinfo] object
    (or none) on both sides the wall clocks are compared.  Otherwise a value
    whose offset depends on [fold] equals nothing; two values with equal
    offsets compare by their wall clocks, a naive value never equals an
    aware one, and two aware values with different offsets are equal when
    their difference, offsets taken into account, is zero. *)
Definition datetime_eqb (a b : datetime) : bool :=
  if same_tzinfo (tzinfo a) (tzinfo b) then bool_decide (wall a = wall b)
  else if fold_dependent a || fold_dependent b then false
  else
    match utcoffset a, utcoffset b with
    | None, None => bool_decide (wall a = wall b)
    | Some oa, Some ob =>
        if oa =? ob then bool_decide (wall a = wall b)
        else instant a oa =? instant b ob
    | _, _ => false
    end.

(** A value of [date] or of its subclass [datetime]. *)
Inductive pytime :=
| TDate (d : date)
| TDateTime (t : datetime).

#[global] Instance pytime_eq_dec : EqDecision pytime.
Proof. solve_decision. Defined.

(** [==] on dates and date-times: a [date] never equals a [datetime]. *)
Definition time_eqb (a b : pytime) : bool :=
  match a, b with
  | TDate d1, TDate d2 => bool_decide (d1 = d2)
  | TDateTime t1, TDateTime t2 => datetime_eqb t1 t2
  | _, _ => false
  end.

End Datetime.
Import Datetime.

(** ** Python values *)

(** The values that occur in the two event representations and that
    [event_field] returns: [None], [str] (and icalendar's [vText], a [str]
    subclass), [date]/[datetime], icalendar's [vDDDTypes] property (whose
    [.dt] attribute holds the date or date-time), icalendar's [vRecur], and
    the JSON lists and objects of a Google event resource. *)
Inductive pyval :=
| VNone
| VStr (s : string)
| VTime (t : pytime)
| VDDD (t : pytime)
| VRecur (r : gmap string (list string))
| VList (l : list string)
| VObj (o : gmap string string).

#[global] Instance pyval_eq_dec : EqDecision pyval.
Proof. solve_decision. Defined.

(** [a == b]. *)
Definition py_eq (a b : pyval) : bool :=
  match a, b with
  | VNone, VNone => true
  | VStr s1, VStr s2 => bool_decide (s1 = s2)
  | VTime t1, VTime t2 => time_eqb t1 t2
  | VDDD t1, VDDD t2 => time_eqb t1 t2
  | VRecur r1, VRecur r2 => bool_decide (r1 = r2)
  | VList l1, VList l2 => bool_decide (l1 = l2)
  | VObj o1, VObj o2 => bool_decide (o1 = o2)
  | _, _ => false
  end.

(** [a != b]. *)
Definition py_ne (a b : pyval) : bool := negb (py_eq a b).

(** ** Library parsers: [datetime.strptime] and [datetime.fromisoformat] *)

Module Parse.

Definition digit_val (c : ascii) : option Z :=
  let n := Z.of_N (N_of_ascii c) in
  if (48 <=? n) && (n <=? 57) then Some (n - 48) else None.

Definition digit_in (lo hi : Z) (c : ascii) : option Z :=
  match digit_val c with
  | Some v => if (lo <=? v) && (v <=? hi) then Some v else None
  | None => None
  end.

(** Two decimal digits. *)
Definition take2 (s : string) : option (Z * string) :=
  match s with
  | String a (String b r) =>
      d1 ← digit_val a; d2 ← digit_val b; Some (10 * d1 + d2, r)
  | _ => None
  end.

Definition take4 (s : string) : option (Z * string) :=
  '(hi, r) ← take2 s; '(lo, r') ← take2 r; Some (100 * hi + lo, r').

Definition expect (c : ascii) (s : string) : option string :=
  match s with
  | String a r => if Ascii.eqb a c then Some r else None
  | EmptyString => None
  end.

(** The directive [%m] of [strptime]: the alternatives
    [1[0-2]], [0[1-9]], [[1-9]], tried in this order. *)
Definition take_month (s : string) : option (Z * string) :=
  match s with
  | String a r =>
      match digit_val a, r with
      | Some 1, String b r' =>
          match digit_in 0 2 b with
          | Some v => Some (10 + v, r')
          | None => Some (1, r)
          end
      | Some 0, String b r' =>
          match digit_in 1 9 b with
          | Some v => Some (v, r')
          | None => None
          end
      | Some v, _ => if 1 <=? v then Some (v, r) else None
      | None, _ => None
      end
  | EmptyString => None
  end.

(** The directive [%d] of [strptime]: the alternatives [3[0-1]],
    [[1-2]\d], [0[1-9]], [[1-9]] and a space followed by [[1-9]]. *)
Definition take_day (s : string) : option (Z * string) :=
  match s with
  | String a r =>
      match digit_val a, r with
      | Some 3, String b r' =>
          match digit_in 0 1 b with
          | Some v => Some (30 + v, r')
          | None => Some (3, r)
          end
      | Some 0, String b r' =>
          match digit_in 1 9 b with
          | Some v => Some (v, r')
          | None => None
          end
      | Some 0, EmptyString => None
      | Some v, String b r' =>
          if v <=? 2 then
            match digit_val b with
            | Some w => Some (10 * v + w, r')
            | None => Some (v, r)
            end
          else Some (v, r)
      | Some v, EmptyString => Some (v, r)
      | None, String b r' =>
          if Ascii.eqb a " " then
            match digit_in 1 9 b with
            | Some v => Some (v, r')
            | None => None
            end
          else None
      | None, EmptyString => None
      end
  | EmptyString => None
  end.

(** [datetime.strptime(s, "%Y-%m-%d").date()]: four digits of year, a
    month and a day as above, nothing after the day, and the range check
    of the date; every failure is a [ValueError]. *)
Definition strptime_ymd (s : string) : result date :=
  match
    '(y, s1) ← take4 s; s2 ← expect "-" s1;
    '(m, s3) ← take_month s2; s4 ← expect "-" s3;
    '(d, s5) ← take_day s4;
    Some (Date y m d, s5)
  with
  | Some (d, EmptyString) => if valid_date d then Ok d else Raise ValueError
  | _ => Raise ValueError
  end.

(** *** [datetime.fromisoformat]

    The function is the one of CPython 3.11, implemented in
    [_datetimemodule.c]; what follows goes through that code function by
    function.  A string is read as the sequence of its bytes in UTF-8, as
    the C code reads it, and reading at the end of the string gives the
    terminating byte 0. *)

Definition NUL : ascii := "000"%char.

Definition is_digit (c : ascii) : bool :=
  match digit_val c with Some _ => true | None => false end.

(** [dtstr[i]]. *)
Definition byte_at (s : string) (i : nat) : ascii :=
  match String.get i s with
  | Some c => c
  | None => NUL
  end.

(** The first [n] bytes, and what follows them. *)
Fixpoint slice_to (n : nat) (s : string) : string :=
  match n, s with
  | S n', String c r => String c (slice_to n' r)
  | _, _ => ""
  end.

Fixpoint slice_from (n : nat) (s : string) : string :=
  match n, s with
  | S n', String _ r => slice_from n' r
  | _, _ => s
  end.

(** [parse_digits(p, &var, n)]: exactly [n] decimal digits. *)
Fixpoint parse_digits (n : nat) (acc : Z) (s : string) : option (Z * string) :=
  match n with
  | O => Some (acc, s)
  | S n' =>
      match s with
      | String c r => d ← digit_val c; parse_digits n' (10 * acc + d) r
      | EmptyString => None
      end
  end.

Definition take1 (s : string) : option (Z * string) := parse_digits 1 0 s.

(** The digits at the head of a string, and the string without them. *)
Fixpoint count_digits (s : string) : nat :=
  match s with
  | String c r => if is_digit c then S (count_digits r) else O
  | EmptyString => O
  end.

Fixpoint skip_digits (s : string) : string :=
  match s with
  | String c r => if is_digit c then skip_digits r else s
  | EmptyString => s
  end.

(** [_find_isoformat_datetime_separator]: where the date ends, told from
    the bytes 4 and 5 and, for a week date, from what follows the week;
    [None] is its error return.  The string has seven bytes at least. *)
Definition find_isoformat_datetime_separator (s : string) : option nat :=
  let len := String.length s in
  if (len =? 7)%nat then Some 7%nat
  else if Ascii.eqb (byte_at s 4) "-" then
    if Ascii.eqb (byte_at s 5) "W" then
      if (len <? 8)%nat then None
      else if (8 <? len)%nat && Ascii.eqb (byte_at s 8) "-" then
        if (len =? 9)%nat then None
        else if (10 <? len)%nat && is_digit (byte_at s 10) then Some 8%nat
        else Some 10%nat
      else Some 8%nat
    else Some 10%nat
  else if Ascii.eqb (byte_at s 4) "W" then
    let idx := (7 + count_digits (slice_from 7 s))%nat in
    if (idx <? 9)%nat then Some idx
    else if Nat.even idx then Some 7%nat
    else Some 8%nat
  else Some 8%nat.

(** [ord_to_ymd]: the date of an ordinal. *)
Definition ord_to_ymd (ordinal : Z) : date :=
  let ordinal := ordinal - 1 in
  let n400 := ordinal / 146097 in
  let n := ordinal mod 146097 in
  let n100 := n / 36524 in
  let n := n mod 36524 in
  let n4 := n / 1461 in
  let n := n mod 1461 in
  let n1 := n / 365 in
  let n := n mod 365 in
  let year := n400 * 400 + 1 + (n100 * 100 + n4 * 4 + n1) in
  if (n1 =? 4) || (n100 =? 4) then Date (year - 1) 12 31
  else
    let leapyear := (n1 =? 3) && (negb (n4 =? 24) || (n100 =? 3)) in
    let month := Z.shiftr (n + 50) 5 in
    let preceding :=
      DAYS_BEFORE_MONTH month + (if (2 <? month) && leapyear then 1 else 0) in
    if n <? preceding then
      Date year (month - 1)
           (n - (preceding - days_in_month year (month - 1)) + 1)
    else Date year month (n - preceding + 1).

(** [iso_week1_monday]: the ordinal of the Monday that starts week 1. *)
Definition iso_week1_monday (y : Z) : Z :=
  let first_day := toordinal (Date y 1 1) in
  let first_weekday := (first_day + 6) mod 7 in
  let week1_monday := first_day - first_weekday in
  if 3 <? first_weekday then week1_monday + 7 else week1_monday.

(** [iso_to_ymd]: the date of a week date; week 53 exists in the years that
    start on a Thursday, and in the leap years that start on a Wednesday. *)
Definition iso_to_ymd (y w d : Z) : option date :=
  let out_of_range :=
    if (w <=? 0) || (53 <=? w) then
      if w =? 53 then
        let first_weekday := (toordinal (Date y 1 1) + 6) mod 7 in
        negb ((first_weekday =? 3) || ((first_weekday =? 2) && is_leap y))
      else true
    else false in
  if out_of_range then None
  else if (d <=? 0) || (8 <=? d) then None
  else Some (ord_to_ymd (iso_week1_monday y + ((w - 1) * 7 + d - 1))).

(** [parse_isoformat_date], on the bytes before the separator: [YYYY-MM-DD],
    [YYYYMMDD], [YYYY-Www], [YYYYWww], [YYYY-Www-D] or [YYYYWwwD]. *)
Definition parse_isoformat_date (s : string) : option date :=
  '(y, s1) ← take4 s;
  let uses_separator := Ascii.eqb (byte_at s1 0) "-" in
  let s2 := if uses_separator then slice_from 1 s1 else s1 in
  let skip_separator (r : string) :=
    if uses_separator then expect "-" r else Some r in
  if Ascii.eqb (byte_at s2 0) "W" then
    '(w, s3) ← take2 (slice_from 1 s2);
    '(d, _) ← match s3 with
              | EmptyString => Some (1, s3)
              | String _ _ => s4 ← skip_separator s3; take1 s4
              end;
    iso_to_ymd y w d
  else
    '(m, s3) ← take2 s2;
    s4 ← skip_separator s3;
    '(d, _) ← take2 s4;
    Some (Date y m d).

(** The fraction of a second in [parse_hh_mm_ss_ff]: up to six digits are
    read as microseconds and further digits are skipped.  [at_end] tells
    whether the portion [s] runs to the end of the string; the boolean of
    the result is the return value 1, "this is not the end of the string". *)
Definition parse_fraction (at_end : bool) (s : string) : option (Z * bool) :=
  let to_parse := Nat.min 6 (String.length s) in
  '(v, r) ← parse_digits to_parse 0 s;
  Some (v * 10 ^ Z.of_nat (6 - to_parse),
        match skip_digits r with
        | EmptyString => negb at_end
        | String c _ => negb (Ascii.eqb c NUL)
        end).

(** What one round of the loop of [parse_hh_mm_ss_ff] decides after the
    two digits of a component: to return, to go on with the next component,
    to go on with the fraction, or to fail. *)
Inductive hms_next :=
| HmsReturn (more : bool)
| HmsComponent (has_separator : bool) (rest : string)
| HmsFraction (rest : string)
| HmsMalformed.

(** The byte [c] after the component is consumed; with no separator in use
    it is put back.  The first round tells from it whether the components
    are separated by colons. *)
Definition hms_after (first has_separator at_end : bool) (s : string)
  : hms_next :=
  match s with
  | EmptyString => HmsReturn (negb at_end)
  | String c r =>
      let has_separator := if first then Ascii.eqb c ":" else has_separator in
      match r with
      | EmptyString => HmsReturn (negb (Ascii.eqb c NUL))
      | String _ _ =>
          if has_separator && Ascii.eqb c ":" then HmsComponent has_separator r
          else if Ascii.eqb c "." || Ascii.eqb c "," then HmsFraction r
          else if negb has_separator then HmsComponent has_separator s
          else HmsMalformed
      end
  end.

(** The loop over the components [HH], [MM], [SS] that are still to come
    ([todo] of them); the components read are returned in order. *)
Fixpoint hms_loop (todo : nat) (first has_separator at_end : bool)
    (s : string) : option (list Z * hms_next) :=
  match todo with
  | O => Some ([], HmsFraction s)
  | S todo' =>
      '(v, s1) ← take2 s;
      match hms_after first has_separator at_end s1 with
      | HmsComponent has_separator' rest =>
          '(vs, next) ← hms_loop todo' false has_separator' at_end rest;
          Some (v :: vs, next)
      | HmsMalformed => None
      | next => Some ([v], next)
      end
  end.

(** [parse_hh_mm_ss_ff]: [HH[:MM[:SS[.fff...]]]] or the same without
    colons, with [,] for [.] as well; the components that were not written
    are zero. *)
Definition parse_hh_mm_ss_ff (at_end : bool) (s : string)
  : option (Z * Z * Z * Z * bool) :=
  '(vs, next) ← hms_loop 3 true true at_end s;
  let h := nth 0 vs 0 in
  let mi := nth 1 vs 0 in
  let se := nth 2 vs 0 in
  match next with
  | HmsReturn more => Some (h, mi, se, 0, more)
  | HmsFraction rest =>
      '(us, more) ← parse_fraction at_end rest; Some (h, mi, se, us, more)
  | _ => None
  end.

(** The time ends, and the offset starts, at the first [Z], [+] or [-]. *)
Definition is_tz_start (c : ascii) : bool :=
  Ascii.eqb c "Z" || Ascii.eqb c "+" || Ascii.eqb c "-".

Fixpoint split_at_tz (s : string) : string * string :=
  match s with
  | EmptyString => ("", "")
  | String c r =>
      if is_tz_start c then ("", s)
      else let '(t, z) := split_at_tz r in (String c t, z)
  end.

(** [parse_isoformat_time] followed by [tzinfo_from_isoformat_results]: the
    time, and the offset in microseconds when one is written.  [Z] must end
    the string; an offset of zero seconds is UTC, whatever its fraction. *)
Definition parse_isoformat_time (s : string)
  : option (Z * Z * Z * Z * option Z) :=
  let '(tstr, tzstr) := split_at_tz s in
  '(h, mi, se, us, more) ←
    parse_hh_mm_ss_ff (match tzstr with EmptyString => true | _ => false end)
                      tstr;
  match tzstr with
  | EmptyString => if more : bool then None else Some (h, mi, se, us, None)
  | String c r =>
      if Ascii.eqb c "Z" then
        if Ascii.eqb (byte_at r 0) NUL then Some (h, mi, se, us, Some 0)
        else None
      else
        let tzsign := if Ascii.eqb c "-" then -1 else 1 in
        '(tzh, tzm, tzs, tzus, tzmore) ← parse_hh_mm_ss_ff true r;
        if tzmore : bool then None
        else
          let tzoffset := tzsign * (tzh * 3600 + tzm * 60 + tzs) in
          Some (h, mi, se, us,
                Some (if tzoffset =? 0 then 0
                      else tzoffset * 1000000 + tzsign * tzus))
  end.

(** The separator between date and time is one character, of one to four
    bytes. *)
Definition separator_width (c : ascii) : nat :=
  let b := Z.of_N (N_of_ascii c) in
  if b <? 128 then 1%nat
  else if 240 <=? b then 4%nat
  else if 224 <=? b then 3%nat
  else 2%nat.

(** [datetime.fromisoformat(s)]: the date up to the separator, then, when
    the string goes on, the separator and a time with or without offset,
    and the range checks of the [datetime] and [timezone] constructors.
    Every failure is a [ValueError]; an offset gives a [timezone].  A string
    of fewer than seven bytes holds no date; it is refused at once here,
    and by the C code when it reads the date. *)
Definition fromisoformat (s : string) : result datetime :=
  match
    if (String.length s <? 7)%nat then None
    else
      sep ← find_isoformat_datetime_separator s;
      d ← parse_isoformat_date (slice_to sep s);
      match slice_from sep s with
      | EmptyString => Some (DateTime d 0 0 0 0 None)
      | String c _ as rest =>
          '(h, mi, se, us, off) ←
            parse_isoformat_time (slice_from (separator_width c) rest);
          Some (DateTime d h mi se us (Timezone <$> off))
      end
  with
  | Some t => if valid_datetime t then Ok t else Raise ValueError
  | None => Raise ValueError
  end.

End Parse.
Import Parse.

(** ** The two event representations *)

(** A value of an iCalendar property as the [icalendar] library decodes it:
    [vText] (a [str]), [vDDDTypes] (with the attribute [.dt]) or [vRecur]. *)
Inductive ical_prop :=
| PText (s : string)
| PDDD (t : pytime)
| PRecur (r : gmap string (list string)).

(** An [icalendar] component: its name ([VCALENDAR], [VEVENT], ...), its
    properties under their upper-case names, and its subcomponents. *)
#[local] Unset Elimination Schemes.
Inductive component :=
| Component (name : string) (props : gmap string ical_prop)
            (subcomponents : list component).
#[local] Set Elimination Schemes.

Definition comp_name (c : component) : string :=
  match c with Component n _ _ => n end.
Definition comp_props (c : component) : gmap string ical_prop :=
  match c with Component _ p _ => p end.
Definition comp_subcomponents (c : component) : list component :=
  match c with Component _ _ l => l end.

(** A JSON value of a Google Calendar event resource, of the kinds the
    fields read here have: a string, a list of strings ([recurrence]) or an
    object of strings ([start], [end]). *)
Inductive json :=
| JStr (s : string)
| JList (l : list string)
| JObj (o : gmap string string).

(** An event is an instance of [icalendar.Event] or a dictionary decoded
    from the Google API. *)
Inductive event :=
| ICal (c : component)
| Google (d : gmap string json).

Definition prop_value (p : ical_prop) : pyval :=
  match p with
  | PText s => VStr s
  | PDDD t => VDDD t
  | PRecur r => VRecur r
  end.

Definition json_value (j : json) : pyval :=
  match j with
  | JStr s => VStr s
  | JList l => VList l
  | JObj o => VObj o
  end.

(** [key in event] on a component. *)
Definition ical_has (c : component) (key : string) : bool :=
  bool_decide (is_Some (comp_props c !! key)).

(** [event[key]] on a component. *)
Definition ical_get (c : component) (key : string) : result ical_prop :=
  match comp_props c !! key with
  | Some p => Ok p
  | None => Raise (KeyError key)
  end.

(** The attribute [.dt]. *)
Definition prop_dt (p : ical_prop) : result pyval :=
  match p with
  | PDDD t => Ok (VTime t)
  | _ => Raise (AttributeError "dt")
  end.

(** [key in event] and [event[key]] on a dictionary. *)
Definition dict_has (d : gmap string json) (key : string) : bool :=
  bool_decide (is_Some (d !! key)).

Definition dict_get (d : gmap string json) (key : string) : result json :=
  match d !! key with
  | Some j => Ok j
  | None => Raise (KeyError key)
  end.

Fixpoint is_prefix_of (p s : string) : bool :=
  match p, s with
  | EmptyString, _ => true
  | String a p', String b s' => Ascii.eqb a b && is_prefix_of p' s'
  | String _ _, EmptyString => false
  end.

Fixpoint is_substring_of (p s : string) : bool :=
  is_prefix_of p s ||
  match s with
  | EmptyString => false
  | String _ s' => is_substring_of p s'
  end.

(** [key in d] where [d] is a JSON value: key membership for an object,
    element membership for a list, the substring test for a string. *)
Definition json_contains (key : string) (d : json) : bool :=
  match d with
  | JObj o => bool_decide (is_Some (o !! key))
  | JList l => bool_decide (key ∈ l)
  | JStr s => is_substring_of key s
  end.

(** [d[key]] with a string key: defined on an object only. *)
Definition json_getitem (d : json) (key : string) : result string :=
  match d with
  | JObj o =>
      match o !! key with
      | Some s => Ok s
      | None => Raise (KeyError key)
      end
  | _ => Raise TypeError
  end.

(** ** [otg/api/events.py] *)

Definition EVENT_ID := "id".
Definition EVENT_SUMMARY := "summary".
Definition EVENT_DESCRIPTION := "description".
Definition EVENT_LOCATION := "location".
Definition EVENT_STATUS := "status".
Definition EVENT_RECURRENCE := "recurrence".
Definition EVENT_START := "start".
Definition EVENT_END := "end".

Definition EVENT_FIELDS : list string :=
  [EVENT_ID; EVENT_SUMMARY; EVENT_LOCATION; EVENT_DESCRIPTION; EVENT_STATUS;
   EVENT_RECURRENCE; EVENT_START; EVENT_END].

Definition EVENT_COMPARISON_FIELDS : list string :=
  [EVENT_SUMMARY; EVENT_DESCRIPTION; EVENT_LOCATION; EVENT_START; EVENT_END].

(** The body shared by the [start] and [end] branches of a Google event. *)
Definition google_time (d : json) : result pyval :=
  if json_contains "dateTime" d then
    s ← json_getitem d "dateTime";
    t ← fromisoformat s;
    Ok (VTime (TDateTime t))
  else
    s ← json_getitem d "date";
    t ← strptime_ymd s;
    Ok (VTime (TDate t)).

Definition event_field (ev : event) (field : string) : result pyval :=
  if negb (bool_decide (field ∈ EVENT_FIELDS)) then
    Raise (PyException ("Unknown event field: " +:+ field))
  else
    match ev with
    | ICal c =>
        if String.eqb field EVENT_ID then
          prop_value <$> ical_get c "UID"
        else if String.eqb field EVENT_SUMMARY then
          if ical_has c "SUMMARY" then prop_value <$> ical_get c "SUMMARY"
          else Ok (VStr "")
        else if String.eqb field EVENT_DESCRIPTION then
          if ical_has c "DESCRIPTION" then
            prop_value <$> ical_get c "DESCRIPTION"
          else Ok (VStr "")
        else if String.eqb field EVENT_STATUS then
          prop_value <$> ical_get c "STATUS"
        else if String.eqb field EVENT_LOCATION then
          prop_value <$> ical_get c "LOCATION"
        else if String.eqb field EVENT_RECURRENCE then
          if ical_has c "RRULE" then prop_value <$> ical_get c "RRULE"
          else Ok VNone
        else if String.eqb field EVENT_START then
          if ical_has c "DTSTART" then p ← ical_get c "DTSTART"; prop_dt p
          else Ok VNone
        else if String.eqb field EVENT_END then
          if ical_has c "DTEND" then p ← ical_get c "DTEND"; prop_dt p
          else Ok VNone
        else
          Raise (PyException ("Unhandled event field: " +:+ field))
    | Google d =>
        if String.eqb field EVENT_ID then
          json_value <$> dict_get d "id"
        else if String.eqb field EVENT_SUMMARY then
          if dict_has d "summary" then json_value <$> dict_get d "summary"
          else Ok (VStr "")
        else if String.eqb field EVENT_DESCRIPTION then
          if dict_has d "description" then
            json_value <$> dict_get d "description"
          else Ok (VStr "")
        else if String.eqb field EVENT_STATUS then
          json_value <$> dict_get d "status"
        else if String.eqb field EVENT_LOCATION then
          json_value <$> dict_get d "location"
        else if String.eqb field EVENT_RECURRENCE then
          if dict_has d "recurrence" then json_value <$> dict_get d "recurrence"
          else Ok VNone
        else if String.eqb field EVENT_START then
          if dict_has d "start" then d' ← dict_get d "start"; google_time d'
          else Ok VNone
        else if String.eqb field EVENT_END then
          if dict_has d "end" then d' ← dict_get d "end"; google_time d'
          else Ok VNone
        else
          Raise (PyException ("Unhandled event field: " +:+ field))
    end.

(** [google["iCalUID"] if ("iCalUID" in google) else ""]; a component
    looks its keys up in upper case. *)
Definition iCalUID_or_empty (google : event) : result pyval :=
  match google with
  | Google d =>
      if dict_has d "iCalUID" then json_value <$> dict_get d "iCalUID"
      else Ok (VStr "")
  | ICal c =>
      if ical_has c "ICALUID" then prop_value <$> ical_get c "ICALUID"
      else Ok (VStr "")
  end.

Definition is_same_event (outlook google : event) : result bool :=
  oid ← event_field outlook EVENT_ID;
  gid ← iCalUID_or_empty google;
  Ok (py_eq oid gid).

(** The [for] loop of [has_event_changed], with its [break]. *)
Fixpoint has_event_changed_loop (fields : list string) (outlook google : event)
  : result bool :=
  match fields with
  | [] => Ok false
  | field :: rest =>
      ovalue ← event_field outlook field;
      gvalue ← event_field google field;
      if py_ne ovalue gvalue then Ok true
      else has_event_changed_loop rest outlook google
  end.

Definition has_event_changed (outlook google : event) : result bool :=
  has_event_changed_loop EVENT_COMPARISON_FIELDS outlook google.

(** ** Regular expressions and [re.match] *)

Module Regex.

(** A compiled pattern.  [Dot] is [.], which matches any character but a
    newline; [Range lo hi] is the class [[lo-hi]]. *)
Inductive regex :=
| Void
| Eps
| Chr (c : ascii)
| Dot
| Range (lo hi : ascii)
| Cat (r1 r2 : regex)
| Alt (r1 r2 : regex)
| Star (r : regex).

Definition newline : ascii := "010"%char.

Definition in_range (lo hi c : ascii) : bool :=
  (N_of_ascii lo <=? N_of_ascii c)%N && (N_of_ascii c <=? N_of_ascii hi)%N.

(** The strings a pattern matches in full. *)
Inductive matches : regex -> string -> Prop :=
| m_eps : matches Eps ""
| m_chr c : matches (Chr c) (String c "")
| m_dot c : c <> newline -> matches Dot (String c "")
| m_range lo hi c : in_range lo hi c = true -> matches (Range lo hi) (String c "")
| m_cat r1 r2 s1 s2 :
    matches r1 s1 -> matches r2 s2 -> matches (Cat r1 r2) (s1 +:+ s2)
| m_alt_l r1 r2 s : matches r1 s -> matches (Alt r1 r2) s
| m_alt_r r1 r2 s : matches r2 s -> matches (Alt r1 r2) s
| m_star_nil r : matches (Star r) ""
| m_star_app r s1 s2 :
    matches r s1 -> matches (Star r) s2 -> matches (Star r) (s1 +:+ s2).

Fixpoint nullable (r : regex) : bool :=
  match r with
  | Void | Chr _ | Dot | Range _ _ => false
  | Eps | Star _ => true
  | Cat r1 r2 => nullable r1 && nullable r2
  | Alt r1 r2 => nullable r1 || nullable r2
  end.

(** The derivative of a pattern by a character. *)
Fixpoint deriv (a : ascii) (r : regex) : regex :=
  match r with
  | Void | Eps => Void
  | Chr c => if Ascii.eqb a c then Eps else Void
  | Dot => if Ascii.eqb a newline then Void else Eps
  | Range lo hi => if in_range lo hi a then Eps else Void
  | Cat r1 r2 =>
      if nullable r1 then Alt (Cat (deriv a r1) r2) (deriv a r2)
      else Cat (deriv a r1) r2
  | Alt r1 r2 => Alt (deriv a r1) (deriv a r2)
  | Star r' => Cat (deriv a r') (Star r')
  end.

(** [re.fullmatch]: the whole string is matched. *)
Fixpoint fullmatch (r : regex) (s : string) : bool :=
  match s with
  | EmptyString => nullable r
  | String a s' => fullmatch (deriv a r) s'
  end.

(** [re.match]: a match that starts at the first character and may end
    anywhere. *)
Fixpoint re_match (r : regex) (s : string) : bool :=
  nullable r ||
  match s with
  | EmptyString => false
  | String a s' => re_match (deriv a r) s'
  end.

(** [re.search]: a match that may start anywhere. *)
Fixpoint re_search (r : regex) (s : string) : bool :=
  re_match r s ||
  match s with
  | EmptyString => false
  | String _ s' => re_search r s'
  end.

End Regex.
Import Regex.

(** ** [itg/api/outlook.py] *)

(** [Component.walk(name)] of the [icalendar] library: the component itself
    when it has that name, then the walks of its subcomponents, in order. *)
Fixpoint walk (name : string) (c : component) : list component :=
  match c with
  | Component n _ subs =>
      (if String.eqb n name then [c] else []) ++ flat_map (walk name) subs
  end.

(** [re.match(pattern, value)]: the value has to be a string. *)
Definition py_re_match (pattern : regex) (value : ical_prop) : result bool :=
  match value with
  | PText s => Ok (re_match pattern s)
  | _ => Raise TypeError
  end.

(** What [filter_events] gives: a list of events, or an exception. *)
Definition event_list_result : Type := result (list component).

(** The [for] loop of [filter_events]; [result] is the list built so far. *)
Fixpoint filter_events_loop (events : list component)
    (regexp_id regexp_summary : option regex) (result : list component)
  : event_list_result :=
  match events with
  | [] => Ok result
  | event :: rest =>
      id_ok ← match regexp_id with
              | Some r => uid ← ical_get event "UID"; py_re_match r uid
              | None => Ok true
              end;
      if negb id_ok then
        filter_events_loop rest regexp_id regexp_summary result
      else
        summary_ok ← match regexp_summary with
                     | Some r =>
                         summary ← ical_get event "SUMMARY";
                         py_re_match r summary
                     | None => Ok true
                     end;
        if negb summary_ok then
          filter_events_loop rest regexp_id regexp_summary result
        else
          filter_events_loop rest regexp_id regexp_summary (result ++ [event])
  end.

Definition filter_events (calendar : component)
    (regexp_id regexp_summary : option regex) : result (list component) :=
  filter_events_loop (walk "VEVENT" calendar) regexp_id regexp_summary [].

(** ** [itg/tools/sync_calendars.py] *)

(** What a run of [sync_events] does that can be seen from outside: it
    starts a pass of the pipeline, logs, and sleeps. *)
Inductive action :=
| RunPipeline (cycle : nat)
| LogWarning (msg : string)
| LogInfo (msg : string)
| Sleep (seconds : Z).

#[global] Instance action_eq_dec : EqDecision action.
Proof. solve_decision. Defined.

(** How a run stands after a bounded number of passes of the [while] loop:
    it has left the loop through [break], an exception has left the function,
    or the loop is about to start another pass. *)
Inductive outcome :=
| Returned
| Raised (e : exn)
| Running.

(** ["%d" % n]. *)
Definition format_d (n : Z) : string :=
  NilEmpty.string_of_int (Z.to_int n).

(** [time.sleep(n)] refuses a negative length. *)
Definition sleep (n : Z) : result action :=
  if n <? 0 then Raise ValueError else Ok (Sleep n).

Section SyncCalendars.

(** The collaborators of [sync_events] that live outside these sources.
    Each may raise, and each is asked once per pass of the loop: the first
    argument is the number of the pass, so that the feed and the store may
    answer differently over time. *)
Variables service comparison failure : Type.
Variable load_calendar : nat -> string -> option string -> result component.
Variable init_service : nat -> string -> result service.
Variable gfilter_events :
  nat -> service -> string -> option regex -> option regex ->
  result (list (gmap string json)).
Variable compare :
  list component -> list (gmap string json) -> result comparison.
Variable sync :
  nat -> service -> string -> comparison -> bool ->
  result (gmap string (list failure)).

(** The arguments of [sync_events]. *)
Variables ical_calendar google_credentials google_calendar : string.
Variables ical_id ical_summary : option regex.
Variable ical_output : option string.
Variables google_id google_summary : option regex.
Variable dry_run : bool.
Variable poll_interval : option Z.

(** [sum([len(errors[x]) for x in errors])]. *)
Definition num_errors (errors : gmap string (list failure)) : Z :=
  foldr Z.add 0 ((fun kv => Z.of_nat (length kv.2)) <$> map_to_list errors).

(** One pass of the loop up to the test of [poll_interval]: the log lines
    it writes, or the exception that leaves it. *)
Definition pipeline (cycle : nat) : result (list action) :=
  ical_cal ← load_calendar cycle ical_calendar ical_output;
  ical_events ← filter_events ical_cal ical_id ical_summary;
  google_service ← init_service cycle google_credentials;
  google_events ← gfilter_events cycle google_service google_calendar
                                 google_id google_summary;
  comparison ← compare ical_events google_events;
  errors ← sync cycle google_service google_calendar comparison dry_run;
  Ok (if 0 <? num_errors errors then [LogWarning "%d errors occurred!"]
      else []).

(** The [while True] loop, run for at most [fuel] passes starting with pass
    number [cycle]. *)
Fixpoint sync_events_loop (fuel cycle : nat) : list action * outcome :=
  match fuel with
  | O => ([], Running)
  | S fuel' =>
      match pipeline cycle with
      | Raise e => ([RunPipeline cycle], Raised e)
      | Ok logs =>
          match poll_interval with
          | None => (RunPipeline cycle :: logs, Returned)
          | Some n =>
              let info := LogInfo ("Waiting " +:+ format_d n +:+
                                   " seconds before next poll...") in
              match sleep n with
              | Raise e => (RunPipeline cycle :: logs ++ [info], Raised e)
              | Ok s =>
                  let '(trace, o) := sync_events_loop fuel' (S cycle) in
                  (RunPipeline cycle :: logs ++ [info; s] ++ trace, o)
              end
          end
      end
  end.

Definition sync_events (fuel : nat) : list action * outcome :=
  sync_events_loop fuel 0.

End SyncCalendars.

(** ** Renderings and specification-side notions *)

Module Render.

Definition digit_char (n : Z) : ascii := ascii_of_N (Z.to_N (48 + n)).

(** ["%02d" % n] and ["%04d" % n] on their ranges. *)
Definition fmt2 (n : Z) : string :=
  String (digit_char (n / 10)) (String (digit_char (n mod 10)) "").

Definition fmt4 (n : Z) : string := fmt2 (n / 100) +:+ fmt2 (n mod 100).

Definition fmt3 (n : Z) : string :=
  String (digit_char (n / 100)) (fmt2 (n mod 100)).

(** ["%06d" % n]. *)
Definition fmt6 (n : Z) : string := fmt3 (n / 1000) +:+ fmt3 (n mod 1000).

(** [date.isoformat()]: [YYYY-MM-DD]. *)
Definition date_isoformat (d : date) : string :=
  fmt4 (year d) +:+ "-" +:+ fmt2 (month d) +:+ "-" +:+ fmt2 (day d).

(** The offset [+HH:MM] or [-HH:MM] of a whole number of minutes. *)
Definition offset_isoformat (off : Z) : string :=
  let minutes := Z.abs off / 60000000 in
  (if off <? 0 then "-" else "+") +:+
  fmt2 (minutes / 60) +:+ ":" +:+ fmt2 (minutes mod 60).

(** [datetime.isoformat()] of an aware value whose offset is a whole number
    of minutes: [YYYY-MM-DDTHH:MM:SS], the microseconds as [.ffffff] when
    they are not zero, and the offset. *)
Definition datetime_isoformat (t : datetime) (off : Z) : string :=
  date_isoformat (dt_date t) +:+ "T" +:+
  fmt2 (hour t) +:+ ":" +:+ fmt2 (minute t) +:+ ":" +:+ fmt2 (second t) +:+
  (if microsecond t =? 0 then "" else "." +:+ fmt6 (microsecond t)) +:+
  offset_isoformat off.

(** The precision in which a date-time string gives the fraction of the
    second. *)
Inductive fraction :=
| NoFraction
| Milliseconds
| Microseconds.

(** [HH:MM:SS] and the fraction of the second in the precision [f]. *)
Definition time_isoformat (f : fraction) (t : datetime) : string :=
  fmt2 (hour t) +:+ ":" +:+ fmt2 (minute t) +:+ ":" +:+ fmt2 (second t) +:+
  match f with
  | NoFraction => ""
  | Milliseconds => "." +:+ fmt3 (microsecond t / 1000)
  | Microseconds => "." +:+ fmt6 (microsecond t)
  end.

(** A date-time of RFC 3339, as the [dateTime] entry of a Google event
    carries it: the date, one separating character ([T], as a rule), the
    time, and the offset, written [Z] when [zulu] is set and [+HH:MM] or
    [-HH:MM] otherwise. *)
Definition rfc3339 (sep : ascii) (f : fraction) (zulu : bool)
    (t : datetime) (off : Z) : string :=
  date_isoformat (dt_date t) +:+
  String sep (time_isoformat f t +:+
              (if zulu then "Z" else offset_isoformat off)).

(** The string says all of the value: the separator is one ASCII character,
    the offset is a whole number of minutes, and zero when written [Z], and
    the microseconds fit the precision. *)
Definition rfc3339_exact (sep : ascii) (f : fraction) (zulu : bool)
    (t : datetime) (off : Z) : Prop :=
  (Z.of_N (N_of_ascii sep) < 128) /\
  (off mod 60000000 = 0) /\
  (zulu = true -> off = 0) /\
  match f with
  | NoFraction => microsecond t = 0
  | Milliseconds => microsecond t mod 1000 = 0
  | Microseconds => True
  end.

End Render.
Import Render.

(** The target's linked external identity, the empty string when absent. *)
Definition targetForeignId (g : gmap string json) : json :=
  match g !! "iCalUID" with
  | Some j => j
  | None => JStr ""
  end.

(** A day of the calendar, in any year: a month, and a day of that month. *)
Definition on_calendar (d : date) : Prop :=
  1 <= month d <= 12 /\ 1 <= day d <= days_in_month (year d) (month d).

Definition year_length (y : Z) : Z := if is_leap y then 366 else 365.

(** The day after and the day before a day of the calendar. *)
Definition next_day (d : date) : date :=
  if day d <? days_in_month (year d) (month d) then
    Date (year d) (month d) (day d + 1)
  else if month d <? 12 then Date (year d) (month d + 1) 1
  else Date (year d + 1) 1 1.

Definition prev_day (d : date) : date :=
  if 1 <? day d then Date (year d) (month d) (day d - 1)
  else if 1 <? month d then
    Date (year d) (month d - 1) (days_in_month (year d) (month d - 1))
  else Date (year d - 1) 12 31.

(** Microseconds since midnight on the wall clock. *)
Definition time_of_day (t : datetime) : Z :=
  ((hour t * 60 + minute t) * 60 + second t) * 1000000 + microsecond t.

(** What a clock set to UTC shows at the moment a value with the offset
    [off] denotes: the day and the microseconds since midnight.  Taking the
    offset off the wall clock moves the day by one at most. *)
Definition utc_clock (t : datetime) (off : Z) : date * Z :=
  let u := time_of_day t - off in
  if u <? 0 then (prev_day (dt_date t), u + us_per_day)
  else if us_per_day <=? u then (next_day (dt_date t), u - us_per_day)
  else (dt_date t, u).

(** The offset of the zone does not hinge on [fold]: the wall clock of the
    value is neither repeated nor skipped in its zone. *)
Definition unambiguous (z : tz) : Prop := tz_offset z = tz_flipped z.

(** Both values carry one and the same zone object. *)
Definition same_zone (z1 z2 : tz) : Prop :=
  match z1, z2 with
  | Zone k1 _ _, Zone k2 _ _ => k1 = k2
  | _, _ => False
  end.

(** When two values are equal as calendar values: two days when they are
    the same day; two date-times without zone, or with one and the same
    zone object, when their wall clocks show the same; two date-times with
    different zone objects when neither wall clock is ambiguous in its zone
    and a clock set to UTC shows the same for both.  A day never equals a
    date-time, nor a date-time without zone one with a zone. *)
Inductive same_moment : pytime -> pytime -> Prop :=
| same_day d : same_moment (TDate d) (TDate d)
| same_wall_naive t1 t2 :
    tzinfo t1 = None -> tzinfo t2 = None -> wall t1 = wall t2 ->
    same_moment (TDateTime t1) (TDateTime t2)
| same_wall_zone t1 z1 t2 z2 :
    tzinfo t1 = Some z1 -> tzinfo t2 = Some z2 -> same_zone z1 z2 ->
    wall t1 = wall t2 ->
    same_moment (TDateTime t1) (TDateTime t2)
| same_instant t1 z1 t2 z2 :
    tzinfo t1 = Some z1 -> tzinfo t2 = Some z2 -> ~ same_zone z1 z2 ->
    unambiguous z1 -> unambiguous z2 ->
    utc_clock t1 (tz_offset z1) = utc_clock t2 (tz_offset z2) ->
    same_moment (TDateTime t1) (TDateTime t2).

(** The range checks of the constructors, for a day or a date-time. *)
Definition valid_time (t : pytime) : bool :=
  match t with
  | TDate d => valid_date d
  | TDateTime dt => valid_datetime dt
  end.

(** A value of the kinds that the [dt] of an iCal start or end has: a
    [date], or a [datetime] that is naive or carries a [timezone]. *)
Definition python_time (v : pyval) : Prop :=
  exists t, v = VTime t /\ valid_time t = true /\
    match t with
    | TDate _ => True
    | TDateTime dt =>
        tzinfo dt = None \/ exists off, tzinfo dt = Some (Timezone off)
    end.

(** The start/end entry of a Google event holds [t] in writing: the key
    [date] alone with the day as [YYYY-MM-DD], or the key [dateTime] with
    an RFC 3339 rendering of a date-time whose offset is fixed. *)
Definition google_time_entry (g : gmap string json) (key : string)
    (t : pytime) : Prop :=
  exists o, g !! key = Some (JObj o) /\
    match t with
    | TDate d =>
        valid_date d = true /\
        o !! "dateTime" = None /\ o !! "date" = Some (date_isoformat d)
    | TDateTime dt =>
        valid_datetime dt = true /\
        exists off sep f zulu,
          tzinfo dt = Some (Timezone off) /\
          rfc3339_exact sep f zulu dt off /\
          o !! "dateTime" = Some (rfc3339 sep f zulu dt off)
    end.

(** The names under which the two shapes keep the start and the end. *)
Inductive time_field : string -> string -> string -> Prop :=
| time_field_start : time_field EVENT_START "DTSTART" "start"
| time_field_end : time_field EVENT_END "DTEND" "end".

(** A pattern, when given, finds a string under [key]. *)
Definition has_text (pattern : option regex) (key : string) (ev : component)
  : Prop :=
  match pattern with
  | None => True
  | Some _ => exists s, comp_props ev !! key = Some (PText s)
  end.

(** A pattern, when given, matches the string under [key] from its start. *)
Definition pattern_ok (pattern : option regex) (key : string) (ev : component)
  : bool :=
  match pattern with
  | None => true
  | Some r =>
      match comp_props ev !! key with
      | Some (PText s) => re_match r s
      | _ => false
      end
  end.

(** Every provided pattern matches. *)
Definition keeps (regexp_id regexp_summary : option regex) (ev : component)
  : bool :=
  pattern_ok regexp_id "UID" ev && pattern_ok regexp_summary "SUMMARY" ev.

(** [filter_events] can read what the provided patterns need of [ev]: the UID
    when an identity pattern is given, and the SUMMARY when a summary pattern
    is given and the event passes the identity pattern. *)
Definition readable (regexp_id regexp_summary : option regex) (ev : component)
  : Prop :=
  has_text regexp_id "UID" ev /\
  (pattern_ok regexp_id "UID" ev = true -> has_text regexp_summary "SUMMARY" ev).

(** The exception for an event without identity: the lookup error of the
    key under which the shape keeps it. *)
Definition identity_error (ev : event) (e : exn) : Prop :=
  match ev with
  | ICal c => comp_props c !! "UID" = None /\ e = KeyError "UID"
  | Google d => d !! "id" = None /\ e = KeyError "id"
  end.

(** The exception for a start/end entry of a Google event that is there but
    cannot be read as a day or a date-time: an entry that is no object, a
    [dateTime] or, without one, a [date] that the parser refuses, or an
    object with neither key. *)
Inductive time_entry_error : json -> exn -> Prop :=
| entry_is_string s : time_entry_error (JStr s) TypeError
| entry_is_list l : time_entry_error (JList l) TypeError
| entry_bad_dateTime o s :
    o !! "dateTime" = Some s -> (forall t, fromisoformat s <> Ok t) ->
    time_entry_error (JObj o) ValueError
| entry_bad_date o s :
    o !! "dateTime" = None -> o !! "date" = Some s ->
    (forall d, strptime_ymd s <> Ok d) ->
    time_entry_error (JObj o) ValueError
| entry_without_keys o :
    o !! "dateTime" = None -> o !! "date" = None ->
    time_entry_error (JObj o) (KeyError "date").

(** The exception for a start or an end that is there but is no day or
    date-time: an iCal property without the attribute [dt], or a Google
    entry as above. *)
Definition time_error (ev : event) (ikey gkey : string) (e : exn) : Prop :=
  match ev with
  | ICal c =>
      exists p, comp_props c !! ikey = Some p /\
                (forall t, p <> PDDD t) /\ e = AttributeError "dt"
  | Google d => exists j, d !! gkey = Some j /\ time_entry_error j e
  end.

(** Both events can be read at every field of the list. *)
Definition fields_readable (fields : list string) (outlook google : event)
  : Prop :=
  forall f, f ∈ fields ->
    is_ok (event_field outlook f) = true /\ is_ok (event_field google f) = true.

(** Some field of the list has different values in the two events. *)
Definition some_field_differs (fields : list string) (outlook google : event)
  : Prop :=
  exists f ov gv, f ∈ fields /\
    event_field outlook f = Ok ov /\ event_field google f = Ok gv /\
    py_ne ov gv = true.

(** The test one pattern makes on one event: the unguarded lookup, then
    [re.match]. *)
Definition check_pattern (pattern : option regex) (key : string)
    (ev : component) : result bool :=
  match pattern with
  | Some r => v ← ical_get ev key; py_re_match r v
  | None => Ok true
  end.

(** The log line written before each sleep. *)
Definition waiting_message (n : Z) : action :=
  LogInfo ("Waiting " +:+ format_d n +:+ " seconds before next poll...").


(** Sample events. *)
Module Samples.

Definition day (y m d : Z) : pytime := TDate (Date y m d).

(** A VEVENT with an identity, a summary and a start, and no location. *)
Definition standup : component :=
  Component "VEVENT"
    {[ "UID" := PText "A"; "SUMMARY" := PText "Standup";
       "DTSTART" := PDDD (day 2024 1 1) ]} [].

(** A VEVENT with a location and an end as well. *)
Definition review : component :=
  Component "VEVENT"
    {[ "UID" := PText "B"; "SUMMARY" := PText "Review";
       "LOCATION" := PText "Room 1";
       "DTSTART" := PDDD (day 2024 1 2); "DTEND" := PDDD (day 2024 1 3) ]} [].

(** A VEVENT without a summary. *)
Definition untitled : component :=
  Component "VEVENT" {[ "UID" := PText "C" ]} [].

(** A VEVENT without an identity, and one whose identity is empty. *)
Definition anonymous : component :=
  Component "VEVENT" {[ "SUMMARY" := PText "Lunch" ]} [].

Definition blank_uid : component :=
  Component "VEVENT" {[ "UID" := PText ""; "SUMMARY" := PText "Lunch" ]} [].

Definition calendar : component :=
  Component "VCALENDAR" ∅ [standup; review].

Definition calendar_untitled : component :=
  Component "VCALENDAR" ∅ [standup; untitled].

Definition calendar_anonymous : component :=
  Component "VCALENDAR" ∅ [anonymous].

(** The Google event linked to [standup], moved by a day. *)
Definition g_standup_moved : gmap string json :=
  {[ "id" := JStr "g1"; "iCalUID" := JStr "A"; "summary" := JStr "Standup";
     "location" := JStr "Room 1";
     "start" := JObj {[ "date" := "2024-01-02" ]} ]}.

(** The Google event linked to [review]. *)
Definition g_review : gmap string json :=
  {[ "id" := JStr "g2"; "iCalUID" := JStr "B"; "summary" := JStr "Review";
     "location" := JStr "Room 1";
     "start" := JObj {[ "date" := "2024-01-02" ]};
     "end" := JObj {[ "date" := "2024-01-03" ]} ]}.

(** A Google event without a linked identity. *)
Definition g_unlinked : gmap string json :=
  {[ "id" := JStr "g3"; "summary" := JStr "Lunch" ]}.

(** 09:00 at UTC+13:00 on 2024-01-01 and 15:00 at UTC-05:00 on 2023-12-31:
    one instant. *)
Definition nine_plus13 : datetime :=
  DateTime (Date 2024 1 1) 9 0 0 0 (Some (Timezone 46800000000)).

Definition three_minus5 : datetime :=
  DateTime (Date 2023 12 31) 15 0 0 0 (Some (Timezone (-18000000000))).

Definition meeting : component :=
  Component "VEVENT"
    {[ "UID" := PText "D"; "SUMMARY" := PText "Meeting";
       "LOCATION" := PText "Room 2";
       "DTSTART" := PDDD (TDateTime nine_plus13) ]} [].

Definition g_meeting_start : gmap string string :=
  {[ "dateTime" := "2023-12-31T15:00:00-05:00";
     "timeZone" := "America/New_York" ]}.

Definition g_meeting : gmap string json :=
  {[ "id" := JStr "g4"; "iCalUID" := JStr "D"; "summary" := JStr "Meeting";
     "location" := JStr "Room 2"; "start" := JObj g_meeting_start ]}.

(** The pattern [St.*]. *)
Definition st_any : regex := Cat (Chr "S") (Cat (Chr "t") (Star Dot)).

(** Collaborators for a run of the poll loop: the feed and the store always
    answer, and the synchronisation reports one failed creation on every
    odd pass. *)
Definition feed (cycle : nat) (path : string) (output : option string)
  : result component := Ok calendar.

Definition service (cycle : nat) (credentials : string) : result unit :=
  Ok tt.

Definition store (cycle : nat) (s : unit) (cal : string)
    (regexp_id regexp_summary : option regex)
  : result (list (gmap string json)) := Ok [g_review].

Definition compare (sources : list component)
    (targets : list (gmap string json)) : result unit := Ok tt.

Definition sync (cycle : nat) (s : unit) (cal : string) (cmp : unit)
    (dry_run : bool) : result (gmap string (list string)) :=
  Ok (if Nat.even cycle then ∅ else {[ "add" := ["A"] ]}).


End Samples.

(** ** [itg/api/outlook.py]: loading the calendar *)

Module OutlookIO.

(** What the loaders can raise: an exception of [exn], an [IOError] (the same
    class as [OSError]) with its message, or an exception of a library call
    (the HTTP client, the parser, the file system). *)
Inductive io_exn :=
| StdExn (e : exn)
| OSError (msg : string)
| LibraryError (what : string).

Inductive io_result (A : Type) :=
| Done (a : A)
| Failed (e : io_exn).
Arguments Done {A} a.
Arguments Failed {A} e.

(** The part of a [requests] response the loader reads. *)
Record response := Response { status_code : Z; text : string }.

(** The line feed. *)
Definition LF : string := String newline "".

Section Loaders.

(** The world outside and the calls that touch it.  A call that raises may
    still have changed the world (a file opened for writing, say). *)
Variable world : Type.
(** [logger().info(msg)] and [logger().error(msg)]. *)
Variable log_info : string -> world -> world.
Variable log_error : string -> world -> world.
(** [requests.get(url)]. *)
Variable requests_get : string -> world -> world * io_result response.
(** [icalendar.Calendar.from_ical(text)]. *)
Variable from_ical : string -> io_result component.
(** [with open(path, "w") as fp:] followed by one [fp.write] per string. *)
Variable write_file : string -> list string -> world -> world * io_result unit.
(** [os.path.exists], [os.path.isfile]. *)
Variable path_exists : string -> world -> bool.
Variable path_isfile : string -> world -> bool.
(** [with open(path) as fp:] followed by [fp.read()]. *)
Variable read_file : string -> world -> world * io_result string.
(** [shutil.copy(src, dst)]. *)
Variable shutil_copy : string -> string -> world -> world * io_result unit.

Definition load_calendar_from_url (url : string) (output_file : option string)
    (w : world) : world * io_result component :=
  let w := log_info ("Downloading calendar: " +:+ url) w in
  let '(w, got) := requests_get url w in
  match got with
  | Failed e => (w, Failed e)
  | Done r =>
      if status_code r =? 200 then
        match from_ical (text r) with
        | Failed e => (w, Failed e)
        | Done result =>
            match output_file with
            | Some out =>
                let '(w, saved) := write_file out [text r; LF] w in
                match saved with
                | Done _ => (w, Done result)
                | Failed _ =>
                    (log_error ("Failed to save Outlook calendar to: " +:+ out) w,
                     Done result)
                end
            | None => (w, Done result)
            end
        end
      else
        (w, Failed (StdExn (PyException
              ("Failed to retrieve Outlook calendar '" +:+ url +:+
               "', status code: " +:+ format_d (status_code r)))))
  end.

Definition load_calendar_from_path (path : string) (output_file : option string)
    (w : world) : world * io_result component :=
  let w := log_info ("Loading calendar: " +:+ path) w in
  if path_exists path w && path_isfile path w then
    let '(w, content) := read_file path w in
    match content with
    | Failed e => (w, Failed e)
    | Done s =>
        match from_ical s with
        | Failed e => (w, Failed e)
        | Done result =>
            match output_file with
            | Some out =>
                let '(w, copied) := shutil_copy path out w in
                match copied with
                | Done _ => (w, Done result)
                | Failed _ =>
                    (log_error ("Failed to copy Outlook calendar to: " +:+ out) w,
                     Done result)
                end
            | None => (w, Done result)
            end
        end
    end
  else
    (w, Failed (OSError ("Calendar file does not exist: " +:+ path))).

Definition load_calendar (path_or_url : string) (output_file : option string)
    (w : world) : world * io_result component :=
  if is_prefix_of "http:" path_or_url || is_prefix_of "https:" path_or_url then
    load_calendar_from_url path_or_url output_file w
  else
    load_calendar_from_path path_or_url output_file w.

End Loaders.

End OutlookIO.

(** ** [itg/tools/sync_calendars.py]: the entry points *)

(** The namespace [parse_args] returns. *)
Record cli_args := CliArgs {
  arg_ical_calendar : string;
  arg_ical_id : option regex;
  arg_ical_summary : option regex;
  arg_ical_output : option string;
  arg_google_credentials : string;
  arg_google_calendar : string;
  arg_google_id : option regex;
  arg_google_summary : option regex;
  arg_dry_run : bool;
  arg_poll_interval : option Z;
  arg_logging_level : string
}.

(** [parser.parse_args()] returns the namespace or leaves through
    [SystemExit], which is no [Exception]. *)
Inductive parse_outcome :=
| Parsed (a : cli_args)
| ParseExit (code : Z).

(** How [main] stands after a bounded number of passes of the loop. *)
Inductive main_outcome :=
| MainReturned
| MainRaised (e : exn)
| MainSystemExit (code : Z)
| MainRunning.

(** How [sys_main] stands: it has returned a status, [SystemExit] has gone
    through it, or the loop is still running. *)
Inductive sys_main_outcome :=
| ReturnCode (code : Z)
| SystemExitPropagates (code : Z)
| SysRunning.

Section EntryPoints.

Variables service comparison failure : Type.
Variable load_calendar : nat -> string -> option string -> result component.
Variable init_service : nat -> string -> result service.
Variable gfilter_events :
  nat -> service -> string -> option regex -> option regex ->
  result (list (gmap string json)).
Variable compare :
  list component -> list (gmap string json) -> result comparison.
Variable sync :
  nat -> service -> string -> comparison -> bool ->
  result (gmap string (list failure)).
(** [parser.parse_args()] on the command line, and [init_logging]. *)
Variable parse_args : list string -> parse_outcome.
Variable init_logging : string -> result unit.

Definition main (argv : list string) (fuel : nat) : list action * main_outcome :=
  match parse_args argv with
  | ParseExit code => ([], MainSystemExit code)
  | Parsed parsed =>
      match init_logging (arg_logging_level parsed) with
      | Raise e => ([], MainRaised e)
      | Ok _ =>
          let '(trace, o) :=
            sync_events service comparison failure load_calendar init_service
              gfilter_events compare sync
              (arg_ical_calendar parsed) (arg_google_credentials parsed)
              (arg_google_calendar parsed)
              (arg_ical_id parsed) (arg_ical_summary parsed)
              (arg_ical_output parsed)
              (arg_google_id parsed) (arg_google_summary parsed)
              (arg_dry_run parsed) (arg_poll_interval parsed) fuel in
          (trace,
           match o with
           | Returned => MainReturned
           | Raised e => MainRaised e
           | Running => MainRunning
           end)
      end
  end.

(** [sys_main]: what was done, the exception whose traceback was printed, if
    any, and the outcome. *)
Definition sys_main (argv : list string) (fuel : nat)
  : list action * option exn * sys_main_outcome :=
  let '(trace, o) := main argv fuel in
  match o with
  | MainReturned => (trace, None, ReturnCode 0)
  | MainRaised e => (trace, Some e, ReturnCode 1)
  | MainSystemExit code => (trace, None, SystemExitPropagates code)
  | MainRunning => (trace, None, SysRunning)
  end.

End EntryPoints.

(** ** Further specification-side notions *)

(** The pattern that spells out a plain text. *)
Fixpoint literal (s : string) : regex :=
  match s with
  | EmptyString => Eps
  | String a s' => Cat (Chr a) (literal s')
  end.

(** The two events can be read at every field of the list and have equal
    values there. *)
Definition agree_on (fields : list string) (outlook google : event) : Prop :=
  forall f, f ∈ fields ->
    exists ov gv, event_field outlook f = Ok ov /\
                  event_field google f = Ok gv /\ py_ne ov gv = false.

(** The field [f] can be read on both events and differs. *)
Definition differ_at (f : string) (outlook google : event) : Prop :=
  exists ov gv, event_field outlook f = Ok ov /\
                event_field google f = Ok gv /\ py_ne ov gv = true.

(** Reading the field [f] raises [e]: on the first event, or on the second
    after the first was read. *)
Definition raise_at (f : string) (outlook google : event) (e : exn) : Prop :=
  event_field outlook f = Raise e \/
  (is_ok (event_field outlook f) = true /\ event_field google f = Raise e).

(** The keys under which the two shapes keep the compared fields. *)
Definition ICAL_COMPARED_KEYS : list string :=
  ["SUMMARY"; "DESCRIPTION"; "LOCATION"; "DTSTART"; "DTEND"].

Definition GOOGLE_COMPARED_KEYS : list string :=
  ["summary"; "description"; "location"; "start"; "end"].

(** A date, or a date-time without offset. *)
Definition date_or_naive (t : pytime) : Prop :=
  match t with
  | TDate _ => True
  | TDateTime dt => utcoffset dt = None
  end.


(** The key under which an iCal event keeps a field. *)
Definition ical_key (field : string) : string :=
  if String.eqb field EVENT_ID then "UID"
  else if String.eqb field EVENT_SUMMARY then "SUMMARY"
  else if String.eqb field EVENT_DESCRIPTION then "DESCRIPTION"
  else if String.eqb field EVENT_STATUS then "STATUS"
  else if String.eqb field EVENT_LOCATION then "LOCATION"
  else if String.eqb field EVENT_RECURRENCE then "RRULE"
  else if String.eqb field EVENT_START then "DTSTART"
  else "DTEND".

(** What the accessor gives for a field whose entry, kept under [key], is
    absent. *)
Definition absent_value (field key : string) : result pyval :=
  if String.eqb field EVENT_SUMMARY || String.eqb field EVENT_DESCRIPTION
  then Ok (VStr "")
  else if String.eqb field EVENT_RECURRENCE || String.eqb field EVENT_START
          || String.eqb field EVENT_END
  then Ok VNone
  else Raise (KeyError key).

(** The UID of the event is a string that starts with [p]. *)
Definition uid_starts_with (p : string) (ev : component) : bool :=
  match comp_props ev !! "UID" with
  | Some (PText s) => is_prefix_of p s
  | _ => false
  end.

(** Further sample values. *)
Module Cases.

(** A VEVENT nested in a VTODO beside a VEVENT with an alarm. *)
Definition alarm : component := Component "VALARM" ∅ [].

Definition with_alarm : component :=
  Component "VEVENT"
    {[ "UID" := PText "E"; "SUMMARY" := PText "Alarmed" ]} [alarm].

Definition todo : component :=
  Component "VTODO" {[ "UID" := PText "T"; "SUMMARY" := PText "Task" ]}
    [Samples.standup].

Definition mixed_calendar : component :=
  Component "VCALENDAR" ∅ [with_alarm; todo].

(** [standup] at 09:00 with no offset (a floating time). *)
Definition floating : component :=
  Component "VEVENT"
    {[ "UID" := PText "D"; "SUMMARY" := PText "Meeting";
       "LOCATION" := PText "Room 2";
       "DTSTART" := PDDD (TDateTime (DateTime (Date 2023 12 31) 15 0 0 0 None)) ]}
    [].

(** A VEVENT whose DTSTART could not be decoded and was kept as text, and
    a Google event whose [dateTime] is no date-time. *)
Definition text_start : component :=
  Component "VEVENT"
    {[ "UID" := PText "F"; "SUMMARY" := PText "Broken";
       "DTSTART" := PText "tomorrow" ]} [].

Definition g_garbled : gmap string json :=
  {[ "id" := JStr "g8"; "summary" := JStr "Broken";
     "start" := JObj {[ "dateTime" := "tomorrow" ]} ]}.

(** 01:30 on 2024-11-03 in New York, the first of the two times the clocks
    show it that night: the offset is -04:00, and -05:00 with [fold]
    flipped. *)
Definition half_past_one_twice : datetime :=
  DateTime (Date 2024 11 3) 1 30 0 0
           (Some (Zone "America/New_York" (-14400000000) (-18000000000))).

Definition autumn_call : component :=
  Component "VEVENT"
    {[ "UID" := PText "H"; "SUMMARY" := PText "Call";
       "LOCATION" := PText "Phone";
       "DTSTART" := PDDD (TDateTime half_past_one_twice) ]} [].

(** The Google event linked to it, its start written in UTC. *)
Definition g_autumn_call : gmap string json :=
  {[ "id" := JStr "g9"; "iCalUID" := JStr "H"; "summary" := JStr "Call";
     "location" := JStr "Phone";
     "start" := JObj {[ "dateTime" := "2024-11-03T05:30:00Z" ]} ]}.

(** The same start as a [timezone] value. *)
Definition half_past_five_utc : datetime :=
  DateTime (Date 2024 11 3) 5 30 0 0 (Some (Timezone 0)).

(** The Google event linked to [meeting], its start written in UTC: 20:00
    on 2023-12-31, which is 09:00 on the next day at UTC+13:00. *)
Definition eight_pm_utc : datetime :=
  DateTime (Date 2023 12 31) 20 0 0 0 (Some (Timezone 0)).

Definition g_meeting_utc : gmap string json :=
  {[ "id" := JStr "g4"; "iCalUID" := JStr "D"; "summary" := JStr "Meeting";
     "location" := JStr "Room 2";
     "start" := JObj {[ "dateTime" := "2023-12-31T20:00:00Z" ]} ]}.

(** A Google event whose start object has neither key, and one with both. *)
Definition g_no_start_keys : gmap string json :=
  {[ "id" := JStr "g5"; "start" := JObj {[ "timeZone" := "UTC" ]} ]}.

Definition g_both_start_keys : gmap string json :=
  {[ "id" := JStr "g6";
     "start" := JObj {[ "dateTime" := "2024-01-01T09:00:00+13:00";
                        "date" := "not a date" ]} ]}.

(** The Google event linked to [standup], renamed, and without a location. *)
Definition g_renamed : gmap string json :=
  {[ "id" := JStr "g7"; "iCalUID" := JStr "A"; "summary" := JStr "Stand-up" ]}.

(** A world for the loaders: the log, and the files by path. *)
Record world := World { log : list string; files : gmap string string }.

Definition log_info (msg : string) (w : world) : world :=
  World (log w ++ ["INFO " +:+ msg]) (files w).

Definition log_error (msg : string) (w : world) : world :=
  World (log w ++ ["ERROR " +:+ msg]) (files w).

(** A server that knows two addresses: a calendar and a page that is none. *)
Definition requests_get (url : string) (w : world)
  : world * OutlookIO.io_result OutlookIO.response :=
  (w, if String.eqb url "https://example.org/cal.ics"
      then OutlookIO.Done (OutlookIO.Response 200 "BEGIN:VCALENDAR")
      else if String.eqb url "https://example.org/index.html"
      then OutlookIO.Done (OutlookIO.Response 200 "<html>")
      else OutlookIO.Done (OutlookIO.Response 404 "")).

(** A parser that knows one text. *)
Definition from_ical (s : string) : OutlookIO.io_result component :=
  if String.eqb s "BEGIN:VCALENDAR" then OutlookIO.Done Samples.calendar
  else OutlookIO.Failed (OutlookIO.StdExn ValueError).

(** A file system in which nothing under [/readonly/] can be written. *)
Definition write_file (path : string) (chunks : list string) (w : world)
  : world * OutlookIO.io_result unit :=
  if is_prefix_of "/readonly/" path
  then (w, OutlookIO.Failed (OutlookIO.OSError "Permission denied"))
  else (World (log w) (<[path := foldr String.append "" chunks]> (files w)),
        OutlookIO.Done tt).

Definition path_exists (path : string) (w : world) : bool :=
  bool_decide (is_Some (files w !! path)).

Definition read_file (path : string) (w : world)
  : world * OutlookIO.io_result string :=
  match files w !! path with
  | Some s => (w, OutlookIO.Done s)
  | None => (w, OutlookIO.Failed (OutlookIO.OSError "No such file"))
  end.

Definition shutil_copy (src dst : string) (w : world)
  : world * OutlookIO.io_result unit :=
  match files w !! src with
  | Some s => write_file dst [s] w
  | None => (w, OutlookIO.Failed (OutlookIO.OSError "No such file"))
  end.

Definition empty_world : world := World [] ∅.

Definition disk_world : world :=
  World [] {[ "/data/cal.ics" := "BEGIN:VCALENDAR" ]}.


Definition feed_untitled (cycle : nat) (path : string)
    (output : option string) : result component :=
  Ok Samples.calendar_untitled.

(** A synchronisation that reports one failed creation and one failed
    deletion on every pass. *)
Definition sync_fails (cycle : nat) (s : unit) (cal : string) (cmp : unit)
    (dry_run : bool) : result (gmap string (list string)) :=
  Ok {[ "add" := ["A"]; "update" := []; "delete" := ["B"] ]}.

(** A command line read as a one-shot run, or refused. *)
Definition one_shot_args : cli_args :=
  CliArgs "feed.ics" None None None "credentials.json" "primary" None None
          false None "WARN".

Definition parse_args (argv : list string) : parse_outcome :=
  match argv with
  | [] => ParseExit 2
  | _ => Parsed one_shot_args
  end.

Definition init_logging (level : string) : result unit := Ok tt.

End Cases.

(** * Properties *)

(** ** The field accessor *)

Section EventFieldEquations.

Variable c : component.
Variable d : gmap string json.

Lemma event_field_ical_id :
  event_field (ICal c) EVENT_ID = prop_value <$> ical_get c "UID".
Proof. reflexivity. Qed.

Lemma event_field_ical_summary :
  event_field (ICal c) EVENT_SUMMARY =
  if ical_has c "SUMMARY" then prop_value <$> ical_get c "SUMMARY"
  else Ok (VStr "").
Proof. reflexivity. Qed.

Lemma event_field_ical_description :
  event_field (ICal c) EVENT_DESCRIPTION =
  if ical_has c "DESCRIPTION" then prop_value <$> ical_get c "DESCRIPTION"
  else Ok (VStr "").
Proof. reflexivity. Qed.

Lemma event_field_ical_status :
  event_field (ICal c) EVENT_STATUS = prop_value <$> ical_get c "STATUS".
Proof. reflexivity. Qed.

Lemma event_field_ical_location :
  event_field (ICal c) EVENT_LOCATION = prop_value <$> ical_get c "LOCATION".
Proof. reflexivity. Qed.

Lemma event_field_ical_recurrence :
  event_field (ICal c) EVENT_RECURRENCE =
  if ical_has c "RRULE" then prop_value <$> ical_get c "RRULE" else Ok VNone.
Proof. reflexivity. Qed.

Lemma event_field_ical_start :
  event_field (ICal c) EVENT_START =
  if ical_has c "DTSTART" then p ← ical_get c "DTSTART"; prop_dt p
  else Ok VNone.
Proof. reflexivity. Qed.

Lemma event_field_ical_end :
  event_field (ICal c) EVENT_END =
  if ical_has c "DTEND" then p ← ical_get c "DTEND"; prop_dt p
  else Ok VNone.
Proof. reflexivity. Qed.

Lemma event_field_google_id :
  event_field (Google d) EVENT_ID = json_value <$> dict_get d "id".
Proof. reflexivity. Qed.

Lemma event_field_google_summary :
  event_field (Google d) EVENT_SUMMARY =
  if dict_has d "summary" then json_value <$> dict_get d "summary"
  else Ok (VStr "").
Proof. reflexivity. Qed.

Lemma event_field_google_description :
  event_field (Google d) EVENT_DESCRIPTION =
  if dict_has d "description" then json_value <$> dict_get d "description"
  else Ok (VStr "").
Proof. reflexivity. Qed.

Lemma event_field_google_status :
  event_field (Google d) EVENT_STATUS = json_value <$> dict_get d "status".
Proof. reflexivity. Qed.

Lemma event_field_google_location :
  event_field (Google d) EVENT_LOCATION = json_value <$> dict_get d "location".
Proof. reflexivity. Qed.

Lemma event_field_google_recurrence :
  event_field (Google d) EVENT_RECURRENCE =
  if dict_has d "recurrence" then json_value <$> dict_get d "recurrence"
  else Ok VNone.
Proof. reflexivity. Qed.

Lemma event_field_google_start :
  event_field (Google d) EVENT_START =
  if dict_has d "start" then d' ← dict_get d "start"; google_time d'
  else Ok VNone.
Proof. reflexivity. Qed.

Lemma event_field_google_end :
  event_field (Google d) EVENT_END =
  if dict_has d "end" then d' ← dict_get d "end"; google_time d'
  else Ok VNone.
Proof. reflexivity. Qed.

End EventFieldEquations.

(** The field names are exactly the eight constants. *)
Lemma EVENT_FIELDS_cases (field : string) :
  field ∈ EVENT_FIELDS ->
  field = EVENT_ID \/ field = EVENT_SUMMARY \/ field = EVENT_LOCATION \/
  field = EVENT_DESCRIPTION \/ field = EVENT_STATUS \/
  field = EVENT_RECURRENCE \/ field = EVENT_START \/ field = EVENT_END.
Proof.
  unfold EVENT_FIELDS. rewrite !elem_of_cons, elem_of_nil. tauto.
Qed.

Lemma event_field_unknown (ev : event) (field : string) :
  field ∉ EVENT_FIELDS ->
  event_field ev field = Raise (PyException ("Unknown event field: " +:+ field)).
Proof.
  intros Hout. unfold event_field.
  rewrite bool_decide_eq_false_2 by exact Hout. reflexivity.
Qed.

(** Lookups on a component and on a dictionary. *)
Lemma ical_has_true c key p :
  comp_props c !! key = Some p -> ical_has c key = true.
Proof. intros H. unfold ical_has. apply bool_decide_eq_true_2. eauto. Qed.

Lemma ical_has_false c key :
  comp_props c !! key = None -> ical_has c key = false.
Proof.
  intros H. unfold ical_has. apply bool_decide_eq_false_2.
  rewrite H. intros [? ?]; discriminate.
Qed.

Lemma ical_get_some c key p :
  comp_props c !! key = Some p -> ical_get c key = Ok p.
Proof. intros H. unfold ical_get. now rewrite H. Qed.

Lemma ical_get_none c key :
  comp_props c !! key = None -> ical_get c key = Raise (KeyError key).
Proof. intros H. unfold ical_get. now rewrite H. Qed.

Lemma dict_has_true (d : gmap string json) key j :
  d !! key = Some j -> dict_has d key = true.
Proof. intros H. unfold dict_has. apply bool_decide_eq_true_2. eauto. Qed.

Lemma dict_has_false (d : gmap string json) key :
  d !! key = None -> dict_has d key = false.
Proof.
  intros H. unfold dict_has. apply bool_decide_eq_false_2.
  rewrite H. intros [? ?]; discriminate.
Qed.

Lemma dict_get_some (d : gmap string json) key j :
  d !! key = Some j -> dict_get d key = Ok j.
Proof. intros H. unfold dict_get. now rewrite H. Qed.

Lemma dict_get_none (d : gmap string json) key :
  d !! key = None -> dict_get d key = Raise (KeyError key).
Proof. intros H. unfold dict_get. now rewrite H. Qed.

(** What the accessor does for an absent entry of an iCal event: the empty
    string for the summary and the description, [None] for the recurrence,
    the start and the end, and a lookup error for the identity, the status
    and the location. *)
Lemma event_field_ical_absent (c : component) :
  (comp_props c !! "SUMMARY" = None ->
   event_field (ICal c) EVENT_SUMMARY = Ok (VStr "")) /\
  (comp_props c !! "DESCRIPTION" = None ->
   event_field (ICal c) EVENT_DESCRIPTION = Ok (VStr "")) /\
  (comp_props c !! "RRULE" = None ->
   event_field (ICal c) EVENT_RECURRENCE = Ok VNone) /\
  (comp_props c !! "DTSTART" = None ->
   event_field (ICal c) EVENT_START = Ok VNone) /\
  (comp_props c !! "DTEND" = None ->
   event_field (ICal c) EVENT_END = Ok VNone) /\
  (comp_props c !! "UID" = None ->
   event_field (ICal c) EVENT_ID = Raise (KeyError "UID")) /\
  (comp_props c !! "STATUS" = None ->
   event_field (ICal c) EVENT_STATUS = Raise (KeyError "STATUS")) /\
  (comp_props c !! "LOCATION" = None ->
   event_field (ICal c) EVENT_LOCATION = Raise (KeyError "LOCATION")).
Proof.
  repeat split; intros H.
  - rewrite event_field_ical_summary, (ical_has_false _ _ H); reflexivity.
  - rewrite event_field_ical_description, (ical_has_false _ _ H); reflexivity.
  - rewrite event_field_ical_recurrence, (ical_has_false _ _ H); reflexivity.
  - rewrite event_field_ical_start, (ical_has_false _ _ H); reflexivity.
  - rewrite event_field_ical_end, (ical_has_false _ _ H); reflexivity.
  - rewrite event_field_ical_id, (ical_get_none _ _ H); reflexivity.
  - rewrite event_field_ical_status, (ical_get_none _ _ H); reflexivity.
  - rewrite event_field_ical_location, (ical_get_none _ _ H); reflexivity.
Qed.

(** C2: the accessor is to give [None] for an iCal event without a status or
    without a location; on the event [standup], which has neither, it raises
    a lookup error for both, while the empty string and [None] come back for
    its missing description, recurrence and end. *)
Theorem event_field_missing_status_location_raise :
  event_field (ICal Samples.standup) EVENT_LOCATION = Raise (KeyError "LOCATION") /\
  event_field (ICal Samples.standup) EVENT_STATUS = Raise (KeyError "STATUS") /\
  event_field (ICal Samples.standup) EVENT_DESCRIPTION = Ok (VStr "") /\
  event_field (ICal Samples.standup) EVENT_RECURRENCE = Ok VNone /\
  event_field (ICal Samples.standup) EVENT_END = Ok VNone.
Proof. repeat split; vm_compute; reflexivity. Qed.

(** The two parsers raise nothing but [ValueError]. *)
Lemma fromisoformat_raises s e : fromisoformat s = Raise e -> e = ValueError.
Proof.
  unfold fromisoformat.
  destruct (if (_ <? _)%nat then _ else _) as [t|];
    [destruct (valid_datetime t)|]; congruence.
Qed.

Lemma strptime_ymd_raises s e : strptime_ymd s = Raise e -> e = ValueError.
Proof.
  unfold strptime_ymd.
  destruct (_ ≫= _) as [[d [|? ?]]|]; [destruct (valid_date d)| |]; congruence.
Qed.

(** A guarded read never raises. *)
Lemma ical_guarded_ok c key (dflt : pyval) :
  exists v, (if ical_has c key then prop_value <$> ical_get c key
             else Ok dflt) = Ok v.
Proof.
  unfold ical_has, ical_get. destruct (comp_props c !! key) as [p|] eqn:E.
  - rewrite bool_decide_eq_true_2 by eauto. cbn. eauto.
  - rewrite bool_decide_eq_false_2 by (intros [? ?]; discriminate). eauto.
Qed.

Lemma dict_guarded_ok (d : gmap string json) key (dflt : pyval) :
  exists v, (if dict_has d key then json_value <$> dict_get d key
             else Ok dflt) = Ok v.
Proof.
  unfold dict_has, dict_get. destruct (d !! key) as [p|] eqn:E.
  - rewrite bool_decide_eq_true_2 by eauto. cbn. eauto.
  - rewrite bool_decide_eq_false_2 by (intros [? ?]; discriminate). eauto.
Qed.

(** When the unguarded read of the identity raises. *)
Lemma identity_raises_iff (ev : event) (e : exn) :
  event_field ev EVENT_ID = Raise e <-> identity_error ev e.
Proof.
  destruct ev as [c|d]; cbn [identity_error].
  - rewrite event_field_ical_id. unfold ical_get.
    destruct (comp_props c !! "UID") as [p|]; cbn.
    + split; [discriminate | intros [? _]; discriminate].
    + split; [intros [= <-]; auto | intros [_ ->]; reflexivity].
  - rewrite event_field_google_id. unfold dict_get.
    destruct (d !! "id") as [j|]; cbn.
    + split; [discriminate | intros [? _]; discriminate].
    + split; [intros [= <-]; auto | intros [_ ->]; reflexivity].
Qed.

(** When the guarded read of an iCal start or end raises. *)
Lemma ical_time_raises_iff c key e :
  (if ical_has c key then p ← ical_get c key; prop_dt p else Ok VNone)
    = Raise e <->
  exists p, comp_props c !! key = Some p /\
            (forall t, p <> PDDD t) /\ e = AttributeError "dt".
Proof.
  unfold ical_has, ical_get. destruct (comp_props c !! key) as [p|] eqn:E.
  - rewrite bool_decide_eq_true_2 by eauto. cbn. split.
    + intros H. exists p. split; [reflexivity|].
      destruct p; cbn in H; try discriminate;
        injection H as <-; (split; [intros t; discriminate | reflexivity]).
    + intros (p' & [= <-] & Hp & ->).
      destruct p as [s|t|r]; cbn; try reflexivity.
      now destruct (Hp t).
  - rewrite bool_decide_eq_false_2 by (intros [? ?]; discriminate).
    split; [discriminate | intros (p & Hp & _); discriminate].
Qed.

(** When the body shared by the start and the end of a Google event
    raises. *)
Lemma google_time_raises_iff (j : json) (e : exn) :
  google_time j = Raise e <-> time_entry_error j e.
Proof.
  split.
  - unfold google_time. destruct j as [s|l|o]; cbn.
    + destruct (is_substring_of _ _); cbn; intros [= <-]; constructor.
    + destruct (bool_decide _); cbn; intros [= <-]; constructor.
    + destruct (o !! "dateTime") as [s|] eqn:E.
      * rewrite bool_decide_eq_true_2 by eauto. cbn.
        destruct (fromisoformat s) as [t|e'] eqn:F; cbn; [discriminate|].
        intros [= <-]. rewrite (fromisoformat_raises _ _ F).
        apply (entry_bad_dateTime o s E). intros t. congruence.
      * rewrite bool_decide_eq_false_2 by (intros [? ?]; discriminate).
        destruct (o !! "date") as [s|] eqn:E'; cbn.
        -- destruct (strptime_ymd s) as [d|e'] eqn:F; cbn; [discriminate|].
           intros [= <-]. rewrite (strptime_ymd_raises _ _ F).
           apply (entry_bad_date o s E E'). intros d. congruence.
        -- intros [= <-]. now constructor.
  - unfold google_time. destruct 1 as [s|l|o s E Hs|o s E E' Hs|o E E']; cbn.
    + now destruct (is_substring_of _ _).
    + now destruct (bool_decide _).
    + rewrite bool_decide_eq_true_2 by eauto. rewrite E. cbn.
      destruct (fromisoformat s) as [t|e'] eqn:F; [now destruct (Hs t)|].
      cbn. now rewrite (fromisoformat_raises _ _ F).
    + rewrite bool_decide_eq_false_2
        by (rewrite E; intros [? ?]; discriminate).
      rewrite E'. cbn.
      destruct (strptime_ymd s) as [d|e'] eqn:F; [now destruct (Hs d)|].
      cbn. now rewrite (strptime_ymd_raises _ _ F).
    + rewrite bool_decide_eq_false_2
        by (rewrite E; intros [? ?]; discriminate).
      now rewrite E'.
Qed.

Lemma dict_time_raises_iff (d : gmap string json) key e :
  (if dict_has d key then j ← dict_get d key; google_time j else Ok VNone)
    = Raise e <->
  exists j, d !! key = Some j /\ time_entry_error j e.
Proof.
  unfold dict_has, dict_get. destruct (d !! key) as [j|] eqn:E.
  - rewrite bool_decide_eq_true_2 by eauto. cbn.
    rewrite google_time_raises_iff. split; [eauto|].
    now intros (j' & [= <-] & H).
  - rewrite bool_decide_eq_false_2 by (intros [? ?]; discriminate).
    split; [discriminate | intros (j & Hj & _); discriminate].
Qed.

(** C6, as the code has it: a field name outside [EVENT_FIELDS] makes the
    accessor fail with its unknown-field exception, for an event of either
    shape.  For a name inside the list the accessor also raises on entries
    that are there: the summary, the description and the recurrence never
    raise; the identity raises the lookup error of its key exactly when
    the event has none; the start and the end raise exactly when the entry
    is there and is no day or date-time, with [AttributeError] for an iCal
    property without [dt] and, for a Google entry, [TypeError] when it is no
    object, [ValueError] when its string does not parse and [KeyError] when
    it has neither [dateTime] nor [date].  The accessor is a function of the
    event and the field name alone. *)
Theorem event_field_errors (ev : event) (field : string) (e : exn) :
  (field ∉ EVENT_FIELDS ->
   event_field ev field =
   Raise (PyException ("Unknown event field: " +:+ field))) /\
  (field ∈ [EVENT_SUMMARY; EVENT_DESCRIPTION; EVENT_RECURRENCE] ->
   is_ok (event_field ev field) = true) /\
  (event_field ev EVENT_ID = Raise e <-> identity_error ev e) /\
  (forall ikey gkey,
      time_field field ikey gkey ->
      (event_field ev field = Raise e <-> time_error ev ikey gkey e)).
Proof.
  split; [apply event_field_unknown|].
  split; [|split; [apply identity_raises_iff|]].
  - rewrite !elem_of_cons, elem_of_nil.
    intros [->|[->|[->|[]]]]; destruct ev as [c|d].
    + rewrite event_field_ical_summary.
      now destruct (ical_guarded_ok c "SUMMARY" (VStr "")) as [v ->].
    + rewrite event_field_google_summary.
      now destruct (dict_guarded_ok d "summary" (VStr "")) as [v ->].
    + rewrite event_field_ical_description.
      now destruct (ical_guarded_ok c "DESCRIPTION" (VStr "")) as [v ->].
    + rewrite event_field_google_description.
      now destruct (dict_guarded_ok d "description" (VStr "")) as [v ->].
    + rewrite event_field_ical_recurrence.
      now destruct (ical_guarded_ok c "RRULE" VNone) as [v ->].
    + rewrite event_field_google_recurrence.
      now destruct (dict_guarded_ok d "recurrence" VNone) as [v ->].
  - intros ikey gkey Hf. destruct Hf, ev as [c|d]; cbn [time_error].
    + rewrite event_field_ical_start. apply ical_time_raises_iff.
    + rewrite event_field_google_start. apply dict_time_raises_iff.
    + rewrite event_field_ical_end. apply ical_time_raises_iff.
    + rewrite event_field_google_end. apply dict_time_raises_iff.
Qed.

(** The statement applied to the field name [colour], outside the list, to
    the description of [standup], which has none, and to the start of the
    Google event [g_garbled]. *)
Lemma event_field_errors_witness :
  event_field (Google Cases.g_garbled) "colour" =
    Raise (PyException "Unknown event field: colour") /\
  is_ok (event_field (ICal Samples.standup) EVENT_DESCRIPTION) = true /\
  (event_field (Google Cases.g_garbled) EVENT_START = Raise ValueError <->
   time_error (Google Cases.g_garbled) "DTSTART" "start" ValueError).
Proof.
  split; [|split].
  - apply (proj1 (event_field_errors (Google Cases.g_garbled) "colour"
                    ValueError)).
    apply (bool_decide_eq_false_1 ("colour" ∈ EVENT_FIELDS)).
    vm_compute. reflexivity.
  - apply (proj1 (proj2 (event_field_errors (ICal Samples.standup)
                           EVENT_DESCRIPTION ValueError))).
    apply (bool_decide_eq_true_1
             (EVENT_DESCRIPTION
                ∈ [EVENT_SUMMARY; EVENT_DESCRIPTION; EVENT_RECURRENCE])).
    vm_compute. reflexivity.
  - apply (proj2 (proj2 (proj2 (event_field_errors (Google Cases.g_garbled)
                                  EVENT_START ValueError)))).
    constructor.
Defined.

(** C6, the counterexample: the field names [start] and [id] are in the
    list, the start entries of [text_start] and of [g_garbled] are there,
    and the accessor raises for them, as it does for the identity of an
    event that has none. *)
Lemma event_field_raises_inside_the_list :
  EVENT_START ∈ EVENT_FIELDS /\ EVENT_ID ∈ EVENT_FIELDS /\
  comp_props Cases.text_start !! "DTSTART" = Some (PText "tomorrow") /\
  event_field (ICal Cases.text_start) EVENT_START
    = Raise (AttributeError "dt") /\
  Cases.g_garbled !! "start" = Some (JObj {[ "dateTime" := "tomorrow" ]}) /\
  event_field (Google Cases.g_garbled) EVENT_START = Raise ValueError /\
  event_field (ICal Samples.anonymous) EVENT_ID = Raise (KeyError "UID").
Proof.
  split; [|split].
  - apply (bool_decide_eq_true_1 (EVENT_START ∈ EVENT_FIELDS)).
    vm_compute. reflexivity.
  - apply (bool_decide_eq_true_1 (EVENT_ID ∈ EVENT_FIELDS)).
    vm_compute. reflexivity.
  - repeat split; vm_compute; reflexivity.
Qed.

(** ** The matcher *)

(** Value equality of a string with a JSON value is equality with that
    string. *)
Lemma py_eq_str_json (s : string) (j : json) :
  py_eq (VStr s) (json_value j) = true <-> JStr s = j.
Proof.
  destruct j as [s'|l|o]; cbn.
  - rewrite bool_decide_eq_true. split; congruence.
  - split; discriminate.
  - split; discriminate.
Qed.

Lemma iCalUID_or_empty_google (g : gmap string json) :
  iCalUID_or_empty (Google g) = Ok (json_value (targetForeignId g)).
Proof.
  unfold iCalUID_or_empty, targetForeignId, dict_has, dict_get.
  destruct (g !! "iCalUID") as [j|] eqn:E.
  - rewrite bool_decide_eq_true_2 by eauto. reflexivity.
  - rewrite bool_decide_eq_false_2 by (intros [? ?]; discriminate).
    reflexivity.
Qed.

Lemma is_same_event_google (source : event) (g : gmap string json) :
  is_same_event source (Google g) =
  oid ← event_field source EVENT_ID;
  Ok (py_eq oid (json_value (targetForeignId g))).
Proof.
  unfold is_same_event. rewrite iCalUID_or_empty_google.
  destruct (event_field source EVENT_ID); reflexivity.
Qed.

(** C4: for a source event whose identity is present, [is_same_event]
    returns a boolean, and it is true exactly when that identity equals the
    target's [iCalUID] entry, taken as the empty string when absent. *)
Theorem is_same_event_iff_identity_equal
    (source : event) (g : gmap string json) (uid : string) :
  event_field source EVENT_ID = Ok (VStr uid) ->
  exists b, is_same_event source (Google g) = Ok b /\
            (b = true <-> JStr uid = targetForeignId g).
Proof.
  intros Hid. rewrite is_same_event_google, Hid. cbn.
  eexists; split; [reflexivity|]. apply py_eq_str_json.
Qed.

Lemma is_same_event_iff_identity_equal_witness :
  exists b, is_same_event (ICal Samples.review) (Google Samples.g_review) = Ok b /\
            (b = true <-> JStr "B" = targetForeignId Samples.g_review).
Proof.
  apply (is_same_event_iff_identity_equal
           (ICal Samples.review) Samples.g_review "B").
  vm_compute. reflexivity.
Defined.

(** C1, as the code has it: when the target has no linked identity (or an
    empty one), a source event without a UID entry makes [is_same_event]
    raise the lookup error, and a source event whose UID is the empty string
    makes it return true: the empty identity matches the empty identity. *)
Theorem is_same_event_absent_identities (c : component) (g : gmap string json) :
  targetForeignId g = JStr "" ->
  comp_props c !! "UID" = None \/ comp_props c !! "UID" = Some (PText "") ->
  is_same_event (ICal c) (Google g) =
  if ical_has c "UID" then Ok true else Raise (KeyError "UID").
Proof.
  intros Hg Hc. rewrite is_same_event_google, Hg, event_field_ical_id.
  destruct Hc as [Hc|Hc].
  - rewrite (ical_get_none _ _ Hc), (ical_has_false _ _ Hc). reflexivity.
  - rewrite (ical_get_some _ _ _ Hc), (ical_has_true _ _ _ Hc). reflexivity.
Qed.

Lemma is_same_event_absent_identities_witness :
  is_same_event (ICal Samples.blank_uid) (Google Samples.g_unlinked) =
  if ical_has Samples.blank_uid "UID" then Ok true else Raise (KeyError "UID").
Proof.
  apply (is_same_event_absent_identities Samples.blank_uid Samples.g_unlinked).
  - vm_compute. reflexivity.
  - right. vm_compute. reflexivity.
Defined.

(** C1 fails as stated: with no [iCalUID] on the target, neither the source
    event without a UID nor the one whose UID is empty makes [is_same_event]
    return false; the first raises, the second returns true. *)
Lemma is_same_event_empty_matches_empty :
  comp_props Samples.anonymous !! "UID" = None /\
  event_field (ICal Samples.blank_uid) EVENT_ID = Ok (VStr "") /\
  targetForeignId Samples.g_unlinked = JStr "" /\
  is_same_event (ICal Samples.anonymous) (Google Samples.g_unlinked)
    = Raise (KeyError "UID") /\
  is_same_event (ICal Samples.blank_uid) (Google Samples.g_unlinked) = Ok true /\
  is_same_event (ICal Samples.anonymous) (Google Samples.g_unlinked) <> Ok false /\
  is_same_event (ICal Samples.blank_uid) (Google Samples.g_unlinked) <> Ok false.
Proof. repeat split; vm_compute; congruence. Qed.

(** *** Change detection *)

(** A true answer always comes from a field that differs. *)
Lemma has_event_changed_loop_true fields outlook google :
  has_event_changed_loop fields outlook google = Ok true ->
  some_field_differs fields outlook google.
Proof.
  induction fields as [|f rest IH]; cbn; [discriminate|].
  destruct (event_field outlook f) as [ov|] eqn:Eo; cbn; [|discriminate].
  destruct (event_field google f) as [gv|] eqn:Eg; cbn; [|discriminate].
  destruct (py_ne ov gv) eqn:Ene.
  - intros _. exists f, ov, gv. rewrite elem_of_cons. auto.
  - intros H. destruct (IH H) as (f' & ov' & gv' & Hin & H1 & H2 & H3).
    exists f', ov', gv'. rewrite elem_of_cons. auto.
Qed.

(** When every field can be read, the loop answers, and answers true exactly
    when some field differs. *)
Lemma has_event_changed_loop_readable fields outlook google :
  fields_readable fields outlook google ->
  exists b, has_event_changed_loop fields outlook google = Ok b /\
            (b = true <-> some_field_differs fields outlook google).
Proof.
  induction fields as [|f rest IH]; intros Hread; cbn.
  - exists false. split; [reflexivity|]. split; [discriminate|].
    intros (f & ? & ? & Hin & _). now apply elem_of_nil in Hin.
  - destruct (Hread f) as [Ho Hg]; [rewrite elem_of_cons; auto|].
    destruct (event_field outlook f) as [ov|] eqn:Eo; [|discriminate].
    destruct (event_field google f) as [gv|] eqn:Eg; [|discriminate].
    cbn. destruct (py_ne ov gv) eqn:Ene.
    + exists true. split; [reflexivity|]. split; [|reflexivity].
      intros _. exists f, ov, gv. rewrite elem_of_cons. auto.
    + destruct IH as (b & Hb & Hiff).
      { intros f' Hf'. apply Hread. rewrite elem_of_cons. auto. }
      exists b. split; [exact Hb|]. rewrite Hiff. split.
      * intros (f' & ov' & gv' & Hin & H1 & H2 & H3).
        exists f', ov', gv'. rewrite elem_of_cons. auto.
      * intros (f' & ov' & gv' & Hin & H1 & H2 & H3).
        apply elem_of_cons in Hin as [->|Hin].
        -- congruence.
        -- exists f', ov', gv'. auto.
Qed.

(** The answer depends on the events through the compared fields only, so
    neither the status nor the recurrence has a part in it. *)
Lemma has_event_changed_loop_ext fields o1 g1 o2 g2 :
  (forall f, f ∈ fields ->
     event_field o1 f = event_field o2 f /\
     event_field g1 f = event_field g2 f) ->
  has_event_changed_loop fields o1 g1 = has_event_changed_loop fields o2 g2.
Proof.
  induction fields as [|f rest IH]; intros H; cbn; [reflexivity|].
  destruct (H f) as [-> ->]; [rewrite elem_of_cons; auto|].
  rewrite IH; [reflexivity|].
  intros f' Hf'. apply H. rewrite elem_of_cons. auto.
Qed.

Lemma has_event_changed_readable outlook google :
  fields_readable EVENT_COMPARISON_FIELDS outlook google ->
  exists b, has_event_changed outlook google = Ok b /\
    (b = true <-> some_field_differs EVENT_COMPARISON_FIELDS outlook google).
Proof. apply has_event_changed_loop_readable. Qed.

Lemma has_event_changed_ignores_other_fields o1 g1 o2 g2 :
  (forall f, f ∈ EVENT_COMPARISON_FIELDS ->
     event_field o1 f = event_field o2 f /\
     event_field g1 f = event_field g2 f) ->
  has_event_changed o1 g1 = has_event_changed o2 g2.
Proof. apply has_event_changed_loop_ext. Qed.

Lemma status_recurrence_not_compared :
  (EVENT_STATUS ∉ EVENT_COMPARISON_FIELDS) /\
  (EVENT_RECURRENCE ∉ EVENT_COMPARISON_FIELDS).
Proof.
  split.
  - apply (bool_decide_eq_false_1 (EVENT_STATUS ∈ EVENT_COMPARISON_FIELDS)).
    vm_compute. reflexivity.
  - apply (bool_decide_eq_false_1 (EVENT_RECURRENCE ∈ EVENT_COMPARISON_FIELDS)).
    vm_compute. reflexivity.
Qed.

(** C3: the event [standup] and the Google event linked to it differ in the
    start, a compared field, so the answer is to be true; [standup] has no
    location, and the loop, which reads the location before the start, ends
    in the lookup error instead of an answer. *)
Theorem has_event_changed_missing_location_raises :
  is_same_event (ICal Samples.standup) (Google Samples.g_standup_moved) = Ok true /\
  some_field_differs EVENT_COMPARISON_FIELDS
    (ICal Samples.standup) (Google Samples.g_standup_moved) /\
  has_event_changed (ICal Samples.standup) (Google Samples.g_standup_moved)
    = Raise (KeyError "LOCATION").
Proof.
  split; [vm_compute; reflexivity|]. split; [|vm_compute; reflexivity].
  exists EVENT_START, (VTime (Samples.day 2024 1 1)), (VTime (Samples.day 2024 1 2)).
  split.
  - apply (bool_decide_eq_true_1 (EVENT_START ∈ EVENT_COMPARISON_FIELDS)).
    vm_compute. reflexivity.
  - repeat split; vm_compute; reflexivity.
Qed.

(** ** Regular expressions: [re.match] is a match of a prefix *)

Module RegexFacts.

Lemma append_empty_inv (s1 s2 : string) :
  s1 +:+ s2 = "" -> s1 = "" /\ s2 = "".
Proof. destruct s1; cbn; [auto | discriminate]. Qed.

Lemma append_cons_inv (s1 s2 : string) (a : ascii) (s : string) :
  s1 +:+ s2 = String a s ->
  (s1 = "" /\ s2 = String a s) \/
  (exists s1', s1 = String a s1' /\ s = s1' +:+ s2).
Proof.
  destruct s1 as [|b s1']; cbn; intros H.
  - left. auto.
  - right. injection H as -> <-. eauto.
Qed.

Lemma matches_empty_nullable r s :
  matches r s -> s = "" -> nullable r = true.
Proof.
  induction 1; intros Hs; cbn; try discriminate; try reflexivity.
  - apply append_empty_inv in Hs as [-> ->].
    rewrite IHmatches1, IHmatches2; reflexivity.
  - rewrite IHmatches; auto.
  - rewrite IHmatches; auto using orb_true_r.
Qed.

Lemma nullable_matches_empty r :
  nullable r = true -> matches r "".
Proof.
  induction r; cbn; intros H; try discriminate.
  - constructor.
  - apply andb_true_iff in H as [H1 H2].
    change "" with ("" +:+ ""). constructor; auto.
  - apply orb_true_iff in H as [H|H].
    + apply m_alt_l; auto.
    + apply m_alt_r; auto.
  - constructor.
Qed.

Lemma nullable_spec r : nullable r = true <-> matches r "".
Proof.
  split; [apply nullable_matches_empty|].
  intros H. now apply (matches_empty_nullable r "").
Qed.

Lemma matches_cons_deriv r w :
  matches r w -> forall a s, w = String a s -> matches (deriv a r) s.
Proof.
  induction 1 as [ | c | c Hc | lo hi c Hc
                 | r1 r2 s1 s2 H1 IH1 H2 IH2
                 | r1 r2 s0 H1 IH1 | r1 r2 s0 H2 IH2
                 | r | r s1 s2 H1 IH1 H2 IH2 ];
    intros a s Hw; cbn.
  - discriminate.
  - injection Hw as -> <-. rewrite Ascii.eqb_refl. constructor.
  - injection Hw as -> <-.
    destruct (Ascii.eqb a newline) eqn:E; [|constructor].
    apply Ascii.eqb_eq in E. contradiction.
  - injection Hw as -> <-. rewrite Hc. constructor.
  - apply append_cons_inv in Hw as [[-> ->]|(s1' & -> & ->)].
    + rewrite (matches_empty_nullable r1 "" H1 eq_refl).
      apply m_alt_r. now apply IH2.
    + assert (matches (Cat (deriv a r1) r2) (s1' +:+ s2)) as Hcat
        by (constructor; [now apply IH1 | exact H2]).
      destruct (nullable r1); [apply m_alt_l|]; exact Hcat.
  - apply m_alt_l. now apply IH1.
  - apply m_alt_r. now apply IH2.
  - discriminate.
  - apply append_cons_inv in Hw as [[-> ->]|(s1' & -> & ->)].
    + now apply IH2.
    + constructor; [now apply IH1 | exact H2].
Qed.

Lemma deriv_matches_cons a r :
  forall s, matches (deriv a r) s -> matches r (String a s).
Proof.
  induction r as [ | | c | | lo hi | r1 IH1 r2 IH2 | r1 IH1 r2 IH2 | r IH ];
    cbn; intros s H.
  - inversion H.
  - inversion H.
  - destruct (Ascii.eqb a c) eqn:E; [|inversion H].
    apply Ascii.eqb_eq in E as ->. inversion H; subst. constructor.
  - destruct (Ascii.eqb a newline) eqn:E; [inversion H|].
    inversion H; subst. constructor.
    intros ->. rewrite Ascii.eqb_refl in E. discriminate.
  - destruct (in_range lo hi a) eqn:E; [|inversion H].
    inversion H; subst. now constructor.
  - assert (forall w, matches (Cat (deriv a r1) r2) w ->
                      matches (Cat r1 r2) (String a w)) as Hcat.
    { intros w Hw. inversion Hw as [ | | | | ? ? s1 s2 Ha Hb | | | | ]; subst.
      change (String a (s1 +:+ s2)) with (String a s1 +:+ s2).
      constructor; [now apply IH1 | exact Hb]. }
    destruct (nullable r1) eqn:N; [|now apply Hcat].
    inversion H as [ | | | | | ? ? ? Hl | ? ? ? Hr | | ]; subst.
    + now apply Hcat.
    + change (String a s) with ("" +:+ String a s).
      constructor; [now apply nullable_matches_empty | now apply IH2].
  - inversion H as [ | | | | | ? ? ? Hl | ? ? ? Hr | | ]; subst.
    + apply m_alt_l. now apply IH1.
    + apply m_alt_r. now apply IH2.
  - inversion H as [ | | | | ? ? s1 s2 Ha Hb | | | | ]; subst.
    change (String a (s1 +:+ s2)) with (String a s1 +:+ s2).
    constructor; [now apply IH | exact Hb].
Qed.

Lemma deriv_spec a r s : matches (deriv a r) s <-> matches r (String a s).
Proof.
  split; [apply deriv_matches_cons|].
  intros H. now apply (matches_cons_deriv r (String a s)).
Qed.

(** [fullmatch] decides the language of the pattern. *)
Lemma fullmatch_spec r s : fullmatch r s = true <-> matches r s.
Proof.
  revert r. induction s as [|a s IH]; intros r; cbn.
  - apply nullable_spec.
  - rewrite IH. apply deriv_spec.
Qed.

(** [re_match] succeeds exactly when the pattern matches some prefix of the
    string: the match is anchored at the start and free at the end. *)
Lemma re_match_prefix r s :
  re_match r s = true <-> exists p t, s = p +:+ t /\ matches r p.
Proof.
  revert r. induction s as [|a s IH]; intros r; cbn.
  - rewrite orb_false_r, nullable_spec. split.
    + intros H. exists "", "". auto.
    + intros (p & t & Hs & Hm). symmetry in Hs.
      apply append_empty_inv in Hs as [-> ->]. exact Hm.
  - rewrite orb_true_iff, IH, nullable_spec. split.
    + intros [H|(p & t & -> & Hm)].
      * exists "", (String a s). auto.
      * exists (String a p), t. split; [reflexivity|]. now apply deriv_spec.
    + intros (p & t & Hs & Hm). symmetry in Hs.
      apply append_cons_inv in Hs as [[-> ->]|(p' & -> & ->)].
      * left. exact Hm.
      * right. exists p', t. split; [reflexivity|]. now apply deriv_spec.
Qed.

End RegexFacts.

(** ** The event filter *)

Lemma filter_events_loop_cons ev rest rid rsum acc :
  filter_events_loop (ev :: rest) rid rsum acc =
  id_ok ← check_pattern rid "UID" ev;
  if negb id_ok then filter_events_loop rest rid rsum acc
  else
    summary_ok ← check_pattern rsum "SUMMARY" ev;
    if negb summary_ok then filter_events_loop rest rid rsum acc
    else filter_events_loop rest rid rsum (acc ++ [ev]).
Proof. destruct rid, rsum; reflexivity. Qed.

Lemma check_pattern_ok pattern key ev b :
  check_pattern pattern key ev = Ok b -> b = pattern_ok pattern key ev.
Proof.
  unfold check_pattern, pattern_ok, ical_get.
  destruct pattern as [r|]; [|congruence].
  destruct (comp_props ev !! key) as [[s| |]|]; cbn; congruence.
Qed.

Lemma check_pattern_has_text pattern key ev :
  has_text pattern key ev ->
  check_pattern pattern key ev = Ok (pattern_ok pattern key ev).
Proof.
  unfold check_pattern, pattern_ok, has_text, ical_get.
  destruct pattern as [r|]; [|reflexivity].
  intros [s ->]. reflexivity.
Qed.

Lemma check_pattern_absent r key ev :
  comp_props ev !! key = None ->
  check_pattern (Some r) key ev = Raise (KeyError key).
Proof. unfold check_pattern, ical_get. intros ->. reflexivity. Qed.

(** Whatever list the loop returns is the list it started with followed by
    the events that every provided pattern matches, in their order. *)
Lemma filter_events_loop_ok events rid rsum :
  forall acc l,
    filter_events_loop events rid rsum acc = Ok l ->
    l = (acc ++ List.filter (keeps rid rsum) events)%list.
Proof.
  induction events as [|ev rest IH]; intros acc l.
  - cbn. intros [= <-]. now rewrite app_nil_r.
  - rewrite filter_events_loop_cons. cbn [List.filter]. unfold keeps at 1.
    destruct (check_pattern rid "UID" ev) as [b1|] eqn:E1; [|discriminate].
    apply check_pattern_ok in E1 as ->. cbn.
    destruct (pattern_ok rid "UID" ev); cbn; [|apply IH].
    destruct (check_pattern rsum "SUMMARY" ev) as [b2|] eqn:E2; [|discriminate].
    apply check_pattern_ok in E2 as ->. cbn.
    destruct (pattern_ok rsum "SUMMARY" ev); cbn; [|apply IH].
    intros H. apply IH in H. now rewrite <- app_assoc in H.
Qed.

(** The loop returns when it can read what the patterns need. *)
Lemma filter_events_loop_readable events rid rsum :
  Forall (readable rid rsum) events ->
  forall acc,
    filter_events_loop events rid rsum acc =
    Ok (acc ++ List.filter (keeps rid rsum) events)%list.
Proof.
  induction 1 as [|ev rest [Hid Hsum] _ IH]; intros acc.
  - cbn. now rewrite app_nil_r.
  - rewrite filter_events_loop_cons. cbn [List.filter]. unfold keeps at 1.
    rewrite (check_pattern_has_text _ _ _ Hid). cbn.
    destruct (pattern_ok rid "UID" ev); cbn; [|apply IH].
    rewrite (check_pattern_has_text _ _ _ (Hsum eq_refl)). cbn.
    destruct (pattern_ok rsum "SUMMARY" ev); cbn; [|apply IH].
    rewrite IH. now rewrite <- app_assoc.
Qed.

(** The loop stops at the first event whose test raises. *)
Lemma filter_events_loop_raise pre ev post rid rsum e :
  Forall (readable rid rsum) pre ->
  (id_ok ← check_pattern rid "UID" ev;
   if negb id_ok then Ok false else check_pattern rsum "SUMMARY" ev) = Raise e ->
  forall acc, filter_events_loop (pre ++ ev :: post)%list rid rsum acc = Raise e.
Proof.
  intros Hpre Hev. induction Hpre as [|x pre [Hid Hsum] _ IH]; intros acc.
  - cbn [app]. rewrite filter_events_loop_cons.
    destruct (check_pattern rid "UID" ev) as [b1|] eqn:E1; cbn in *;
      [|congruence].
    destruct b1; cbn in *; [|discriminate].
    destruct (check_pattern rsum "SUMMARY" ev); cbn in *; congruence.
  - cbn [app]. rewrite filter_events_loop_cons.
    rewrite (check_pattern_has_text _ _ _ Hid). cbn.
    destruct (pattern_ok rid "UID" x); cbn; [|apply IH].
    rewrite (check_pattern_has_text _ _ _ (Hsum eq_refl)). cbn.
    destruct (pattern_ok rsum "SUMMARY" x); cbn; apply IH.
Qed.

Lemma filter_sublist {A} (f : A -> bool) (l : list A) :
  List.filter f l `sublist_of` l.
Proof.
  induction l as [|x l IH]; cbn.
  - constructor.
  - destruct (f x); [now apply sublist_skip | now apply sublist_cons].
Qed.

Lemma filter_all_true {A} (f : A -> bool) (l : list A) :
  (forall x, f x = true) -> List.filter f l = l.
Proof.
  intros H. induction l as [|x l IH]; cbn; [reflexivity|].
  now rewrite H, IH.
Qed.

(** C7, as the code has it: on a calendar whose VEVENTs carry what the
    provided patterns read (the UID as a string when an identity pattern is
    given; the SUMMARY as a string when a summary pattern is given and the
    event passes the identity pattern), [filter_events] returns exactly the
    VEVENTs that every provided pattern matches, in their order; a pattern
    matches when it matches a prefix of the string; with no pattern at all
    every VEVENT is returned, whatever the calendar. *)
Theorem filter_events_returns_matching
    (calendar : component) (regexp_id regexp_summary : option regex) :
  Forall (readable regexp_id regexp_summary) (walk "VEVENT" calendar) ->
  filter_events calendar regexp_id regexp_summary =
    Ok (List.filter (keeps regexp_id regexp_summary) (walk "VEVENT" calendar)) /\
  (forall r s, re_match r s = true <-> exists p t, s = p +:+ t /\ matches r p) /\
  filter_events calendar None None = Ok (walk "VEVENT" calendar).
Proof.
  intros Hread. split; [|split].
  - unfold filter_events. now rewrite filter_events_loop_readable.
  - apply RegexFacts.re_match_prefix.
  - unfold filter_events. rewrite filter_events_loop_readable.
    + cbn [app]. now rewrite filter_all_true.
    + apply Forall_forall. intros ev _. split; cbn; auto.
Qed.

Lemma filter_events_returns_matching_witness :
  filter_events Samples.calendar None (Some Samples.st_any) =
    Ok (List.filter (keeps None (Some Samples.st_any))
                    (walk "VEVENT" Samples.calendar)) /\
  (forall r s, re_match r s = true <-> exists p t, s = p +:+ t /\ matches r p) /\
  filter_events Samples.calendar None None = Ok (walk "VEVENT" Samples.calendar).
Proof.
  apply (filter_events_returns_matching
           Samples.calendar None (Some Samples.st_any)).
  change (walk "VEVENT" Samples.calendar)
    with [Samples.standup; Samples.review].
  repeat constructor.
  - intros _. exists "Standup". vm_compute. reflexivity.
  - intros _. exists "Review". vm_compute. reflexivity.
Defined.

(** C7 fails as stated: on a calendar with a VEVENT that has no SUMMARY, a
    summary pattern makes [filter_events] raise instead of returning the
    VEVENTs the pattern matches. *)
Lemma filter_events_not_total :
  filter_events Samples.calendar_untitled None (Some Samples.st_any)
    = Raise (KeyError "SUMMARY") /\
  filter_events Samples.calendar_untitled None (Some Samples.st_any)
    <> Ok (List.filter (keeps None (Some Samples.st_any))
                       (walk "VEVENT" Samples.calendar_untitled)).
Proof. split; vm_compute; congruence. Qed.

(** C9: when the first VEVENT that [filter_events] cannot read has no
    SUMMARY (and passes the identity pattern, if one is given), a summary
    pattern makes [filter_events] raise the lookup error for [SUMMARY],
    although [event_field] gives the empty string for the summary of that
    event; and when it has no UID, an identity pattern makes [filter_events]
    raise the lookup error for [UID]. *)
Theorem filter_events_unguarded_lookup
    (calendar : component) (pre post : list component) (ev : component)
    (r : regex) (other : option regex) :
  walk "VEVENT" calendar = (pre ++ ev :: post)%list ->
  (Forall (readable other (Some r)) pre ->
   has_text other "UID" ev -> pattern_ok other "UID" ev = true ->
   comp_props ev !! "SUMMARY" = None ->
   filter_events calendar other (Some r) = Raise (KeyError "SUMMARY") /\
   event_field (ICal ev) EVENT_SUMMARY = Ok (VStr "")) /\
  (Forall (readable (Some r) other) pre ->
   comp_props ev !! "UID" = None ->
   filter_events calendar (Some r) other = Raise (KeyError "UID")).
Proof.
  intros Hwalk. unfold filter_events. rewrite Hwalk. split.
  - intros Hpre Hid Hok Hnone. split.
    + apply filter_events_loop_raise; [exact Hpre|].
      rewrite (check_pattern_has_text _ _ _ Hid), Hok. cbn.
      now apply check_pattern_absent.
    + now apply event_field_ical_absent.
  - intros Hpre Hnone. apply filter_events_loop_raise; [exact Hpre|].
    now rewrite check_pattern_absent.
Qed.

Lemma filter_events_unguarded_lookup_witness :
  (filter_events Samples.calendar_untitled None (Some Samples.st_any)
     = Raise (KeyError "SUMMARY") /\
   event_field (ICal Samples.untitled) EVENT_SUMMARY = Ok (VStr "")) /\
  filter_events Samples.calendar_anonymous (Some Samples.st_any) None
    = Raise (KeyError "UID").
Proof.
  split.
  - apply (proj1 (filter_events_unguarded_lookup
                    Samples.calendar_untitled [Samples.standup] []
                    Samples.untitled Samples.st_any None eq_refl)).
    + repeat constructor. intros _. exists "Standup". vm_compute. reflexivity.
    + exact I.
    + reflexivity.
    + vm_compute. reflexivity.
  - apply (proj2 (filter_events_unguarded_lookup
                    Samples.calendar_anonymous [] []
                    Samples.anonymous Samples.st_any None eq_refl)).
    + constructor.
    + vm_compute. reflexivity.
Defined.

(** C10: the list [filter_events] returns is a subsequence of the calendar's
    VEVENT sequence: the events that every provided pattern matches, each
    once, unchanged and in their original order. *)
Theorem filter_events_sublist
    (calendar : component) (regexp_id regexp_summary : option regex)
    (l : list component) :
  filter_events calendar regexp_id regexp_summary = Ok l ->
  l `sublist_of` walk "VEVENT" calendar /\
  l = List.filter (keeps regexp_id regexp_summary) (walk "VEVENT" calendar).
Proof.
  unfold filter_events. intros H. apply filter_events_loop_ok in H.
  cbn [app] in H. subst l. split; [apply filter_sublist | reflexivity].
Qed.

Lemma filter_events_sublist_witness :
  [Samples.standup] `sublist_of` walk "VEVENT" Samples.calendar /\
  [Samples.standup] =
    List.filter (keeps None (Some Samples.st_any)) (walk "VEVENT" Samples.calendar).
Proof.
  apply (filter_events_sublist Samples.calendar None (Some Samples.st_any)).
  vm_compute. reflexivity.
Defined.

(** ** The poll loop *)

Section SyncCalendarsFacts.

Variables service comparison failure : Type.
Variable load_calendar : nat -> string -> option string -> result component.
Variable init_service : nat -> string -> result service.
Variable gfilter_events :
  nat -> service -> string -> option regex -> option regex ->
  result (list (gmap string json)).
Variable compare :
  list component -> list (gmap string json) -> result comparison.
Variable sync :
  nat -> service -> string -> comparison -> bool ->
  result (gmap string (list failure)).
Variables ical_calendar google_credentials google_calendar : string.
Variables ical_id ical_summary : option regex.
Variable ical_output : option string.
Variables google_id google_summary : option regex.
Variable dry_run : bool.

Local Abbreviation pass :=
  (pipeline service comparison failure load_calendar init_service
     gfilter_events compare sync ical_calendar google_credentials
     google_calendar ical_id ical_summary ical_output google_id
     google_summary dry_run).

Local Abbreviation loop poll_interval :=
  (sync_events_loop service comparison failure load_calendar init_service
     gfilter_events compare sync ical_calendar google_credentials
     google_calendar ical_id ical_summary ical_output google_id
     google_summary dry_run poll_interval).

Local Abbreviation run poll_interval :=
  (sync_events service comparison failure load_calendar init_service
     gfilter_events compare sync ical_calendar google_credentials
     google_calendar ical_id ical_summary ical_output google_id
     google_summary dry_run poll_interval).

(** The lines a pass writes do not depend on the poll interval: nothing,
    or the one warning when the synchronisation reported failures. *)
Lemma pipeline_logs cycle logs :
  pass cycle = Ok logs ->
  logs = [] \/ logs = [LogWarning "%d errors occurred!"].
Proof.
  unfold pipeline. intros H.
  repeat match type of H with
         | (?r ≫= _) = Ok _ => destruct r; cbn in H; [|discriminate]
         end.
  injection H as <-. destruct (0 <? _); auto.
Qed.

(** One pass of the loop. *)
Lemma sync_events_loop_step poll_interval fuel cycle :
  loop poll_interval (S fuel) cycle =
  match pass cycle with
  | Raise e => ([RunPipeline cycle], Raised e)
  | Ok logs =>
      match poll_interval with
      | None => (RunPipeline cycle :: logs, Returned)
      | Some n =>
          match sleep n with
          | Raise e =>
              ((RunPipeline cycle :: logs ++ [waiting_message n])%list,
               Raised e)
          | Ok s =>
              let '(trace, o) := loop poll_interval fuel (S cycle) in
              ((RunPipeline cycle :: logs ++ [waiting_message n; s] ++ trace)%list,
               o)
          end
      end
  end.
Proof. reflexivity. Qed.


Lemma sleep_negative n : n < 0 -> sleep n = Raise ValueError.
Proof. intros H. unfold sleep. apply Z.ltb_lt in H. now rewrite H. Qed.



(** A negative interval is refused by [sleep], which ends the run after
    its first pass. *)
Lemma negative_interval_raises n fuel logs :
  n < 0 ->
  pass 0 = Ok logs ->
  snd (run (Some n) (S fuel)) = Raised ValueError.
Proof.
  intros Hn Hpass. unfold sync_events.
  rewrite sync_events_loop_step, Hpass, (sleep_negative n Hn). reflexivity.
Qed.


End SyncCalendarsFacts.



(** ** Parsing what was rendered *)

Module ParseFacts.

Lemma append_cons (a : ascii) (s r : string) :
  String a s +:+ r = String a (s +:+ r).
Proof. reflexivity. Qed.

Lemma append_nil (r : string) : "" +:+ r = r.
Proof. reflexivity. Qed.

(** A property of the integers from [lo] up, checked one by one. *)
Lemma Z_range_cases (P : Z -> Prop) (lo : Z) (len : nat) :
  Forall (fun k => P (lo + Z.of_nat k)) (seq 0 len) ->
  forall n, lo <= n < lo + Z.of_nat len -> P n.
Proof.
  intros Hall n Hn.
  replace n with (lo + Z.of_nat (Z.to_nat (n - lo))) by lia.
  rewrite Forall_forall in Hall. apply Hall.
  apply elem_of_seq. lia.
Qed.

Lemma digit_val_char (n : Z) :
  0 <= n <= 9 -> digit_val (digit_char n) = Some n.
Proof.
  intros H. assert (0 <= n < 0 + Z.of_nat 10) as Hn by lia. clear H. revert n Hn.
  apply (Z_range_cases (fun n => digit_val (digit_char n) = Some n) 0 10).
  repeat (constructor; [reflexivity|]). constructor.
Qed.

(** A digit is none of the bytes that the parser of date-times looks for. *)
Lemma digit_char_plain (n : Z) :
  0 <= n <= 9 ->
  is_tz_start (digit_char n) = false /\
  Ascii.eqb (digit_char n) "W" = false /\
  is_digit (digit_char n) = true.
Proof.
  intros H. assert (0 <= n < 0 + Z.of_nat 10) as Hn by lia. clear H. revert n Hn.
  apply (Z_range_cases
           (fun n => is_tz_start (digit_char n) = false /\
                     Ascii.eqb (digit_char n) "W" = false /\
                     is_digit (digit_char n) = true) 0 10).
  repeat (constructor; [repeat split; reflexivity|]). constructor.
Qed.

Lemma fmt2_app (n : Z) (r : string) :
  fmt2 n +:+ r = String (digit_char (n / 10)) (String (digit_char (n mod 10)) r).
Proof. reflexivity. Qed.

Lemma fmt3_app (n : Z) (r : string) :
  fmt3 n +:+ r = String (digit_char (n / 100)) (fmt2 (n mod 100) +:+ r).
Proof. reflexivity. Qed.

Lemma fmt4_app (n : Z) (r : string) :
  fmt4 n +:+ r = fmt2 (n / 100) +:+ (fmt2 (n mod 100) +:+ r).
Proof. reflexivity. Qed.

Lemma fmt6_app (n : Z) (r : string) :
  fmt6 n +:+ r = fmt3 (n / 1000) +:+ (fmt3 (n mod 1000) +:+ r).
Proof. reflexivity. Qed.

Lemma take2_fmt2 (n : Z) (r : string) :
  0 <= n < 100 -> take2 (fmt2 n +:+ r) = Some (n, r).
Proof.
  intros H. unfold fmt2, take2. rewrite !append_cons, append_nil.
  rewrite !digit_val_char by (Z.div_mod_to_equations; lia). cbn.
  do 2 f_equal. Z.div_mod_to_equations; lia.
Qed.

Lemma take4_fmt4 (n : Z) (r : string) :
  0 <= n < 10000 -> take4 (fmt4 n +:+ r) = Some (n, r).
Proof.
  intros H. unfold take4. rewrite fmt4_app.
  rewrite take2_fmt2 by (Z.div_mod_to_equations; lia). cbn.
  rewrite take2_fmt2 by (Z.div_mod_to_equations; lia). cbn.
  do 2 f_equal. Z.div_mod_to_equations; lia.
Qed.

(** [parse_digits] reads back what was written with leading zeros. *)
Lemma parse_digits_fmt2 (acc n : Z) (r : string) :
  0 <= n < 100 -> parse_digits 2 acc (fmt2 n +:+ r) = Some (100 * acc + n, r).
Proof.
  intros H. rewrite fmt2_app. cbn [parse_digits].
  rewrite !digit_val_char by (Z.div_mod_to_equations; lia). cbn.
  do 2 f_equal. Z.div_mod_to_equations; lia.
Qed.

Lemma parse_digits_fmt3 (acc n : Z) (r : string) :
  0 <= n < 1000 ->
  parse_digits 3 acc (fmt3 n +:+ r) = Some (1000 * acc + n, r).
Proof.
  intros H. rewrite fmt3_app.
  change (parse_digits 3 acc (String ?c ?s))
    with (d ← digit_val c; parse_digits 2 (10 * acc + d) s).
  rewrite digit_val_char by (Z.div_mod_to_equations; lia). cbn [mbind option_bind].
  rewrite parse_digits_fmt2 by (Z.div_mod_to_equations; lia).
  do 2 f_equal. Z.div_mod_to_equations; lia.
Qed.

Lemma parse_digits_fmt6 (n : Z) (r : string) :
  0 <= n < 1000000 -> parse_digits 6 0 (fmt6 n +:+ r) = Some (n, r).
Proof.
  intros H. rewrite fmt6_app, fmt3_app.
  change (parse_digits 6 0 (String ?c ?s))
    with (d ← digit_val c; parse_digits 5 (10 * 0 + d) s).
  rewrite digit_val_char by (Z.div_mod_to_equations; lia). cbn [mbind option_bind].
  rewrite fmt2_app.
  change (parse_digits 5 ?a (String ?c (String ?c' ?s)))
    with (d ← digit_val c; d' ← digit_val c';
          parse_digits 3 (10 * (10 * a + d) + d') s).
  rewrite !digit_val_char by (Z.div_mod_to_equations; lia). cbn [mbind option_bind].
  rewrite parse_digits_fmt3 by (Z.div_mod_to_equations; lia).
  do 2 f_equal. Z.div_mod_to_equations; lia.
Qed.

Lemma valid_date_bounds (d : date) :
  valid_date d = true ->
  1 <= year d <= 9999 /\ 1 <= month d <= 12 /\ 1 <= day d <= 31.
Proof.
  unfold valid_date. rewrite !andb_true_iff, !Z.leb_le.
  intros [[[[[? ?] ?] ?] ?] Hd].
  assert (days_in_month (year d) (month d) <= 31).
  { unfold days_in_month.
    repeat match goal with
           | |- context [match ?x with _ => _ end] => destruct x
           end; lia. }
  lia.
Qed.

Lemma date_isoformat_app (d : date) (r : string) :
  date_isoformat d +:+ r =
  fmt4 (year d) +:+
    String "-" (fmt2 (month d) +:+ String "-" (fmt2 (day d) +:+ r)).
Proof. reflexivity. Qed.

Lemma take_month_fmt2 (m : Z) (r : string) :
  1 <= m <= 12 -> take_month (fmt2 m +:+ String "-" r) = Some (m, String "-" r).
Proof.
  intros H. revert r.
  assert (1 <= m < 1 + Z.of_nat 12) as Hm by lia. clear H. revert m Hm.
  apply (Z_range_cases
           (fun m => forall r, take_month (fmt2 m +:+ String "-" r)
                               = Some (m, String "-" r)) 1 12).
  repeat (constructor; [intros r; reflexivity|]). constructor.
Qed.

Lemma take_day_fmt2 (d : Z) :
  1 <= d <= 31 -> take_day (fmt2 d) = Some (d, "").
Proof.
  intros H. assert (1 <= d < 1 + Z.of_nat 31) as Hd by lia. clear H. revert d Hd.
  apply (Z_range_cases (fun d => take_day (fmt2 d) = Some (d, "")) 1 31).
  repeat (constructor; [reflexivity|]). constructor.
Qed.

(** [strptime] reads back the day that [date.isoformat] wrote. *)
Lemma strptime_ymd_render (d : date) :
  valid_date d = true -> strptime_ymd (date_isoformat d) = Ok d.
Proof.
  intros Hv. pose proof (valid_date_bounds d Hv) as (Hy & Hm & Hd).
  unfold strptime_ymd.
  change (date_isoformat d) with
    (fmt4 (year d) +:+
       String "-" (fmt2 (month d) +:+ String "-" (fmt2 (day d)))).
  rewrite take4_fmt4 by lia. cbn -[fmt2 take_month take_day].
  rewrite take_month_fmt2 by lia. cbn -[fmt2 take_day].
  rewrite take_day_fmt2 by lia. cbn.
  destruct d as [y m dd]. cbn in *. now rewrite Hv.
Qed.

(** The date [YYYY-MM-DD] at the head of a string: ten bytes, the fifth a
    hyphen and the sixth a digit, so the separator is looked for at 10. *)
Lemma date_isoformat_bytes (d : date) (r : string) :
  valid_date d = true ->
  exists c0 c1 c2 c3 c5 c6 c8 c9,
    date_isoformat d +:+ r =
    String c0 (String c1 (String c2 (String c3 (String "-" (String c5
      (String c6 (String "-" (String c8 (String c9 r))))))))) /\
    Ascii.eqb c5 "W" = false.
Proof.
  intros Hv. apply valid_date_bounds in Hv as (Hy & Hm & Hd).
  do 8 eexists. split; [reflexivity|].
  apply digit_char_plain. Z.div_mod_to_equations; lia.
Qed.

Lemma slice_app (a r : string) :
  slice_to (String.length a) (a +:+ r) = a /\
  slice_from (String.length a) (a +:+ r) = r.
Proof.
  induction a as [|c a [IH1 IH2]].
  - now destruct r.
  - cbn [String.length]. rewrite append_cons. cbn [slice_to slice_from].
    now rewrite IH1, IH2.
Qed.

Lemma find_separator_date (d : date) (r : string) :
  valid_date d = true ->
  (String.length (date_isoformat d +:+ r) <? 7)%nat = false /\
  find_isoformat_datetime_separator (date_isoformat d +:+ r) = Some 10%nat /\
  slice_to 10 (date_isoformat d +:+ r) = date_isoformat d /\
  slice_from 10 (date_isoformat d +:+ r) = r.
Proof.
  intros Hv. split; [|split].
  - destruct (date_isoformat_bytes d r Hv)
      as (c0 & c1 & c2 & c3 & c5 & c6 & c8 & c9 & -> & HW).
    reflexivity.
  - destruct (date_isoformat_bytes d r Hv)
      as (c0 & c1 & c2 & c3 & c5 & c6 & c8 & c9 & -> & HW).
    unfold find_isoformat_datetime_separator.
    cbn [String.length Nat.eqb byte_at String.get].
    change (Ascii.eqb "-" "-") with true. cbv iota. now rewrite HW.
  - change 10%nat with (String.length (date_isoformat d)).
    apply slice_app.
Qed.

(** [parse_isoformat_date] reads back the day that [date.isoformat]
    wrote. *)
Lemma parse_isoformat_date_render (d : date) :
  valid_date d = true -> parse_isoformat_date (date_isoformat d) = Some d.
Proof.
  intros Hv. apply valid_date_bounds in Hv as (Hy & Hm & Hd).
  unfold parse_isoformat_date.
  change (date_isoformat d) with
    (fmt4 (year d) +:+
       String "-" (fmt2 (month d) +:+ String "-" (fmt2 (day d) +:+ ""))).
  rewrite take4_fmt4 by lia. cbn [mbind option_bind].
  cbn [byte_at String.get slice_from].
  change (Ascii.eqb "-" "-") with true. cbv iota.
  rewrite (fmt2_app (month d)). cbn [byte_at String.get].
  rewrite (proj1 (proj2 (digit_char_plain (month d / 10)
                           ltac:(Z.div_mod_to_equations; lia)))).
  rewrite <- (fmt2_app (month d)).
  rewrite take2_fmt2 by lia. cbn [mbind option_bind expect].
  change (Ascii.eqb "-" "-") with true. cbv iota. cbn [mbind option_bind].
  rewrite take2_fmt2 by lia. cbn [mbind option_bind].
  now destruct d.
Qed.

(** What [fromisoformat] does after a date [YYYY-MM-DD]. *)
Lemma fromisoformat_after_date (d : date) (r : string) :
  valid_date d = true ->
  fromisoformat (date_isoformat d +:+ r) =
  match
    match r with
    | EmptyString => Some (DateTime d 0 0 0 0 None)
    | String c _ =>
        '(h, mi, se, us, off) ←
          parse_isoformat_time (slice_from (separator_width c) r);
        Some (DateTime d h mi se us (Timezone <$> off))
    end
  with
  | Some t => if valid_datetime t then Ok t else Raise ValueError
  | None => Raise ValueError
  end.
Proof.
  intros Hv. unfold fromisoformat.
  destruct (find_separator_date d r Hv) as (Hlen & Hsep & Hto & Hfrom).
  rewrite Hlen, Hsep. cbn [mbind option_bind]. rewrite Hto, Hfrom.
  rewrite (parse_isoformat_date_render d Hv). cbn [mbind option_bind].
  now destruct r.
Qed.

(** Splitting the time from the offset passes over digits, colons and the
    point, and stops at the sign or the [Z]. *)
Lemma split_at_tz_cons (c : ascii) (r : string) :
  is_tz_start c = false -> split_at_tz r = (r, "") ->
  split_at_tz (String c r) = (String c r, "").
Proof. intros Hc Hr. cbn [split_at_tz]. now rewrite Hc, Hr. Qed.

Lemma split_at_tz_fmt2 (n : Z) (r : string) :
  0 <= n < 100 -> split_at_tz r = (r, "") ->
  split_at_tz (fmt2 n +:+ r) = (fmt2 n +:+ r, "").
Proof.
  intros Hn Hr. rewrite fmt2_app.
  repeat apply split_at_tz_cons; try assumption;
    apply digit_char_plain; Z.div_mod_to_equations; lia.
Qed.

Lemma split_at_tz_fmt3 (n : Z) (r : string) :
  0 <= n < 1000 -> split_at_tz r = (r, "") ->
  split_at_tz (fmt3 n +:+ r) = (fmt3 n +:+ r, "").
Proof.
  intros Hn Hr. rewrite fmt3_app. apply split_at_tz_cons.
  - apply digit_char_plain; Z.div_mod_to_equations; lia.
  - apply split_at_tz_fmt2; [Z.div_mod_to_equations; lia | exact Hr].
Qed.

Lemma split_at_tz_app (a : string) (c : ascii) (r : string) :
  split_at_tz a = (a, "") -> is_tz_start c = true ->
  split_at_tz (a +:+ String c r) = (a, String c r).
Proof.
  intros Ha Hc. induction a as [|b a IH].
  - rewrite append_nil. cbn [split_at_tz]. now rewrite Hc.
  - rewrite append_cons. cbn [split_at_tz] in Ha |- *.
    destruct (is_tz_start b); [discriminate|].
    destruct (split_at_tz a) as [t z] eqn:E. injection Ha as -> ->.
    now rewrite IH.
Qed.

(** The field ranges of a valid date-time. *)
Lemma valid_datetime_bounds (t : datetime) :
  valid_datetime t = true ->
  valid_date (dt_date t) = true /\
  0 <= hour t <= 23 /\ 0 <= minute t <= 59 /\ 0 <= second t <= 59 /\
  0 <= microsecond t <= 999999.
Proof.
  unfold valid_datetime. rewrite !andb_true_iff, !Z.leb_le.
  intros [[[[[[[[[? ?] ?] ?] ?] ?] ?] ?] ?] _]. auto with lia.
Qed.

Lemma split_at_tz_time (f : fraction) (t : datetime) :
  valid_datetime t = true ->
  split_at_tz (time_isoformat f t) = (time_isoformat f t, "").
Proof.
  intros Hv. apply valid_datetime_bounds in Hv as (_ & Hh & Hmi & Hse & Hus).
  unfold time_isoformat.
  apply split_at_tz_fmt2; [lia|]. apply split_at_tz_cons; [reflexivity|].
  apply split_at_tz_fmt2; [lia|]. apply split_at_tz_cons; [reflexivity|].
  apply split_at_tz_fmt2; [lia|].
  destruct f.
  - reflexivity.
  - apply split_at_tz_cons; [reflexivity|].
    change (fmt3 (microsecond t / 1000))
      with (fmt3 (microsecond t / 1000) +:+ "").
    apply split_at_tz_fmt3; [Z.div_mod_to_equations; lia | reflexivity].
  - apply split_at_tz_cons; [reflexivity|].
    change (fmt6 (microsecond t))
      with (fmt3 (microsecond t / 1000) +:+
              (fmt3 (microsecond t mod 1000) +:+ "")).
    apply split_at_tz_fmt3; [Z.div_mod_to_equations; lia|].
    apply split_at_tz_fmt3; [Z.div_mod_to_equations; lia | reflexivity].
Qed.

(** The loop of [parse_hh_mm_ss_ff] on components separated by colons. *)
Lemma hms_after_colon (first has_separator at_end : bool) (n : Z)
    (r : string) :
  first = true \/ has_separator = true ->
  hms_after first has_separator at_end (String ":" (fmt2 n +:+ r))
  = HmsComponent true (fmt2 n +:+ r).
Proof.
  intros H. rewrite fmt2_app.
  destruct first, has_separator; try reflexivity.
  destruct H; discriminate.
Qed.

Lemma hms_loop_hh_mm_ss (at_end : bool) (h mi se : Z) (r : string) :
  0 <= h < 100 -> 0 <= mi < 100 -> 0 <= se < 100 ->
  hms_loop 3 true true at_end
    (fmt2 h +:+ ":" +:+ fmt2 mi +:+ ":" +:+ fmt2 se +:+ r) =
  match hms_after false true at_end r with
  | HmsComponent _ rest => Some ([h; mi; se], HmsFraction rest)
  | HmsMalformed => None
  | next => Some ([h; mi; se], next)
  end.
Proof.
  intros Hh Hmi Hse. rewrite !append_cons, !append_nil.
  cbn [hms_loop].
  rewrite take2_fmt2 by lia. cbn [mbind option_bind].
  rewrite hms_after_colon by auto.
  rewrite take2_fmt2 by lia. cbn [mbind option_bind].
  rewrite hms_after_colon by auto.
  rewrite take2_fmt2 by lia. cbn [mbind option_bind].
  now destruct (hms_after false true at_end r).
Qed.

Lemma hms_loop_hh_mm (h mi : Z) :
  0 <= h < 100 -> 0 <= mi < 100 ->
  hms_loop 3 true true true (fmt2 h +:+ ":" +:+ fmt2 mi) =
  Some ([h; mi], HmsReturn false).
Proof.
  intros Hh Hmi. rewrite !append_cons, !append_nil.
  change (fmt2 mi) with (fmt2 mi +:+ "").
  cbn [hms_loop].
  rewrite take2_fmt2 by lia. cbn [mbind option_bind].
  rewrite hms_after_colon by auto.
  rewrite take2_fmt2 by lia. reflexivity.
Qed.

(** The fraction is read back in microseconds. *)
Lemma parse_fraction_fmt3 (at_end : bool) (n : Z) :
  0 <= n < 1000 ->
  parse_fraction at_end (fmt3 n) = Some (n * 1000, negb at_end).
Proof.
  intros Hn. unfold parse_fraction.
  change (String.length (fmt3 n)) with 3%nat.
  change (fmt3 n) with (fmt3 n +:+ "").
  cbn [Nat.min Nat.sub Z.of_nat].
  rewrite parse_digits_fmt3 by lia. cbn [mbind option_bind skip_digits].
  do 2 f_equal. all: lia.
Qed.

Lemma parse_fraction_fmt6 (at_end : bool) (n : Z) :
  0 <= n < 1000000 ->
  parse_fraction at_end (fmt6 n) = Some (n, negb at_end).
Proof.
  intros Hn. unfold parse_fraction.
  change (String.length (fmt6 n)) with 6%nat.
  change (fmt6 n) with (fmt6 n +:+ "").
  cbn [Nat.min Nat.sub Z.of_nat].
  rewrite parse_digits_fmt6 by lia. cbn [mbind option_bind skip_digits].
  do 2 f_equal. all: lia.
Qed.

(** The time is read back, and the parser reports that the string goes
    on. *)
Lemma parse_hh_mm_ss_ff_render (f : fraction) (t : datetime) :
  valid_datetime t = true ->
  match f with
  | NoFraction => microsecond t = 0
  | Milliseconds => microsecond t mod 1000 = 0
  | Microseconds => True
  end ->
  parse_hh_mm_ss_ff false (time_isoformat f t) =
  Some (hour t, minute t, second t, microsecond t, true).
Proof.
  intros Hv Hf. apply valid_datetime_bounds in Hv as (_ & Hh & Hmi & Hse & Hus).
  unfold parse_hh_mm_ss_ff, time_isoformat.
  rewrite hms_loop_hh_mm_ss by lia. destruct f.
  - cbn. now rewrite Hf.
  - rewrite append_cons, append_nil.
    assert (hms_after false true false
              (String "." (fmt3 (microsecond t / 1000)))
            = HmsFraction (fmt3 (microsecond t / 1000))) as -> by reflexivity.
    cbn [mbind option_bind nth].
    rewrite parse_fraction_fmt3 by (Z.div_mod_to_equations; lia).
    cbn [mbind option_bind negb]. do 4 f_equal.
    Z.div_mod_to_equations; lia.
  - rewrite append_cons, append_nil.
    assert (hms_after false true false (String "." (fmt6 (microsecond t)))
            = HmsFraction (fmt6 (microsecond t))) as -> by reflexivity.
    cbn [mbind option_bind nth].
    rewrite parse_fraction_fmt6 by lia. reflexivity.
Qed.

(** The offset [+HH:MM] or [-HH:MM] starts with its sign. *)
Lemma offset_isoformat_sign (off : Z) :
  offset_isoformat off =
  String (if off <? 0 then "-"%char else "+"%char)
         (fmt2 (Z.abs off / 60000000 / 60) +:+ ":" +:+
          fmt2 ((Z.abs off / 60000000) mod 60)).
Proof. unfold offset_isoformat. now destruct (off <? 0). Qed.

(** The time and the offset are read back. *)
Lemma parse_isoformat_time_render (f : fraction) (zulu : bool)
    (t : datetime) (off : Z) :
  valid_datetime t = true -> valid_offset off = true ->
  off mod 60000000 = 0 -> (zulu = true -> off = 0) ->
  match f with
  | NoFraction => microsecond t = 0
  | Milliseconds => microsecond t mod 1000 = 0
  | Microseconds => True
  end ->
  parse_isoformat_time
    (time_isoformat f t +:+ (if zulu then "Z" else offset_isoformat off))
  = Some (hour t, minute t, second t, microsecond t, Some off).
Proof.
  intros Hv Hoff Hm Hz Hf. unfold parse_isoformat_time.
  unfold valid_offset, us_per_day in Hoff.
  apply andb_true_iff in Hoff as [Hlo Hhi].
  apply Z.ltb_lt in Hlo, Hhi.
  destruct zulu.
  - rewrite (split_at_tz_app _ "Z" "" (split_at_tz_time f t Hv) eq_refl).
    rewrite (parse_hh_mm_ss_ff_render f t Hv Hf).
    cbn. now rewrite Hz.
  - rewrite offset_isoformat_sign.
    rewrite (split_at_tz_app _ _ _ (split_at_tz_time f t Hv))
      by now destruct (off <? 0).
    rewrite (parse_hh_mm_ss_ff_render f t Hv Hf).
    cbn [mbind option_bind].
    assert (Ascii.eqb (if off <? 0 then "-"%char else "+"%char) "Z" = false) as ->
      by now destruct (off <? 0).
    unfold parse_hh_mm_ss_ff.
    rewrite hms_loop_hh_mm by (Z.div_mod_to_equations; lia).
    cbn [mbind option_bind nth].
    do 2 f_equal.
    destruct (off <? 0) eqn:E.
    + apply Z.ltb_lt in E. cbn [Ascii.eqb Bool.eqb].
      destruct (_ =? 0) eqn:E0.
      * apply Z.eqb_eq in E0. Z.div_mod_to_equations; lia.
      * f_equal. Z.div_mod_to_equations; lia.
    + apply Z.ltb_ge in E. cbn [Ascii.eqb Bool.eqb].
      destruct (_ =? 0) eqn:E0.
      * apply Z.eqb_eq in E0. f_equal. Z.div_mod_to_equations; lia.
      * f_equal. Z.div_mod_to_equations; lia.
Qed.

(** [fromisoformat] reads back the date-time that was written in one of
    the forms of RFC 3339. *)
Lemma fromisoformat_rfc3339 (sep : ascii) (f : fraction) (zulu : bool)
    (t : datetime) (off : Z) :
  valid_datetime t = true -> tzinfo t = Some (Timezone off) ->
  rfc3339_exact sep f zulu t off ->
  fromisoformat (rfc3339 sep f zulu t off) = Ok t.
Proof.
  intros Hv Htz (Hsep & Hm & Hz & Hf). unfold rfc3339.
  pose proof (valid_datetime_bounds t Hv) as (Hd & _).
  rewrite (fromisoformat_after_date _ _ Hd).
  assert (separator_width sep = 1%nat) as ->.
  { unfold separator_width. apply Z.ltb_lt in Hsep. now rewrite Hsep. }
  cbn [slice_from].
  rewrite (parse_isoformat_time_render f zulu t off Hv); try assumption.
  - cbn [mbind option_bind fmap option_fmap option_map].
    destruct t as [d h mi se us z]. cbn in Htz. subst z.
    cbn [dt_date hour minute second microsecond]. now rewrite Hv.
  - unfold valid_datetime in Hv. rewrite Htz in Hv.
    apply andb_true_iff in Hv as [_ Hv].
    now apply andb_true_iff in Hv as [Hv _].
Qed.

(** The form that [datetime.isoformat()] writes for an aware value is one
    of them. *)
Lemma fromisoformat_render (t : datetime) (off : Z) :
  valid_datetime t = true -> tzinfo t = Some (Timezone off) ->
  off mod 60000000 = 0 ->
  fromisoformat (datetime_isoformat t off) = Ok t.
Proof.
  intros Hv Htz Hm.
  replace (datetime_isoformat t off)
    with (rfc3339 "T" (if microsecond t =? 0 then NoFraction
                       else Microseconds) false t off).
  - apply fromisoformat_rfc3339; try assumption.
    split; [reflexivity|]. split; [assumption|]. split; [discriminate|].
    destruct (microsecond t =? 0) eqn:E; [now apply Z.eqb_eq | exact I].
  - unfold rfc3339, datetime_isoformat, time_isoformat.
    now destruct (microsecond t =? 0).
Qed.

End ParseFacts.

(** ** The calendar *)

Module CalendarFacts.

Import ParseFacts.

(** A year adds its length to the days before it. *)
Lemma days_before_year_succ (y : Z) :
  days_before_year (y + 1) = days_before_year y + year_length y.
Proof.
  unfold days_before_year, year_length, is_leap.
  replace (y + 1 - 1) with y by lia.
  destruct (Z.eqb_spec (y mod 4) 0), (Z.eqb_spec (y mod 100) 0),
    (Z.eqb_spec (y mod 400) 0); cbn; Z.div_mod_to_equations; lia.
Qed.

Lemma days_before_year_le (y1 y2 : Z) :
  y1 <= y2 -> days_before_year y1 <= days_before_year y2.
Proof.
  unfold days_before_year. intros H. Z.div_mod_to_equations. lia.
Qed.

Lemma year_length_pos (y : Z) : 365 <= year_length y <= 366.
Proof. unfold year_length. destruct (is_leap y); lia. Qed.

(** The days before a month and the days of the month are settled month
    by month. *)
Lemma month_cases (P : Z -> Prop) :
  Forall P [1; 2; 3; 4; 5; 6; 7; 8; 9; 10; 11; 12] ->
  forall m, 1 <= m <= 12 -> P m.
Proof.
  intros H m Hm. apply (Z_range_cases P 1 12); [|lia].
  change [1; 2; 3; 4; 5; 6; 7; 8; 9; 10; 11; 12]
    with ((fun k => 1 + Z.of_nat k) <$> seq 0 12) in H.
  rewrite Forall_fmap in H. exact H.
Qed.

Ltac by_month m Hm :=
  revert m Hm;
  match goal with
  | |- forall k, _ -> @?P k => apply (month_cases P)
  end;
  repeat (constructor;
          [unfold days_before_month, days_in_month, year_length; cbn;
           intros; try destruct (is_leap _); try lia|]);
  try constructor.

Lemma day_of_year_bounds (y m dd : Z) :
  1 <= m <= 12 -> 1 <= dd <= days_in_month y m ->
  1 <= days_before_month y m + dd <= year_length y.
Proof. intros Hm. revert dd. by_month m Hm. Qed.

Lemma days_before_month_next (y m : Z) :
  1 <= m <= 12 ->
  days_before_month y m + days_in_month y m =
  if m <? 12 then days_before_month y (m + 1) else year_length y.
Proof. intros Hm. by_month m Hm. Qed.

Lemma days_in_month_pos (y m : Z) :
  1 <= m <= 12 -> 28 <= days_in_month y m <= 31.
Proof. intros Hm. by_month m Hm. Qed.

Lemma days_before_month_mono (y m1 m2 : Z) :
  1 <= m1 <= 12 -> 1 <= m2 <= 12 -> m1 < m2 ->
  days_before_month y m1 + days_in_month y m1 <= days_before_month y m2.
Proof.
  intros H1 H2. revert m2 H2. by_month m1 H1.
  all: revert H; by_month m2 H2.
Qed.

(** A valid date is a day of the calendar. *)
Lemma valid_date_on_calendar (d : date) :
  valid_date d = true -> on_calendar d.
Proof.
  unfold valid_date, on_calendar. rewrite !andb_true_iff, !Z.leb_le. lia.
Qed.

(** The ordinal tells the day. *)
Lemma toordinal_bounds (d : date) :
  on_calendar d ->
  days_before_year (year d) < toordinal d <= days_before_year (year d + 1).
Proof.
  intros [Hm Hd]. unfold toordinal. rewrite days_before_year_succ.
  pose proof (day_of_year_bounds _ _ _ Hm Hd). lia.
Qed.

Lemma toordinal_inj (d1 d2 : date) :
  on_calendar d1 -> on_calendar d2 -> toordinal d1 = toordinal d2 -> d1 = d2.
Proof.
  intros H1 H2 Heq.
  pose proof (toordinal_bounds d1 H1) as B1.
  pose proof (toordinal_bounds d2 H2) as B2.
  assert (year d1 = year d2) as Hy.
  { destruct (Z.lt_trichotomy (year d1) (year d2)) as [Hlt|[?|Hlt]];
      [|assumption|].
    - pose proof (days_before_year_le (year d1 + 1) (year d2)). lia.
    - pose proof (days_before_year_le (year d2 + 1) (year d1)). lia. }
  destruct d1 as [y m1 dd1], d2 as [y2 m2 dd2]. cbn in Hy. subst y2.
  destruct H1 as [Hm1 Hd1], H2 as [Hm2 Hd2]. cbn in *.
  unfold toordinal in Heq. cbn in Heq.
  assert (m1 = m2) as Hm.
  { destruct (Z.lt_trichotomy m1 m2) as [Hlt|[?|Hlt]]; [|assumption|].
    - pose proof (days_before_month_mono y m1 m2 Hm1 Hm2 Hlt). lia.
    - pose proof (days_before_month_mono y m2 m1 Hm2 Hm1 Hlt). lia. }
  subst m2. f_equal. lia.
Qed.

(** The day after and the day before are days of the calendar, one ordinal
    up and down. *)
Lemma toordinal_next_day (d : date) :
  on_calendar d ->
  on_calendar (next_day d) /\ toordinal (next_day d) = toordinal d + 1.
Proof.
  intros [Hm Hd]. unfold next_day, toordinal, on_calendar.
  destruct (day d <? days_in_month (year d) (month d)) eqn:E; cbn.
  - apply Z.ltb_lt in E. lia.
  - apply Z.ltb_ge in E.
    pose proof (days_before_month_next (year d) (month d) Hm) as Hn.
    destruct (month d <? 12) eqn:E12; cbn.
    + apply Z.ltb_lt in E12.
      pose proof (days_in_month_pos (year d) (month d + 1)). lia.
    + apply Z.ltb_ge in E12. rewrite days_before_year_succ.
      change (days_before_month (year d + 1) 1) with 0.
      change (days_in_month (year d + 1) 1) with 31. lia.
Qed.

Lemma toordinal_prev_day (d : date) :
  on_calendar d ->
  on_calendar (prev_day d) /\ toordinal (prev_day d) = toordinal d - 1.
Proof.
  intros [Hm Hd]. unfold prev_day, toordinal, on_calendar.
  destruct (1 <? day d) eqn:E; cbn.
  - apply Z.ltb_lt in E. lia.
  - apply Z.ltb_ge in E.
    destruct (1 <? month d) eqn:E1; cbn.
    + apply Z.ltb_lt in E1.
      pose proof (days_before_month_next (year d) (month d - 1)) as Hn.
      pose proof (days_in_month_pos (year d) (month d - 1)).
      assert ((month d - 1 <? 12) = true) as E12 by (apply Z.ltb_lt; lia).
      rewrite E12 in Hn. replace (month d - 1 + 1) with (month d) in Hn by lia.
      lia.
    + apply Z.ltb_ge in E1.
      pose proof (days_before_year_succ (year d - 1)) as Hs.
      replace (year d - 1 + 1) with (year d) in Hs by lia.
      assert (month d = 1) as Hm1 by lia. rewrite Hm1.
      change (days_before_month (year d) 1) with 0.
      change (days_in_month (year d - 1) 12) with 31.
      pose proof (days_before_month_next (year d - 1) 12 ltac:(lia)) as Hn.
      change (12 <? 12) with false in Hn. cbv iota in Hn.
      change (days_in_month (year d - 1) 12) with 31 in Hn. lia.
Qed.

(** The wall clock in microseconds is the ordinal of the day and the time
    of day. *)
Lemma wall_us_split (t : datetime) :
  wall_us t = toordinal (dt_date t) * us_per_day + time_of_day t.
Proof. unfold wall_us, time_of_day, us_per_day. lia. Qed.

Lemma time_of_day_bounds (t : datetime) :
  valid_datetime t = true -> 0 <= time_of_day t < us_per_day.
Proof.
  intros (_ & ? & ? & ? & ?)%valid_datetime_bounds.
  unfold time_of_day, us_per_day. lia.
Qed.

(** The wall clock tells each of its fields. *)
Lemma wall_us_inj (a b : datetime) :
  valid_datetime a = true -> valid_datetime b = true ->
  wall_us a = wall_us b -> wall a = wall b.
Proof.
  intros Ha Hb Heq. rewrite !wall_us_split in Heq.
  pose proof (time_of_day_bounds a Ha) as Ta.
  pose proof (time_of_day_bounds b Hb) as Tb.
  apply valid_datetime_bounds in Ha as (Hda & ? & ? & ? & ?).
  apply valid_datetime_bounds in Hb as (Hdb & ? & ? & ? & ?).
  unfold us_per_day in *.
  assert (toordinal (dt_date a) = toordinal (dt_date b)) as Hord by lia.
  apply toordinal_inj in Hord; try now apply valid_date_on_calendar.
  assert (time_of_day a = time_of_day b) as Htod by lia.
  unfold time_of_day in Htod. unfold wall. rewrite Hord.
  assert (hour a = hour b /\ minute a = minute b /\ second a = second b /\
          microsecond a = microsecond b) as (-> & -> & -> & ->) by lia.
  reflexivity.
Qed.

(** The clock set to UTC shows a day of the calendar and a time of day,
    and together they are the instant. *)
Lemma utc_clock_instant (t : datetime) (off : Z) :
  valid_datetime t = true -> valid_offset off = true ->
  on_calendar (utc_clock t off).1 /\
  0 <= (utc_clock t off).2 < us_per_day /\
  toordinal (utc_clock t off).1 * us_per_day + (utc_clock t off).2
  = instant t off.
Proof.
  intros Hv Hoff. pose proof (time_of_day_bounds t Hv) as Ht.
  apply valid_datetime_bounds in Hv as (Hd%valid_date_on_calendar & _).
  unfold valid_offset in Hoff. apply andb_true_iff in Hoff as [Hlo Hhi].
  apply Z.ltb_lt in Hlo, Hhi.
  unfold instant. rewrite wall_us_split. unfold utc_clock.
  destruct (time_of_day t - off <? 0) eqn:E1.
  - apply Z.ltb_lt in E1. cbn [fst snd].
    destruct (toordinal_prev_day _ Hd) as [Hc ->]. split; [exact Hc|]. lia.
  - apply Z.ltb_ge in E1.
    destruct (us_per_day <=? time_of_day t - off) eqn:E2; cbn [fst snd].
    + apply Z.leb_le in E2.
      destruct (toordinal_next_day _ Hd) as [Hc ->]. split; [exact Hc|]. lia.
    + apply Z.leb_gt in E2. split; [exact Hd|]. lia.
Qed.

(** Two aware values denote one instant exactly when the clock set to UTC
    shows the same for both. *)
Lemma instant_utc_clock (a b : datetime) (oa ob : Z) :
  valid_datetime a = true -> valid_offset oa = true ->
  valid_datetime b = true -> valid_offset ob = true ->
  instant a oa = instant b ob <-> utc_clock a oa = utc_clock b ob.
Proof.
  intros Ha Hoa Hb Hob.
  destruct (utc_clock_instant a oa Ha Hoa) as (Ca & Ra & <-).
  destruct (utc_clock_instant b ob Hb Hob) as (Cb & Rb & <-).
  split.
  - intros Heq. unfold us_per_day in *.
    assert (toordinal (utc_clock a oa).1 = toordinal (utc_clock b ob).1)
      as Hord by lia.
    apply toordinal_inj in Hord; [|assumption..].
    destruct (utc_clock a oa), (utc_clock b ob). cbn in *. f_equal; [easy|lia].
  - now intros ->.
Qed.

(** With one offset on both sides, that is when the wall clocks show the
    same. *)
Lemma wall_utc_clock (a b : datetime) (off : Z) :
  valid_datetime a = true -> valid_datetime b = true ->
  valid_offset off = true ->
  wall a = wall b <-> utc_clock a off = utc_clock b off.
Proof.
  intros Ha Hb Hoff. rewrite <- instant_utc_clock by assumption.
  unfold instant. split.
  - intros Hw. injection Hw as Hd Hh Hmi Hse Hus. unfold wall_us.
    now rewrite Hd, Hh, Hmi, Hse, Hus.
  - intros Heq. apply wall_us_inj; [assumption..|lia].
Qed.

End CalendarFacts.

(** ** Start and end across the two shapes *)

Lemma same_tzinfo_zone (z1 z2 : tz) :
  same_tzinfo (Some z1) (Some z2) = true <-> same_zone z1 z2.
Proof.
  destruct z1, z2; cbn; try (split; [discriminate | contradiction]).
  apply bool_decide_eq_true.
Qed.

Lemma fold_dependent_unambiguous (t : datetime) (z : tz) :
  tzinfo t = Some z -> fold_dependent t = false <-> unambiguous z.
Proof.
  intros Hz. unfold fold_dependent, unambiguous. rewrite Hz.
  rewrite negb_false_iff. apply Z.eqb_eq.
Qed.

Lemma valid_datetime_offset (t : datetime) (z : tz) :
  valid_datetime t = true -> tzinfo t = Some z ->
  valid_offset (tz_offset z) = true.
Proof.
  unfold valid_datetime. intros Hv Hz. rewrite Hz in Hv.
  apply andb_true_iff in Hv as [_ Hv].
  now apply andb_true_iff in Hv as [Hv _].
Qed.

(** [same_moment] between two date-times, case by case. *)
Lemma same_moment_datetimes (a b : datetime) :
  same_moment (TDateTime a) (TDateTime b) <->
  match tzinfo a, tzinfo b with
  | None, None => wall a = wall b
  | Some z1, Some z2 =>
      (same_zone z1 z2 /\ wall a = wall b) \/
      (~ same_zone z1 z2 /\ unambiguous z1 /\ unambiguous z2 /\
       utc_clock a (tz_offset z1) = utc_clock b (tz_offset z2))
  | _, _ => False
  end.
Proof.
  split.
  - inversion 1 as [|? ? E1 E2 Hw|? z1 ? z2 E1 E2 Hz Hw
                    |? z1 ? z2 E1 E2 Hz Hu1 Hu2 Hc]; subst;
      rewrite E1, E2; auto.
  - destruct (tzinfo a) as [z1|] eqn:E1, (tzinfo b) as [z2|] eqn:E2;
      try contradiction.
    + intros [[Hz Hw]|(Hz & Hu1 & Hu2 & Hc)].
      * now apply (same_wall_zone a z1 b z2).
      * now apply (same_instant a z1 b z2).
    + intros Hw. now apply same_wall_naive.
Qed.

(** Value equality of two date-times, told by the calendar and the
    clock. *)
Lemma datetime_eqb_same_moment (a b : datetime) :
  valid_datetime a = true -> valid_datetime b = true ->
  datetime_eqb a b = true <-> same_moment (TDateTime a) (TDateTime b).
Proof.
  intros Ha Hb. rewrite same_moment_datetimes.
  unfold datetime_eqb, utcoffset.
  destruct (tzinfo a) as [z1|] eqn:E1, (tzinfo b) as [z2|] eqn:E2.
  - pose proof (valid_datetime_offset a z1 Ha E1) as Ho1.
    pose proof (valid_datetime_offset b z2 Hb E2) as Ho2.
    pose proof (same_tzinfo_zone z1 z2) as Hsame.
    pose proof (fold_dependent_unambiguous a z1 E1) as Hf1.
    pose proof (fold_dependent_unambiguous b z2 E2) as Hf2.
    destruct (same_tzinfo (Some z1) (Some z2)).
    + rewrite bool_decide_eq_true.
      assert (same_zone z1 z2) as Hz by now apply Hsame. tauto.
    + assert (~ same_zone z1 z2) as Hdiff
        by (intros H; apply Hsame in H; discriminate).
      destruct (fold_dependent a) eqn:F1; cbn [orb].
      { split; [discriminate|]. intros [[? _]|(_ & Hu & _)]; [tauto|].
        apply Hf1 in Hu. discriminate. }
      destruct (fold_dependent b) eqn:F2; cbn [orb].
      { split; [discriminate|]. intros [[? _]|(_ & _ & Hu & _)]; [tauto|].
        apply Hf2 in Hu. discriminate. }
      cbn [fmap option_fmap option_map].
      assert (unambiguous z1) by now apply Hf1.
      assert (unambiguous z2) by now apply Hf2.
      destruct (Z.eqb_spec (tz_offset z1) (tz_offset z2)) as [Heq|Hne].
      * rewrite bool_decide_eq_true, <- Heq.
        rewrite (CalendarFacts.wall_utc_clock a b (tz_offset z1) Ha Hb Ho1).
        tauto.
      * rewrite Z.eqb_eq.
        rewrite (CalendarFacts.instant_utc_clock a b _ _ Ha Ho1 Hb Ho2).
        tauto.
  - destruct z1; cbn; destruct (fold_dependent a), (fold_dependent b); cbn;
      (split; [discriminate | contradiction]).
  - destruct z2; cbn; destruct (fold_dependent a), (fold_dependent b); cbn;
      (split; [discriminate | contradiction]).
  - cbn. apply bool_decide_eq_true.
Qed.

(** Value equality on dates and date-times: see [same_moment]. *)
Lemma time_eqb_same_moment (a b : pytime) :
  valid_time a = true -> valid_time b = true ->
  time_eqb a b = true <-> same_moment a b.
Proof.
  destruct a as [d1|t1], b as [d2|t2]; cbn [valid_time time_eqb]; intros Ha Hb.
  - rewrite bool_decide_eq_true. split.
    + intros ->. constructor.
    + inversion 1. reflexivity.
  - split; [discriminate | inversion 1].
  - split; [discriminate | inversion 1].
  - now apply datetime_eqb_same_moment.
Qed.

Lemma google_time_entry_parsed (g : gmap string json) (key : string)
    (t : pytime) :
  google_time_entry g key t ->
  valid_time t = true /\
  exists j, g !! key = Some j /\ google_time j = Ok (VTime t).
Proof.
  intros (o & Hg & Ht). destruct t as [d|dt].
  - destruct Ht as (Hv & Hnone & Hdate). split; [exact Hv|].
    exists (JObj o). split; [exact Hg|].
    unfold google_time, json_contains, json_getitem.
    rewrite bool_decide_eq_false_2
      by (rewrite Hnone; intros [? ?]; discriminate).
    rewrite Hdate. cbn. rewrite ParseFacts.strptime_ymd_render by exact Hv.
    reflexivity.
  - destruct Ht as (Hv & off & sep & f & zulu & Htz & Hexact & Hdt).
    split; [exact Hv|].
    exists (JObj o). split; [exact Hg|].
    unfold google_time, json_contains, json_getitem.
    rewrite bool_decide_eq_true_2 by (rewrite Hdt; eauto).
    rewrite Hdt. cbn.
    rewrite ParseFacts.fromisoformat_rfc3339 by assumption.
    reflexivity.
Qed.

(** What the two parsers return has passed the range checks, and an offset
    comes back as a [timezone]. *)
Lemma fromisoformat_ok (s : string) (t : datetime) :
  fromisoformat s = Ok t ->
  valid_datetime t = true /\
  (tzinfo t = None \/ exists off, tzinfo t = Some (Timezone off)).
Proof.
  unfold fromisoformat. destruct (_ <? _)%nat; [discriminate|].
  destruct (find_isoformat_datetime_separator s) as [sep|]; cbn;
    [|discriminate].
  destruct (parse_isoformat_date _) as [d|]; cbn; [|discriminate].
  destruct (slice_from sep s) as [|c r].
  - destruct (valid_datetime _) eqn:Hv; intros [= <-]. auto.
  - destruct (parse_isoformat_time _) as [[[[[h mi] se] us] off]|]; cbn;
      [|discriminate].
    destruct (valid_datetime _) eqn:Hv; intros [= <-].
    split; [exact Hv|]. destruct off; cbn; eauto.
Qed.

Lemma strptime_ymd_ok (s : string) (d : date) :
  strptime_ymd s = Ok d -> valid_date d = true.
Proof.
  unfold strptime_ymd.
  destruct (_ ≫= _) as [[d' [|? ?]]|]; try discriminate.
  destruct (valid_date d') eqn:Hv; now intros [= <-].
Qed.

Lemma google_time_python_time (j : json) (v : pyval) :
  google_time j = Ok v -> python_time v.
Proof.
  unfold google_time. destruct (json_contains "dateTime" j).
  - destruct (json_getitem j "dateTime") as [s|]; cbn; [|discriminate].
    destruct (fromisoformat s) as [t|] eqn:F; cbn; [|discriminate].
    intros [= <-]. apply fromisoformat_ok in F as [Hv Htz].
    exists (TDateTime t). auto.
  - destruct (json_getitem j "date") as [s|]; cbn; [|discriminate].
    destruct (strptime_ymd s) as [d|] eqn:F; cbn; [|discriminate].
    intros [= <-]. apply strptime_ymd_ok in F.
    exists (TDate d). auto.
Qed.

(** C5, as the code has it.  Whatever the accessor returns for a start (or
    end) that a Google event has is a [date] or a [datetime], naive or with
    a fixed offset: values of the kinds that the [DTSTART] (or [DTEND]) of
    an iCal event has.  When the entry holds a day [YYYY-MM-DD] under [date]
    or a date-time of RFC 3339 under [dateTime] (with the offset as
    [+HH:MM], [-HH:MM] or [Z]), the accessor returns the day, or the aware
    date-time, that was written.  Value equality between the value of the
    iCal event and that value is the one that [same_moment] tells: the same
    day for two days; for two date-times with zones, the same reading of a
    clock set to UTC, provided that the wall clock of the source is not
    ambiguous in its zone; never for a day and a date-time, nor for a
    date-time without zone and one with a zone. *)
Theorem target_times_normalised
    (field ikey gkey : string) (g : gmap string json) :
  time_field field ikey gkey ->
  (forall j v,
      g !! gkey = Some j -> event_field (Google g) field = Ok v ->
      python_time v) /\
  (forall c st gt,
      comp_props c !! ikey = Some (PDDD st) ->
      valid_time st = true ->
      google_time_entry g gkey gt ->
      event_field (ICal c) field = Ok (VTime st) /\
      event_field (Google g) field = Ok (VTime gt) /\
      (py_eq (VTime st) (VTime gt) = true <-> same_moment st gt)).
Proof.
  intros Hf. split.
  - intros j v Hj. destruct Hf.
    + rewrite event_field_google_start, (dict_has_true _ _ _ Hj),
        (dict_get_some _ _ _ Hj). apply google_time_python_time.
    + rewrite event_field_google_end, (dict_has_true _ _ _ Hj),
        (dict_get_some _ _ _ Hj). apply google_time_python_time.
  - intros c st gt Hc Hst Hg.
    apply google_time_entry_parsed in Hg as (Hgt & j & Hj & Hparse).
    split; [|split].
    + destruct Hf.
      * rewrite event_field_ical_start, (ical_has_true _ _ _ Hc),
          (ical_get_some _ _ _ Hc). reflexivity.
      * rewrite event_field_ical_end, (ical_has_true _ _ _ Hc),
          (ical_get_some _ _ _ Hc). reflexivity.
    + destruct Hf.
      * rewrite event_field_google_start, (dict_has_true _ _ _ Hj),
          (dict_get_some _ _ _ Hj). exact Hparse.
      * rewrite event_field_google_end, (dict_has_true _ _ _ Hj),
          (dict_get_some _ _ _ Hj). exact Hparse.
    + now apply time_eqb_same_moment.
Qed.

(** The statement applied to the start of [meeting], 09:00 at UTC+13:00,
    and of a Google event that gives the same start in UTC. *)
Lemma target_times_normalised_witness :
  python_time (VTime (TDateTime Cases.eight_pm_utc)) /\
  event_field (ICal Samples.meeting) EVENT_START
    = Ok (VTime (TDateTime Samples.nine_plus13)) /\
  event_field (Google Cases.g_meeting_utc) EVENT_START
    = Ok (VTime (TDateTime Cases.eight_pm_utc)) /\
  (py_eq (VTime (TDateTime Samples.nine_plus13))
         (VTime (TDateTime Cases.eight_pm_utc)) = true <->
   same_moment (TDateTime Samples.nine_plus13) (TDateTime Cases.eight_pm_utc)).
Proof.
  pose proof (target_times_normalised EVENT_START "DTSTART" "start"
                Cases.g_meeting_utc time_field_start) as [Hkind Hvalue].
  split.
  - apply (Hkind (JObj {[ "dateTime" := "2023-12-31T20:00:00Z" ]}));
      vm_compute; reflexivity.
  - apply (Hvalue Samples.meeting).
    + vm_compute. reflexivity.
    + vm_compute. reflexivity.
    + exists {[ "dateTime" := "2023-12-31T20:00:00Z" ]}.
      split; [vm_compute; reflexivity|].
      split; [vm_compute; reflexivity|].
      exists 0, "T"%char, NoFraction, true.
      split; [reflexivity|]. split; [|vm_compute; reflexivity].
      split; [reflexivity|]. split; [reflexivity|]. split; reflexivity.
Defined.

(** C5, the counterexample: the start of [autumn_call] is 01:30 in New York
    in the night the clocks are set back, and the Google event linked to it
    starts at 05:30 UTC.  The accessor returns both, a clock set to UTC
    shows the same for both, and yet they are not equal: the pair is
    reported as changed. *)
Lemma same_instant_not_equal :
  event_field (ICal Cases.autumn_call) EVENT_START
    = Ok (VTime (TDateTime Cases.half_past_one_twice)) /\
  event_field (Google Cases.g_autumn_call) EVENT_START
    = Ok (VTime (TDateTime Cases.half_past_five_utc)) /\
  utc_clock Cases.half_past_one_twice (-14400000000)
    = utc_clock Cases.half_past_five_utc 0 /\
  py_eq (VTime (TDateTime Cases.half_past_one_twice))
        (VTime (TDateTime Cases.half_past_five_utc)) = false /\
  has_event_changed (ICal Cases.autumn_call) (Google Cases.g_autumn_call)
    = Ok true.
Proof. repeat split; vm_compute; reflexivity. Qed.

(** ** Concrete runs *)

(** A matched pair whose compared fields agree has not changed; renaming the
    summary on the Google side makes it changed. *)
Example review_unchanged :
  is_same_event (ICal Samples.review) (Google Samples.g_review) = Ok true /\
  has_event_changed (ICal Samples.review) (Google Samples.g_review) = Ok false.
Proof. split; vm_compute; reflexivity. Qed.

Example review_renamed_changed :
  has_event_changed (ICal Samples.review)
    (Google (<["summary" := JStr "Re-view"]> Samples.g_review)) = Ok true.
Proof. vm_compute. reflexivity. Qed.

(** A status or a recurrence on one side only does not count as a change. *)
Example review_status_ignored :
  has_event_changed (ICal Samples.review)
    (Google (<["status" := JStr "cancelled"]>
               (<["recurrence" := JList ("RRULE:FREQ=DAILY" :: nil)]>
                  Samples.g_review))) = Ok false.
Proof. vm_compute. reflexivity. Qed.

(** The two meetings start at the same instant, written with different
    offsets. *)
Example meeting_same_start :
  has_event_changed (ICal Samples.meeting) (Google Samples.g_meeting) = Ok false.
Proof. vm_compute. reflexivity. Qed.

(** [re.match] is anchored at the start only: [St.*] matches [Standup] and
    not [Fast Standup], which [re.search] would find. *)
Example st_any_prefix :
  re_match Samples.st_any "Standup" = true /\
  re_match Samples.st_any "Fast Standup" = false /\
  re_search Samples.st_any "Fast Standup" = true /\
  re_match (Chr "S") "Standup" = true /\
  fullmatch (Chr "S") "Standup" = false.
Proof. repeat split; vm_compute; reflexivity. Qed.

Example filter_by_summary :
  filter_events Samples.calendar None (Some Samples.st_any)
    = Ok [Samples.standup].
Proof. vm_compute. reflexivity. Qed.

(** [fromisoformat] on strings of several forms: the offset as [Z], a
    fraction cut after the microseconds, the basic format without hyphens and
    colons, week dates, an offset of less than a second; a lower-case [z], an
    offset of a day and a separator with nothing after it are refused. *)
Example fromisoformat_forms :
  fromisoformat "2024-01-01T09:00:00Z"
    = Ok (DateTime (Date 2024 1 1) 9 0 0 0 (Some (Timezone 0))) /\
  fromisoformat "2024-01-01 09:00:00.1234567+13:00"
    = Ok (DateTime (Date 2024 1 1) 9 0 0 123456 (Some (Timezone 46800000000))) /\
  fromisoformat "20240101T0900"
    = Ok (DateTime (Date 2024 1 1) 9 0 0 0 None) /\
  fromisoformat "2020-W53-7"
    = Ok (DateTime (Date 2021 1 3) 0 0 0 0 None) /\
  fromisoformat "2024W011T09"
    = Ok (DateTime (Date 2024 1 1) 9 0 0 0 None) /\
  fromisoformat "2024-01-01T12:00:00+00:00:00.000001"
    = Ok (DateTime (Date 2024 1 1) 12 0 0 0 (Some (Timezone 0))) /\
  fromisoformat "2024-01-01T09:00:00z" = Raise ValueError /\
  fromisoformat "2024-01-01T09:00:00+24:00" = Raise ValueError /\
  fromisoformat "2024-01-01T" = Raise ValueError /\
  fromisoformat "2024-02-30" = Raise ValueError.
Proof. repeat split; vm_compute; reflexivity. Qed.

(** Strings outside the two renderings are refused. *)
Example strptime_rejects :
  strptime_ymd "2024-02-30" = Raise ValueError /\
  strptime_ymd "2024-01-01T09:00:00" = Raise ValueError /\
  fromisoformat "2024-01-01 09:00:00+25:00" = Raise ValueError.
Proof. repeat split; vm_compute; reflexivity. Qed.

(** * Further properties of the sources *)

(** ** The accessor on absent and odd entries *)

(** X1: the two shapes share one treatment of an absent entry: the empty
    string for the summary and the description, [None] for the recurrence,
    the start and the end, and the lookup error of the shape's own key for
    the identity, the status and the location. *)
Theorem event_field_absent_policy
    (field : string) (c : component) (g : gmap string json) :
  field ∈ EVENT_FIELDS ->
  comp_props c !! ical_key field = None ->
  g !! field = None ->
  event_field (ICal c) field = absent_value field (ical_key field) /\
  event_field (Google g) field = absent_value field field.
Proof.
  intros Hin Hc Hg. apply EVENT_FIELDS_cases in Hin.
  destruct Hin as [->|[->|[->|[->|[->|[->|[->| ->]]]]]]];
    cbn in Hc;
    unfold EVENT_ID, EVENT_SUMMARY, EVENT_LOCATION, EVENT_DESCRIPTION,
      EVENT_STATUS, EVENT_RECURRENCE, EVENT_START, EVENT_END in Hg;
    (split; [revert Hc | revert Hg]);
    try apply event_field_ical_absent.
  - intros H. rewrite event_field_google_id, (dict_get_none _ _ H). reflexivity.
  - intros H. rewrite event_field_google_summary, (dict_has_false _ _ H).
    reflexivity.
  - intros H. rewrite event_field_google_location, (dict_get_none _ _ H).
    reflexivity.
  - intros H. rewrite event_field_google_description, (dict_has_false _ _ H).
    reflexivity.
  - intros H. rewrite event_field_google_status, (dict_get_none _ _ H).
    reflexivity.
  - intros H. rewrite event_field_google_recurrence, (dict_has_false _ _ H).
    reflexivity.
  - intros H. rewrite event_field_google_start, (dict_has_false _ _ H).
    reflexivity.
  - intros H. rewrite event_field_google_end, (dict_has_false _ _ H).
    reflexivity.
Qed.

Lemma event_field_absent_policy_witness :
  event_field (ICal Samples.untitled) EVENT_LOCATION
    = absent_value EVENT_LOCATION (ical_key EVENT_LOCATION) /\
  event_field (Google Samples.g_unlinked) EVENT_LOCATION
    = absent_value EVENT_LOCATION EVENT_LOCATION.
Proof.
  apply (event_field_absent_policy EVENT_LOCATION
           Samples.untitled Samples.g_unlinked).
  - apply (bool_decide_eq_true_1 (EVENT_LOCATION ∈ EVENT_FIELDS)).
    vm_compute. reflexivity.
  - vm_compute. reflexivity.
  - vm_compute. reflexivity.
Defined.

(** X2: a Google event whose start (or end) object has neither [dateTime]
    nor [date] makes the accessor raise the lookup error for [date]. *)
Theorem event_field_google_time_without_keys
    (field ikey gkey : string) (g : gmap string json) (o : gmap string string) :
  time_field field ikey gkey ->
  g !! gkey = Some (JObj o) ->
  o !! "dateTime" = None -> o !! "date" = None ->
  event_field (Google g) field = Raise (KeyError "date").
Proof.
  intros Hf Hg Hdt Hd.
  assert (google_time (JObj o) = Raise (KeyError "date")) as Hparse.
  { unfold google_time, json_contains, json_getitem.
    rewrite bool_decide_eq_false_2 by (rewrite Hdt; intros [? ?]; discriminate).
    rewrite Hd. reflexivity. }
  destruct Hf.
  - rewrite event_field_google_start, (dict_has_true _ _ _ Hg),
      (dict_get_some _ _ _ Hg). exact Hparse.
  - rewrite event_field_google_end, (dict_has_true _ _ _ Hg),
      (dict_get_some _ _ _ Hg). exact Hparse.
Qed.

Lemma event_field_google_time_without_keys_witness :
  event_field (Google Cases.g_no_start_keys) EVENT_START
    = Raise (KeyError "date").
Proof.
  apply (event_field_google_time_without_keys EVENT_START "DTSTART" "start"
           Cases.g_no_start_keys {[ "timeZone" := "UTC" ]}).
  - constructor.
  - vm_compute. reflexivity.
  - vm_compute. reflexivity.
  - vm_compute. reflexivity.
Defined.

(** X3: in a start (or end) object that has [dateTime], the entry [date] is
    never read: the accessor gives the same result, value or exception,
    with any [date] entry and with none. *)
Theorem event_field_google_dateTime_first
    (field ikey gkey : string) (g : gmap string json) (o : gmap string string)
    (s d : string) :
  time_field field ikey gkey ->
  o !! "dateTime" = Some s ->
  event_field (Google (<[gkey := JObj (<["date" := d]> o)]> g)) field =
  event_field (Google (<[gkey := JObj (delete "date" o)]> g)) field.
Proof.
  intros Hf Hs.
  assert (forall o', o' !! "dateTime" = Some s ->
            google_time (JObj o') =
            (t ← fromisoformat s; Ok (VTime (TDateTime t)))) as Hparse.
  { intros o' Ho'. unfold google_time, json_contains, json_getitem.
    rewrite bool_decide_eq_true_2 by (rewrite Ho'; eauto).
    rewrite Ho'. reflexivity. }
  assert (google_time (JObj (<["date" := d]> o)) =
          google_time (JObj (delete "date" o))) as Heq.
  { rewrite !Hparse; [reflexivity| |].
    - rewrite lookup_delete_ne by discriminate. exact Hs.
    - rewrite lookup_insert_ne by discriminate. exact Hs. }
  destruct Hf.
  - rewrite !event_field_google_start.
    rewrite !(dict_has_true _ "start" _ (lookup_insert_eq _ _ _)).
    rewrite !(dict_get_some _ "start" _ (lookup_insert_eq _ _ _)).
    exact Heq.
  - rewrite !event_field_google_end.
    rewrite !(dict_has_true _ "end" _ (lookup_insert_eq _ _ _)).
    rewrite !(dict_get_some _ "end" _ (lookup_insert_eq _ _ _)).
    exact Heq.
Qed.

Lemma event_field_google_dateTime_first_witness :
  event_field
    (Google (<["start" := JObj (<["date" := "not a date"]>
                                  Samples.g_meeting_start)]> Samples.g_meeting))
    EVENT_START =
  event_field
    (Google (<["start" := JObj (delete "date" Samples.g_meeting_start)]>
               Samples.g_meeting))
    EVENT_START.
Proof.
  apply (event_field_google_dateTime_first EVENT_START "DTSTART" "start"
           Samples.g_meeting Samples.g_meeting_start
           "2023-12-31T15:00:00-05:00" "not a date").
  - constructor.
  - vm_compute. reflexivity.
Defined.

(** ** The matcher, field by field *)

Lemma agree_on_nil outlook google : agree_on [] outlook google.
Proof. intros f Hf. now apply elem_of_nil in Hf. Qed.

Lemma agree_on_cons f fields outlook google :
  agree_on (f :: fields) outlook google <->
  agree_on [f] outlook google /\ agree_on fields outlook google.
Proof.
  unfold agree_on. split.
  - intros H. split; intros f' Hf'; apply H; rewrite elem_of_cons; auto.
    apply list_elem_of_singleton in Hf'. auto.
  - intros [H1 H2] f' Hf'. apply elem_of_cons in Hf' as [->|Hf'].
    + apply H1. now apply list_elem_of_singleton.
    + now apply H2.
Qed.

Lemma agree_on_singleton f outlook google :
  agree_on [f] outlook google <->
  exists ov gv, event_field outlook f = Ok ov /\
                event_field google f = Ok gv /\ py_ne ov gv = false.
Proof.
  unfold agree_on. split.
  - intros H. apply H. now apply list_elem_of_singleton.
  - intros H f' Hf'. apply list_elem_of_singleton in Hf' as ->. exact H.
Qed.

(** The loop answers "unchanged" exactly when it could read every field on
    both events and found them equal. *)
Lemma has_event_changed_loop_false fields outlook google :
  has_event_changed_loop fields outlook google = Ok false <->
  agree_on fields outlook google.
Proof.
  induction fields as [|f rest IH]; cbn.
  - split; [intros _; apply agree_on_nil | reflexivity].
  - rewrite agree_on_cons, agree_on_singleton, <- IH.
    destruct (event_field outlook f) as [ov|eo] eqn:Eo; cbn.
    + destruct (event_field google f) as [gv|eg] eqn:Eg; cbn.
      * destruct (py_ne ov gv) eqn:Ene.
        -- split; [discriminate|].
           intros [(ov' & gv' & [= <-] & [= <-] & Hne) _]. congruence.
        -- split; [|tauto]. intros H. split; [|exact H]. eauto.
      * split; [discriminate|]. intros [(? & ? & _ & ? & _) _]. discriminate.
    + split; [discriminate|]. intros [(? & ? & ? & _) _]. discriminate.
Qed.

(** It answers "changed" exactly when some field differs and every field
    before it could be read and was equal; the fields after it are not
    read. *)
Lemma has_event_changed_loop_true_iff fields outlook google :
  has_event_changed_loop fields outlook google = Ok true <->
  exists pre f post, fields = (pre ++ f :: post)%list /\
    agree_on pre outlook google /\ differ_at f outlook google.
Proof.
  induction fields as [|f rest IH]; cbn.
  - split; [discriminate|]. intros (pre & f & post & H & _).
    destruct pre; discriminate.
  - destruct (event_field outlook f) as [ov|eo] eqn:Eo; cbn.
    + destruct (event_field google f) as [gv|eg] eqn:Eg; cbn.
      * destruct (py_ne ov gv) eqn:Ene.
        -- split; [|reflexivity]. intros _. exists [], f, rest.
           split; [reflexivity|]. split; [apply agree_on_nil|].
           exists ov, gv. auto.
        -- rewrite IH. split.
           ++ intros (pre & f' & post & -> & Hpre & Hd).
              exists (f :: pre), f', post. split; [reflexivity|].
              split; [|exact Hd]. apply agree_on_cons. split; [|exact Hpre].
              apply agree_on_singleton. eauto.
           ++ intros (pre & f' & post & Hsplit & Hpre & Hd).
              destruct pre as [|x pre]; cbn in Hsplit; injection Hsplit as <- ->.
              ** destruct Hd as (? & ? & ? & ? & ?). congruence.
              ** apply agree_on_cons in Hpre as [_ Hpre]. eauto 6.
      * split; [discriminate|].
        intros (pre & f' & post & Hsplit & Hpre & Hd).
        destruct pre as [|x pre]; cbn in Hsplit; injection Hsplit as <- ->.
        -- destruct Hd as (? & ? & _ & ? & _). congruence.
        -- apply agree_on_cons in Hpre as [Hx _].
           apply agree_on_singleton in Hx as (? & ? & _ & ? & _). congruence.
    + split; [discriminate|].
      intros (pre & f' & post & Hsplit & Hpre & Hd).
      destruct pre as [|x pre]; cbn in Hsplit; injection Hsplit as <- ->.
      * destruct Hd as (? & ? & ? & _). congruence.
      * apply agree_on_cons in Hpre as [Hx _].
        apply agree_on_singleton in Hx as (? & ? & ? & _). congruence.
Qed.

(** It raises exactly when a read raises and every field before it could be
    read and was equal; the first event is read before the second. *)
Lemma has_event_changed_loop_raise_iff fields outlook google e :
  has_event_changed_loop fields outlook google = Raise e <->
  exists pre f post, fields = (pre ++ f :: post)%list /\
    agree_on pre outlook google /\ raise_at f outlook google e.
Proof.
  unfold raise_at. induction fields as [|f rest IH]; cbn.
  - split; [discriminate|]. intros (pre & f & post & H & _).
    destruct pre; discriminate.
  - destruct (event_field outlook f) as [ov|eo] eqn:Eo; cbn.
    + destruct (event_field google f) as [gv|eg] eqn:Eg; cbn.
      * destruct (py_ne ov gv) eqn:Ene.
        -- split; [discriminate|].
           intros (pre & f' & post & Hsplit & Hpre & Hr).
           destruct pre as [|x pre]; cbn in Hsplit; injection Hsplit as <- ->.
           ++ rewrite Eo, Eg in Hr. destruct Hr as [?|[_ ?]]; discriminate.
           ++ apply agree_on_cons in Hpre as [Hx _].
              apply agree_on_singleton in Hx as (? & ? & ? & ? & ?). congruence.
        -- rewrite IH. split.
           ++ intros (pre & f' & post & -> & Hpre & Hr).
              exists (f :: pre), f', post. split; [reflexivity|].
              split; [|exact Hr]. apply agree_on_cons. split; [|exact Hpre].
              apply agree_on_singleton. eauto.
           ++ intros (pre & f' & post & Hsplit & Hpre & Hr).
              destruct pre as [|x pre]; cbn in Hsplit; injection Hsplit as <- ->.
              ** rewrite Eo, Eg in Hr. destruct Hr as [?|[_ ?]]; discriminate.
              ** apply agree_on_cons in Hpre as [_ Hpre]. eauto 6.
      * split.
        -- intros [= <-]. exists [], f, rest. split; [reflexivity|].
           split; [apply agree_on_nil|]. right. rewrite Eo, Eg. auto.
        -- intros (pre & f' & post & Hsplit & Hpre & Hr).
           destruct pre as [|x pre]; cbn in Hsplit; injection Hsplit as <- ->.
           ++ rewrite Eo, Eg in Hr. destruct Hr as [?|[_ ?]]; congruence.
           ++ apply agree_on_cons in Hpre as [Hx _].
              apply agree_on_singleton in Hx as (? & ? & _ & ? & _). congruence.
    + split.
      * intros [= <-]. exists [], f, rest. split; [reflexivity|].
        split; [apply agree_on_nil|]. left. exact Eo.
      * intros (pre & f' & post & Hsplit & Hpre & Hr).
        destruct pre as [|x pre]; cbn in Hsplit; injection Hsplit as <- ->.
        -- rewrite Eo in Hr. cbn in Hr. destruct Hr as [?|[? _]]; congruence.
        -- apply agree_on_cons in Hpre as [Hx _].
           apply agree_on_singleton in Hx as (? & ? & ? & _). congruence.
Qed.

(** X4: [has_event_changed] returns false exactly when each of the five
    compared fields can be read on both events and has equal values. *)
Theorem has_event_changed_false_iff (outlook google : event) :
  has_event_changed outlook google = Ok false <->
  agree_on EVENT_COMPARISON_FIELDS outlook google.
Proof. apply has_event_changed_loop_false. Qed.

(** X5: [has_event_changed] returns true exactly when some compared field
    differs and all the fields before it in the list can be read and are
    equal: it stops at the first difference, and whatever comes after (a
    missing location, say) is not read. *)
Theorem has_event_changed_true_iff (outlook google : event) :
  has_event_changed outlook google = Ok true <->
  exists pre f post, EVENT_COMPARISON_FIELDS = (pre ++ f :: post)%list /\
    agree_on pre outlook google /\ differ_at f outlook google.
Proof. apply has_event_changed_loop_true_iff. Qed.

(** X6: [has_event_changed] raises [e] exactly when reading some compared
    field raises [e], on the first event or else on the second, and all the
    fields before it can be read and are equal. *)
Theorem has_event_changed_raise_iff (outlook google : event) (e : exn) :
  has_event_changed outlook google = Raise e <->
  exists pre f post, EVENT_COMPARISON_FIELDS = (pre ++ f :: post)%list /\
    agree_on pre outlook google /\ raise_at f outlook google e.
Proof. apply has_event_changed_loop_raise_iff. Qed.

(** The renamed event has no location; the summary differs first. *)
Example renamed_before_missing_location :
  has_event_changed (ICal Samples.standup) (Google Cases.g_renamed) = Ok true /\
  event_field (Google Cases.g_renamed) EVENT_LOCATION
    = Raise (KeyError "location").
Proof. split; vm_compute; reflexivity. Qed.

(** ** What the matcher reads *)

Lemma event_field_ical_compared_ext (c1 c2 : component) (f : string) :
  (forall k, k ∈ ICAL_COMPARED_KEYS -> comp_props c1 !! k = comp_props c2 !! k) ->
  f ∈ EVENT_COMPARISON_FIELDS ->
  event_field (ICal c1) f = event_field (ICal c2) f.
Proof.
  intros H Hf.
  assert (forall k, k ∈ ICAL_COMPARED_KEYS ->
            ical_has c1 k = ical_has c2 k /\ ical_get c1 k = ical_get c2 k)
    as Hk.
  { intros k Hin. unfold ical_has, ical_get. now rewrite (H k Hin). }
  unfold EVENT_COMPARISON_FIELDS in Hf.
  rewrite !elem_of_cons, elem_of_nil in Hf.
  destruct Hf as [->|[->|[->|[->|[->|[]]]]]].
  - rewrite !event_field_ical_summary.
    destruct (Hk "SUMMARY") as [-> ->]; [|reflexivity].
    unfold ICAL_COMPARED_KEYS. rewrite !elem_of_cons. auto.
  - rewrite !event_field_ical_description.
    destruct (Hk "DESCRIPTION") as [-> ->]; [|reflexivity].
    unfold ICAL_COMPARED_KEYS. rewrite !elem_of_cons. auto.
  - rewrite !event_field_ical_location.
    destruct (Hk "LOCATION") as [_ ->]; [|reflexivity].
    unfold ICAL_COMPARED_KEYS. rewrite !elem_of_cons. auto.
  - rewrite !event_field_ical_start.
    destruct (Hk "DTSTART") as [-> ->]; [|reflexivity].
    unfold ICAL_COMPARED_KEYS. rewrite !elem_of_cons. auto.
  - rewrite !event_field_ical_end.
    destruct (Hk "DTEND") as [-> ->]; [|reflexivity].
    unfold ICAL_COMPARED_KEYS. rewrite !elem_of_cons. auto 6.
Qed.

Lemma event_field_google_compared_ext (g1 g2 : gmap string json) (f : string) :
  (forall k, k ∈ GOOGLE_COMPARED_KEYS -> g1 !! k = g2 !! k) ->
  f ∈ EVENT_COMPARISON_FIELDS ->
  event_field (Google g1) f = event_field (Google g2) f.
Proof.
  intros H Hf.
  assert (forall k, k ∈ GOOGLE_COMPARED_KEYS ->
            dict_has g1 k = dict_has g2 k /\ dict_get g1 k = dict_get g2 k)
    as Hk.
  { intros k Hin. unfold dict_has, dict_get. now rewrite (H k Hin). }
  unfold EVENT_COMPARISON_FIELDS in Hf.
  rewrite !elem_of_cons, elem_of_nil in Hf.
  destruct Hf as [->|[->|[->|[->|[->|[]]]]]].
  - rewrite !event_field_google_summary.
    destruct (Hk "summary") as [-> ->]; [|reflexivity].
    unfold GOOGLE_COMPARED_KEYS. rewrite !elem_of_cons. auto.
  - rewrite !event_field_google_description.
    destruct (Hk "description") as [-> ->]; [|reflexivity].
    unfold GOOGLE_COMPARED_KEYS. rewrite !elem_of_cons. auto.
  - rewrite !event_field_google_location.
    destruct (Hk "location") as [_ ->]; [|reflexivity].
    unfold GOOGLE_COMPARED_KEYS. rewrite !elem_of_cons. auto.
  - rewrite !event_field_google_start.
    destruct (Hk "start") as [-> ->]; [|reflexivity].
    unfold GOOGLE_COMPARED_KEYS. rewrite !elem_of_cons. auto.
  - rewrite !event_field_google_end.
    destruct (Hk "end") as [-> ->]; [|reflexivity].
    unfold GOOGLE_COMPARED_KEYS. rewrite !elem_of_cons. auto 6.
Qed.

(** X7: [has_event_changed] reads five entries of each event and nothing
    else: two pairs of events that agree on SUMMARY, DESCRIPTION, LOCATION,
    DTSTART, DTEND on the iCal side and on summary, description, location,
    start, end on the Google side get the same answer or the same
    exception, whatever their identities, status, recurrence, other
    entries, names and subcomponents are. *)
Theorem has_event_changed_reads_compared_keys
    (c1 c2 : component) (g1 g2 : gmap string json) :
  (forall k, k ∈ ICAL_COMPARED_KEYS -> comp_props c1 !! k = comp_props c2 !! k) ->
  (forall k, k ∈ GOOGLE_COMPARED_KEYS -> g1 !! k = g2 !! k) ->
  has_event_changed (ICal c1) (Google g1) =
  has_event_changed (ICal c2) (Google g2).
Proof.
  intros Hc Hg. apply has_event_changed_loop_ext. intros f Hf. split.
  - now apply event_field_ical_compared_ext.
  - now apply event_field_google_compared_ext.
Qed.

Lemma not_in_keys_insert {V} (keys : list string) (k : string) (v : V)
    (m : gmap string V) :
  k ∉ keys -> forall k', k' ∈ keys -> <[k := v]> m !! k' = m !! k'.
Proof.
  intros Hk k' Hk'. apply lookup_insert_ne. intros ->. contradiction.
Qed.

Lemma has_event_changed_reads_compared_keys_witness :
  has_event_changed
    (ICal (Component "VEVENT"
             (<["STATUS" := PText "CANCELLED"]> (comp_props Samples.review)) []))
    (Google (<["status" := JStr "cancelled"]> Samples.g_review)) =
  has_event_changed (ICal Samples.review) (Google Samples.g_review).
Proof.
  apply (has_event_changed_reads_compared_keys
           (Component "VEVENT"
              (<["STATUS" := PText "CANCELLED"]> (comp_props Samples.review)) [])
           Samples.review
           (<["status" := JStr "cancelled"]> Samples.g_review)
           Samples.g_review).
  - apply not_in_keys_insert.
    apply (bool_decide_eq_false_1 ("STATUS" ∈ ICAL_COMPARED_KEYS)).
    vm_compute. reflexivity.
  - apply not_in_keys_insert.
    apply (bool_decide_eq_false_1 ("status" ∈ GOOGLE_COMPARED_KEYS)).
    vm_compute. reflexivity.
Defined.

(** X8: [is_same_event] reads the UID of the iCal event and the iCalUID of
    the Google event and nothing else: in particular the Google event's own
    [id] plays no part in the match. *)
Theorem is_same_event_reads_identities
    (c1 c2 : component) (g1 g2 : gmap string json) :
  comp_props c1 !! "UID" = comp_props c2 !! "UID" ->
  g1 !! "iCalUID" = g2 !! "iCalUID" ->
  is_same_event (ICal c1) (Google g1) = is_same_event (ICal c2) (Google g2).
Proof.
  intros Hc Hg. rewrite !is_same_event_google, !event_field_ical_id.
  unfold ical_get, targetForeignId. now rewrite Hc, Hg.
Qed.

Lemma is_same_event_reads_identities_witness :
  is_same_event (ICal Samples.review)
                (Google (<["id" := JStr "other"]> Samples.g_review)) =
  is_same_event (ICal Samples.review) (Google Samples.g_review).
Proof.
  apply (is_same_event_reads_identities
           Samples.review Samples.review
           (<["id" := JStr "other"]> Samples.g_review) Samples.g_review).
  - reflexivity.
  - vm_compute. reflexivity.
Defined.

(** A date and a date-time, or a naive and an aware date-time, are never
    equal. *)
Lemma time_eqb_date_or_naive (st : pytime) (gt : datetime) (off : Z) :
  date_or_naive st -> utcoffset gt = Some off ->
  time_eqb st (TDateTime gt) = false.
Proof.
  intros Hst Hoff. destruct st as [d|dt]; cbn in *; [reflexivity|].
  unfold datetime_eqb, fold_dependent. rewrite Hst, Hoff.
  unfold utcoffset in Hst, Hoff.
  destruct (tzinfo dt); [discriminate|].
  destruct (tzinfo gt) as [z|]; [|discriminate].
  cbn. now destruct (negb _).
Qed.

(** X9: an iCal event whose start is a date or a date-time without offset
    (a floating time) and a Google event whose start is a [dateTime] with
    offset are reported as changed whenever summary, description and
    location can be read and agree: the two kinds of value never compare
    equal. *)
Theorem has_event_changed_floating_start
    (c : component) (g : gmap string json) (st : pytime) (gt : datetime) :
  agree_on [EVENT_SUMMARY; EVENT_DESCRIPTION; EVENT_LOCATION]
           (ICal c) (Google g) ->
  comp_props c !! "DTSTART" = Some (PDDD st) ->
  date_or_naive st ->
  google_time_entry g "start" (TDateTime gt) ->
  has_event_changed (ICal c) (Google g) = Ok true.
Proof.
  intros Hpre Hc Hst Hg.
  apply has_event_changed_loop_true_iff.
  exists [EVENT_SUMMARY; EVENT_DESCRIPTION; EVENT_LOCATION], EVENT_START,
         [EVENT_END].
  split; [reflexivity|]. split; [exact Hpre|].
  pose proof Hg as (o & _ & _ & off & _ & _ & _ & Htz & _).
  assert (utcoffset gt = Some off) as Hoff
    by (unfold utcoffset; now rewrite Htz).
  apply google_time_entry_parsed in Hg as (_ & j & Hj & Hparse).
  exists (VTime st), (VTime (TDateTime gt)). split; [|split].
  - rewrite event_field_ical_start, (ical_has_true _ _ _ Hc),
      (ical_get_some _ _ _ Hc). reflexivity.
  - rewrite event_field_google_start, (dict_has_true _ _ _ Hj),
      (dict_get_some _ _ _ Hj). exact Hparse.
  - unfold py_ne. cbn. now rewrite (time_eqb_date_or_naive st gt off).
Qed.

Lemma has_event_changed_floating_start_witness :
  has_event_changed (ICal Cases.floating) (Google Samples.g_meeting) = Ok true.
Proof.
  apply (has_event_changed_floating_start Cases.floating Samples.g_meeting
           (TDateTime (DateTime (Date 2023 12 31) 15 0 0 0 None))
           Samples.three_minus5).
  - apply has_event_changed_loop_false. vm_compute. reflexivity.
  - vm_compute. reflexivity.
  - reflexivity.
  - exists Samples.g_meeting_start. split; [vm_compute; reflexivity|].
    split; [vm_compute; reflexivity|].
    exists (-18000000000), "T"%char, NoFraction, false.
    split; [reflexivity|]. split; [|vm_compute; reflexivity].
    split; [reflexivity|]. split; [reflexivity|]. split; [discriminate|].
    reflexivity.
Defined.

(** ** The event filter: what comes back *)

(** Induction on a component with its subcomponents. *)
Lemma component_rect_nested (P : component -> Prop) :
  (forall n p subs, Forall P subs -> P (Component n p subs)) ->
  forall c, P c.
Proof.
  intros H.
  refine (fix go (c : component) : P c :=
            match c with
            | Component n p subs =>
                H n p subs
                  ((fix all (l : list component) : Forall P l :=
                      match l with
                      | [] => @List.Forall_nil _ P
                      | x :: l' => @List.Forall_cons _ P x l' (go x) (all l')
                      end) subs)
            end).
Qed.

Lemma Forall_flat_map {A B} (Q : B -> Prop) (f : A -> list B) (l : list A) :
  Forall (fun x => Forall Q (f x)) l -> Forall Q (flat_map f l).
Proof.
  induction 1 as [|x l Hx _ IH]; cbn; [constructor|].
  apply Forall_app. auto.
Qed.

(** [walk] returns components of the name it was asked for only. *)
Lemma walk_names (name : string) (c : component) :
  Forall (fun ev => comp_name ev = name) (walk name c).
Proof.
  induction c as [n p subs IH] using component_rect_nested.
  cbn [walk]. apply Forall_app. split.
  - destruct (String.eqb n name) eqn:E; constructor; [|constructor].
    cbn. now apply String.eqb_eq.
  - now apply Forall_flat_map.
Qed.

Lemma Forall_filter_keeps {A} (f : A -> bool) (Q : A -> Prop) (l : list A) :
  Forall Q l -> Forall (fun x => Q x /\ f x = true) (List.filter f l).
Proof.
  induction 1 as [|x l Hx _ IH]; cbn; [constructor|].
  destruct (f x) eqn:E; [constructor; auto | exact IH].
Qed.

(** X10: every event [filter_events] returns is a VEVENT component (never
    the calendar itself, a VTODO, or an alarm), and each one carries, as
    strings, a UID and a SUMMARY that the provided patterns match from the
    start. *)
Theorem filter_events_returns_matched_vevents
    (calendar : component) (regexp_id regexp_summary : option regex)
    (l : list component) :
  filter_events calendar regexp_id regexp_summary = Ok l ->
  Forall (fun ev => comp_name ev = "VEVENT" /\
                    pattern_ok regexp_id "UID" ev = true /\
                    pattern_ok regexp_summary "SUMMARY" ev = true) l.
Proof.
  unfold filter_events. intros H. apply filter_events_loop_ok in H.
  cbn [app] in H. subst l.
  eapply Forall_impl.
  - apply Forall_filter_keeps, (walk_names "VEVENT").
  - cbn. intros ev [Hn Hk]. unfold keeps in Hk.
    apply andb_true_iff in Hk. tauto.
Qed.

Lemma filter_events_returns_matched_vevents_witness :
  Forall (fun ev => comp_name ev = "VEVENT" /\
                    pattern_ok None "UID" ev = true /\
                    pattern_ok (Some (Star Dot)) "SUMMARY" ev = true)
         [Cases.with_alarm; Samples.standup].
Proof.
  apply (filter_events_returns_matched_vevents
           Cases.mixed_calendar None (Some (Star Dot))).
  vm_compute. reflexivity.
Defined.

Lemma re_match_nullable (r : regex) (s : string) :
  nullable r = true -> re_match r s = true.
Proof. intros H. destruct s; cbn; now rewrite H. Qed.

(** X11: a pattern that can match the empty string filters nothing:
    [re.match] accepts the empty match at the start, so with two such
    patterns every VEVENT that carries both entries is returned. *)
Theorem filter_events_nullable_patterns
    (calendar : component) (r1 r2 : regex) :
  nullable r1 = true -> nullable r2 = true ->
  Forall (fun ev => has_text (Some r1) "UID" ev /\
                    has_text (Some r2) "SUMMARY" ev)
         (walk "VEVENT" calendar) ->
  filter_events calendar (Some r1) (Some r2) = Ok (walk "VEVENT" calendar).
Proof.
  intros H1 H2 Hall. unfold filter_events.
  rewrite filter_events_loop_readable.
  - cbn [app]. f_equal.
    induction Hall as [|ev l [[s1 Hs1] [s2 Hs2]] _ IH]; cbn; [reflexivity|].
    unfold keeps at 1. cbn. rewrite Hs1, Hs2.
    rewrite !re_match_nullable by assumption. cbn. now rewrite IH.
  - eapply Forall_impl; [exact Hall|]. cbn. intros ev [Ha Hb].
    split; [exact Ha | intros _; exact Hb].
Qed.

Lemma filter_events_nullable_patterns_witness :
  filter_events Samples.calendar (Some (Star (Chr "x"))) (Some Eps)
    = Ok (walk "VEVENT" Samples.calendar).
Proof.
  apply (filter_events_nullable_patterns Samples.calendar
           (Star (Chr "x")) Eps).
  - reflexivity.
  - reflexivity.
  - change (walk "VEVENT" Samples.calendar)
      with [Samples.standup; Samples.review].
    repeat constructor.
    + exists "A". vm_compute. reflexivity.
    + exists "Standup". vm_compute. reflexivity.
    + exists "B". vm_compute. reflexivity.
    + exists "Review". vm_compute. reflexivity.
Defined.

(** A plain text is matched in full by its own pattern only. *)
Lemma matches_literal (p w : string) : matches (literal p) w <-> w = p.
Proof.
  revert w. induction p as [|a p IH]; intros w; cbn.
  - split; [inversion 1; reflexivity | intros ->; constructor].
  - split.
    + inversion 1 as [ | | | | ? ? s1 s2 Ha Hb | | | | ]; subst.
      inversion Ha; subst. apply IH in Hb as ->. reflexivity.
    + intros ->. change (String a p) with (String a "" +:+ p).
      constructor; [constructor | now apply IH].
Qed.

Lemma is_prefix_of_spec (p s : string) :
  is_prefix_of p s = true <-> exists t, s = p +:+ t.
Proof.
  revert s. induction p as [|a p IH]; intros s; cbn.
  - split; [intros _; exists s; reflexivity | reflexivity].
  - destruct s as [|b s]; cbn.
    + split; [discriminate | intros [t Ht]; discriminate].
    + rewrite andb_true_iff, Ascii.eqb_eq, IH. split.
      * intros [-> [t ->]]. exists t. reflexivity.
      * intros [t Ht]. injection Ht as -> ->. eauto.
Qed.

(** [re.match] with a plain text as pattern tests for a prefix. *)
Lemma re_match_literal (p s : string) :
  re_match (literal p) s = is_prefix_of p s.
Proof.
  apply eq_true_iff_eq.
  rewrite RegexFacts.re_match_prefix, is_prefix_of_spec. split.
  - intros (w & t & -> & Hw). apply matches_literal in Hw as ->. eauto.
  - intros [t ->]. exists p, t. split; [reflexivity|]. now apply matches_literal.
Qed.

(** X12: with a plain text as identity pattern and no summary pattern,
    [filter_events] returns the VEVENTs whose UID starts with that text:
    not those that merely contain it, and not only those equal to it. *)
Theorem filter_events_literal_id (calendar : component) (p : string) :
  Forall (has_text (Some (literal p)) "UID") (walk "VEVENT" calendar) ->
  filter_events calendar (Some (literal p)) None =
  Ok (List.filter (uid_starts_with p) (walk "VEVENT" calendar)).
Proof.
  intros Hall. unfold filter_events. rewrite filter_events_loop_readable.
  - cbn [app]. f_equal. apply filter_ext. intros ev.
    unfold keeps, pattern_ok, uid_starts_with. rewrite andb_true_r.
    destruct (comp_props ev !! "UID") as [[s| |]|]; try reflexivity.
    apply re_match_literal.
  - eapply Forall_impl; [exact Hall|]. cbn. intros ev H.
    split; [exact H | intros _; exact I].
Qed.

Lemma filter_events_literal_id_witness :
  filter_events Samples.calendar (Some (literal "B")) None =
  Ok (List.filter (uid_starts_with "B") (walk "VEVENT" Samples.calendar)).
Proof.
  apply (filter_events_literal_id Samples.calendar "B").
  change (walk "VEVENT" Samples.calendar)
    with [Samples.standup; Samples.review].
  repeat constructor.
  - exists "A". vm_compute. reflexivity.
  - exists "B". vm_compute. reflexivity.
Defined.

(** X13: the SUMMARY of an event is read only after its UID has passed the
    identity pattern: when no VEVENT passes it, [filter_events] returns the
    empty list whatever the summary pattern is and whether or not the events
    have a SUMMARY. *)
Theorem filter_events_id_mismatch_skips_summary
    (calendar : component) (r : regex) (regexp_summary : option regex) :
  Forall (fun ev => has_text (Some r) "UID" ev /\
                    pattern_ok (Some r) "UID" ev = false)
         (walk "VEVENT" calendar) ->
  filter_events calendar (Some r) regexp_summary = Ok [].
Proof.
  intros Hall. unfold filter_events. rewrite filter_events_loop_readable.
  - cbn [app]. f_equal.
    induction Hall as [|ev l [_ Hno] _ IH]; cbn [List.filter]; [reflexivity|].
    unfold keeps at 1. rewrite Hno. cbn [andb]. exact IH.
  - eapply Forall_impl; [exact Hall|]. intros ev [Ht Hno].
    unfold readable. split; [exact Ht|]. rewrite Hno. discriminate.
Qed.

Lemma filter_events_id_mismatch_skips_summary_witness :
  filter_events Samples.calendar_untitled (Some (literal "Z"))
                (Some Samples.st_any) = Ok [].
Proof.
  apply (filter_events_id_mismatch_skips_summary
           Samples.calendar_untitled (literal "Z") (Some Samples.st_any)).
  change (walk "VEVENT" Samples.calendar_untitled)
    with [Samples.standup; Samples.untitled].
  repeat constructor.
  - exists "A". vm_compute. reflexivity.
  - exists "C". vm_compute. reflexivity.
Defined.

(** A VEVENT nested in another component is found, an alarm is not. *)
Example walk_mixed_calendar :
  walk "VEVENT" Cases.mixed_calendar = [Cases.with_alarm; Samples.standup].
Proof. vm_compute. reflexivity. Qed.

(** ** The poll loop: exceptions, the interval, the warning *)

Lemma sum_nonneg_pos (l : list Z) :
  Forall (fun x => 0 <= x) l ->
  (0 < foldr Z.add 0 l <-> Exists (fun x => 0 < x) l).
Proof.
  induction 1 as [|x l Hx Hl IH]; cbn.
  - split; [lia | inversion 1].
  - assert (0 <= foldr Z.add 0 l) as Hsum.
    { clear IH. induction Hl; cbn; lia. }
    rewrite Exists_cons, <- IH. lia.
Qed.

Section SyncCalendarsMore.

Variables service comparison failure : Type.
Variable load_calendar : nat -> string -> option string -> result component.
Variable init_service : nat -> string -> result service.
Variable gfilter_events :
  nat -> service -> string -> option regex -> option regex ->
  result (list (gmap string json)).
Variable compare :
  list component -> list (gmap string json) -> result comparison.
Variable sync :
  nat -> service -> string -> comparison -> bool ->
  result (gmap string (list failure)).
Variables ical_calendar google_credentials google_calendar : string.
Variables ical_id ical_summary : option regex.
Variable ical_output : option string.
Variables google_id google_summary : option regex.
Variable dry_run : bool.

Local Abbreviation pass :=
  (pipeline service comparison failure load_calendar init_service
     gfilter_events compare sync ical_calendar google_credentials
     google_calendar ical_id ical_summary ical_output google_id
     google_summary dry_run).

Local Abbreviation loop poll_interval :=
  (sync_events_loop service comparison failure load_calendar init_service
     gfilter_events compare sync ical_calendar google_credentials
     google_calendar ical_id ical_summary ical_output google_id
     google_summary dry_run poll_interval).

Local Abbreviation run poll_interval :=
  (sync_events service comparison failure load_calendar init_service
     gfilter_events compare sync ical_calendar google_credentials
     google_calendar ical_id ical_summary ical_output google_id
     google_summary dry_run poll_interval).

(** The count of failures is positive exactly when some category lists one. *)
Lemma num_errors_pos (errors : gmap string (list failure)) :
  (0 <? num_errors failure errors) = true <->
  exists k l, errors !! k = Some l /\ l <> [].
Proof.
  rewrite Z.ltb_lt. unfold num_errors. rewrite sum_nonneg_pos.
  - rewrite Exists_fmap, Exists_exists. split.
    + intros ([k l] & Hin & Hpos). apply elem_of_map_to_list in Hin.
      exists k, l. split; [exact Hin|]. cbn in Hpos.
      destruct l; [cbn in Hpos; lia | discriminate].
    + intros (k & l & Hk & Hl). exists (k, l).
      split; [now apply elem_of_map_to_list|]. cbn.
      destruct l; [contradiction | cbn; lia].
  - apply Forall_fmap, Forall_forall. intros [k l] _. cbn. lia.
Qed.

Lemma raising_pass_ends_loop poll_interval fuel cycle e :
  pass cycle = Raise e ->
  loop poll_interval (S fuel) cycle = ([RunPipeline cycle], Raised e).
Proof. intros H. rewrite sync_events_loop_step, H. reflexivity. Qed.




(** X16: with a summary pattern configured, one VEVENT of the feed that has
    no SUMMARY (and is reached by the filter) ends the run in the lookup
    error, in one-shot and in polling mode alike, whatever the Google side
    would have answered. *)
Theorem sync_events_untitled_event_aborts
    (cal : component) (pre post : list component) (ev : component)
    (r : regex) (poll_interval : option Z) (fuel : nat) :
  ical_summary = Some r ->
  load_calendar 0%nat ical_calendar ical_output = Ok cal ->
  walk "VEVENT" cal = (pre ++ ev :: post)%list ->
  Forall (readable ical_id (Some r)) pre ->
  has_text ical_id "UID" ev -> pattern_ok ical_id "UID" ev = true ->
  comp_props ev !! "SUMMARY" = None ->
  run poll_interval (S fuel) = ([RunPipeline 0], Raised (KeyError "SUMMARY")).
Proof.
  intros Hsum Hload Hwalk Hpre Hid Hok Hnone. unfold sync_events.
  apply raising_pass_ends_loop. unfold pipeline. rewrite Hload, Hsum. cbn.
  unfold filter_events. rewrite Hwalk.
  rewrite (filter_events_loop_raise pre ev post ical_id (Some r)
             (KeyError "SUMMARY")); [reflexivity | exact Hpre |].
  rewrite (check_pattern_has_text _ _ _ Hid), Hok. cbn.
  now apply check_pattern_absent.
Qed.

(** X17: a pass whose calls all return logs one warning exactly when the
    synchronisation listed a failure under some category, and nothing when
    every category is empty; the warning is the text [%d errors occurred!]
    as it stands, without the count. *)
Theorem pipeline_warns_iff_failures
    (cycle : nat) (cal : component) (events : list component) (svc : service)
    (gevents : list (gmap string json)) (cmp : comparison)
    (errors : gmap string (list failure)) :
  load_calendar cycle ical_calendar ical_output = Ok cal ->
  filter_events cal ical_id ical_summary = Ok events ->
  init_service cycle google_credentials = Ok svc ->
  gfilter_events cycle svc google_calendar google_id google_summary
    = Ok gevents ->
  compare events gevents = Ok cmp ->
  sync cycle svc google_calendar cmp dry_run = Ok errors ->
  exists logs, pass cycle = Ok logs /\
    (logs = [LogWarning "%d errors occurred!"] <->
     exists k l, errors !! k = Some l /\ l <> []) /\
    (logs = [] <-> forall k l, errors !! k = Some l -> l = []).
Proof.
  intros H1 H2 H3 H4 H5 H6. unfold pipeline.
  rewrite H1. cbn. rewrite H2. cbn. rewrite H3. cbn. rewrite H4. cbn.
  rewrite H5. cbn. rewrite H6. cbn.
  eexists. split; [reflexivity|].
  pose proof (num_errors_pos errors) as Hpos.
  destruct (0 <? num_errors failure errors).
  - split.
    + split; [intros _; now apply Hpos | reflexivity].
    + split; [discriminate|]. intros Hall.
      destruct (proj1 Hpos eq_refl) as (k & l & Hk & Hl).
      exfalso. apply Hl. now apply (Hall k).
  - split.
    + split; [discriminate|]. intros H. apply Hpos in H. discriminate.
    + split; [|reflexivity]. intros _ k l Hk.
      destruct l as [|x l]; [reflexivity|].
      assert (false = true) as Habs by (apply Hpos; exists k, (x :: l); split;
                                         [exact Hk | discriminate]).
      discriminate.
Qed.

End SyncCalendarsMore.



Lemma sync_events_untitled_event_aborts_witness :
  sync_events unit unit string Cases.feed_untitled Samples.service
    Samples.store Samples.compare Samples.sync
    "feed.ics" "credentials.json" "primary"
    None (Some Samples.st_any) None None None false (Some 30) 4
  = ([RunPipeline 0], Raised (KeyError "SUMMARY")).
Proof.
  apply (sync_events_untitled_event_aborts unit unit string
           Cases.feed_untitled Samples.service Samples.store
           Samples.compare Samples.sync "feed.ics" "credentials.json" "primary"
           None (Some Samples.st_any) None None None false
           Samples.calendar_untitled [Samples.standup] [] Samples.untitled
           Samples.st_any (Some 30) 3).
  - reflexivity.
  - reflexivity.
  - reflexivity.
  - repeat constructor. intros _. exists "Standup". vm_compute. reflexivity.
  - exact I.
  - reflexivity.
  - vm_compute. reflexivity.
Defined.

Lemma pipeline_warns_iff_failures_witness :
  exists logs,
    pipeline unit unit string Samples.feed Samples.service Samples.store
      Samples.compare Cases.sync_fails "feed.ics" "credentials.json" "primary"
      None None None None None false 0 = Ok logs /\
    (logs = [LogWarning "%d errors occurred!"] <->
     exists k l,
       ({[ "add" := ["A"]; "update" := []; "delete" := ["B"] ]}
          : gmap string (list string)) !! k = Some l /\ l <> []) /\
    (logs = [] <->
     forall k l,
       ({[ "add" := ["A"]; "update" := []; "delete" := ["B"] ]}
          : gmap string (list string)) !! k = Some l -> l = []).
Proof.
  apply (pipeline_warns_iff_failures unit unit string
           Samples.feed Samples.service Samples.store
           Samples.compare Cases.sync_fails "feed.ics" "credentials.json"
           "primary" None None None None None false
           0 Samples.calendar [Samples.standup; Samples.review] tt
           [Samples.g_review] tt).
  - reflexivity.
  - vm_compute. reflexivity.
  - reflexivity.
  - reflexivity.
  - reflexivity.
  - reflexivity.
Defined.

(** ** The entry points *)

Section EntryPointsFacts.

Variables service comparison failure : Type.
Variable load_calendar : nat -> string -> option string -> result component.
Variable init_service : nat -> string -> result service.
Variable gfilter_events :
  nat -> service -> string -> option regex -> option regex ->
  result (list (gmap string json)).
Variable compare :
  list component -> list (gmap string json) -> result comparison.
Variable sync :
  nat -> service -> string -> comparison -> bool ->
  result (gmap string (list failure)).
Variable parse_args : list string -> parse_outcome.
Variable init_logging : string -> result unit.

Local Abbreviation pass_of parsed :=
  (pipeline service comparison failure load_calendar init_service
     gfilter_events compare sync
     (arg_ical_calendar parsed) (arg_google_credentials parsed)
     (arg_google_calendar parsed)
     (arg_ical_id parsed) (arg_ical_summary parsed) (arg_ical_output parsed)
     (arg_google_id parsed) (arg_google_summary parsed) (arg_dry_run parsed)).

Local Abbreviation sys_main_of :=
  (sys_main service comparison failure load_calendar init_service
     gfilter_events compare sync parse_args init_logging).

(** X18: a one-shot run whose pass completes makes [sys_main] return 0 and
    print no traceback, also when the pass logged the warning about failed
    operations: failures of single operations do not reach the exit
    status. *)
Theorem sys_main_returns_zero
    (argv : list string) (parsed : cli_args) (u : unit) (logs : list action)
    (fuel : nat) :
  parse_args argv = Parsed parsed ->
  init_logging (arg_logging_level parsed) = Ok u ->
  arg_poll_interval parsed = None ->
  pass_of parsed 0%nat = Ok logs ->
  sys_main_of argv (S fuel) = (RunPipeline 0 :: logs, None, ReturnCode 0).
Proof.
  intros Hparse Hlog Hpoll Hpass. unfold sys_main, main, sync_events.
  rewrite Hparse, Hlog, Hpoll, sync_events_loop_step, Hpass. reflexivity.
Qed.

(** X19: when the first pass ends in an exception, [sys_main] prints its
    traceback and returns 1, with or without a poll interval. *)
Theorem sys_main_returns_one
    (argv : list string) (parsed : cli_args) (u : unit) (e : exn)
    (fuel : nat) :
  parse_args argv = Parsed parsed ->
  init_logging (arg_logging_level parsed) = Ok u ->
  pass_of parsed 0%nat = Raise e ->
  sys_main_of argv (S fuel) = ([RunPipeline 0], Some e, ReturnCode 1).
Proof.
  intros Hparse Hlog Hpass. unfold sys_main, main, sync_events.
  rewrite Hparse, Hlog, sync_events_loop_step, Hpass. reflexivity.
Qed.

End EntryPointsFacts.

Lemma sys_main_returns_zero_witness :
  sys_main unit unit string Samples.feed Samples.service Samples.store
    Samples.compare Cases.sync_fails Cases.parse_args Cases.init_logging
    ["itg-sync-cals"] 1
  = ([RunPipeline 0; LogWarning "%d errors occurred!"], None, ReturnCode 0).
Proof.
  apply (sys_main_returns_zero unit unit string Samples.feed Samples.service
           Samples.store Samples.compare Cases.sync_fails Cases.parse_args
           Cases.init_logging ["itg-sync-cals"] Cases.one_shot_args tt
           [LogWarning "%d errors occurred!"] 0).
  - reflexivity.
  - reflexivity.
  - reflexivity.
  - vm_compute. reflexivity.
Defined.

Lemma sys_main_returns_one_witness :
  sys_main unit unit string
    (fun _ _ _ => Raise (PyException "feed unreachable"))
    Samples.service Samples.store
    Samples.compare Cases.sync_fails Cases.parse_args Cases.init_logging
    ["itg-sync-cals"] 1
  = ([RunPipeline 0], Some (PyException "feed unreachable"), ReturnCode 1).
Proof.
  apply (sys_main_returns_one unit unit string
           (fun _ _ _ => Raise (PyException "feed unreachable"))
           Samples.service
           Samples.store Samples.compare Cases.sync_fails Cases.parse_args
           Cases.init_logging ["itg-sync-cals"] Cases.one_shot_args tt
           (PyException "feed unreachable") 0).
  - reflexivity.
  - reflexivity.
  - reflexivity.
Defined.

(** ** Loading the calendar *)

Section LoaderFacts.

Import OutlookIO.

Variable world : Type.
Variable log_info : string -> world -> world.
Variable log_error : string -> world -> world.
Variable requests_get : string -> world -> world * io_result response.
Variable from_ical : string -> io_result component.
Variable write_file : string -> list string -> world -> world * io_result unit.
Variable path_exists : string -> world -> bool.
Variable path_isfile : string -> world -> bool.
Variable read_file : string -> world -> world * io_result string.
Variable shutil_copy : string -> string -> world -> world * io_result unit.

Local Abbreviation load :=
  (load_calendar world log_info log_error requests_get from_ical write_file
     path_exists path_isfile read_file shutil_copy).

(** Whether [load_calendar] takes its argument for an address. *)
Local Abbreviation is_url p :=
  (is_prefix_of "http:" p || is_prefix_of "https:" p).

(** X20: an address whose server answers with a status other than 200
    makes [load_calendar] raise its exception, which names the address and
    the status; nothing is parsed and nothing is written, with or without
    an output file. *)
Theorem load_calendar_bad_status
    (url : string) (output_file : option string) (w w1 : world) (r : response) :
  is_url url = true ->
  requests_get url (log_info ("Downloading calendar: " +:+ url) w)
    = (w1, Done r) ->
  status_code r <> 200 ->
  load url output_file w =
  (w1, Failed (StdExn (PyException
         ("Failed to retrieve Outlook calendar '" +:+ url +:+
          "', status code: " +:+ format_d (status_code r))))).
Proof.
  intros Hurl Hget Hstatus. unfold load_calendar, load_calendar_from_url.
  rewrite Hurl, Hget.
  destruct (status_code r =? 200) eqn:E; [|reflexivity].
  apply Z.eqb_eq in E. contradiction.
Qed.

(** X21: once the download has status 200 and its text parses, the parsed
    calendar is what [load_calendar] returns, whether or not an output file
    is given and whether or not writing it succeeds: a failed save never
    becomes an exception. *)
Theorem load_calendar_url_save_best_effort
    (url : string) (output_file : option string) (w w1 : world) (r : response)
    (cal : component) :
  is_url url = true ->
  requests_get url (log_info ("Downloading calendar: " +:+ url) w)
    = (w1, Done r) ->
  status_code r = 200 ->
  from_ical (text r) = Done cal ->
  snd (load url output_file w) = Done cal /\
  load url None w = (w1, Done cal).
Proof.
  intros Hurl Hget Hstatus Hparse.
  unfold load_calendar, load_calendar_from_url.
  rewrite Hurl, Hget, Hstatus, Hparse. cbn [Z.eqb Pos.eqb].
  split; [|reflexivity].
  destruct output_file as [out|]; [|reflexivity].
  destruct (write_file out [text r; LF] w1) as [w2 [[]|e]]; reflexivity.
Qed.

(** X22: when the downloaded text does not parse, the parser's exception
    leaves [load_calendar] and the output file is not written: parsing
    comes before saving. *)
Theorem load_calendar_url_parse_error
    (url : string) (output_file : option string) (w w1 : world) (r : response)
    (e : io_exn) :
  is_url url = true ->
  requests_get url (log_info ("Downloading calendar: " +:+ url) w)
    = (w1, Done r) ->
  status_code r = 200 ->
  from_ical (text r) = Failed e ->
  load url output_file w = (w1, Failed e).
Proof.
  intros Hurl Hget Hstatus Hparse.
  unfold load_calendar, load_calendar_from_url.
  rewrite Hurl, Hget, Hstatus, Hparse. reflexivity.
Qed.

(** X23: an argument that does not start with [http:] or [https:] is taken
    for a path; when no regular file is there, [load_calendar] raises
    [IOError] naming the path, and neither reads, nor downloads, nor
    copies anything. *)
Theorem load_calendar_missing_file
    (path : string) (output_file : option string) (w : world) :
  is_url path = false ->
  path_exists path (log_info ("Loading calendar: " +:+ path) w)
    && path_isfile path (log_info ("Loading calendar: " +:+ path) w) = false ->
  load path output_file w =
  (log_info ("Loading calendar: " +:+ path) w,
   Failed (OSError ("Calendar file does not exist: " +:+ path))).
Proof.
  intros Hurl Hmissing. unfold load_calendar, load_calendar_from_path.
  rewrite Hurl, Hmissing. reflexivity.
Qed.

(** X24: a file that is there, can be read and parses is returned as the
    calendar whether or not the copy to the output file succeeds. *)
Theorem load_calendar_path_copy_best_effort
    (path : string) (output_file : option string) (w w1 : world) (s : string)
    (cal : component) :
  is_url path = false ->
  path_exists path (log_info ("Loading calendar: " +:+ path) w)
    && path_isfile path (log_info ("Loading calendar: " +:+ path) w) = true ->
  read_file path (log_info ("Loading calendar: " +:+ path) w) = (w1, Done s) ->
  from_ical s = Done cal ->
  snd (load path output_file w) = Done cal /\
  load path None w = (w1, Done cal).
Proof.
  intros Hurl Hthere Hread Hparse.
  unfold load_calendar, load_calendar_from_path.
  rewrite Hurl, Hthere, Hread, Hparse. split; [|reflexivity].
  destruct output_file as [out|]; [|reflexivity].
  destruct (shutil_copy path out w1) as [w2 [[]|e]]; reflexivity.
Qed.

End LoaderFacts.

Lemma load_calendar_bad_status_witness :
  OutlookIO.load_calendar Cases.world Cases.log_info Cases.log_error
    Cases.requests_get Cases.from_ical Cases.write_file
    Cases.path_exists Cases.path_exists Cases.read_file Cases.shutil_copy
    "https://example.org/gone.ics" (Some "/tmp/out.ics") Cases.empty_world
  = (Cases.log_info "Downloading calendar: https://example.org/gone.ics"
       Cases.empty_world,
     OutlookIO.Failed (OutlookIO.StdExn (PyException
       ("Failed to retrieve Outlook calendar '" +:+
        "https://example.org/gone.ics" +:+
        "', status code: " +:+ format_d 404)))).
Proof.
  apply (load_calendar_bad_status Cases.world Cases.log_info Cases.log_error
           Cases.requests_get Cases.from_ical Cases.write_file
           Cases.path_exists Cases.path_exists Cases.read_file
           Cases.shutil_copy
           "https://example.org/gone.ics" (Some "/tmp/out.ics")
           Cases.empty_world _ (OutlookIO.Response 404 "")).
  - reflexivity.
  - reflexivity.
  - discriminate.
Defined.

Lemma load_calendar_url_save_best_effort_witness :
  snd (OutlookIO.load_calendar Cases.world Cases.log_info Cases.log_error
         Cases.requests_get Cases.from_ical Cases.write_file
         Cases.path_exists Cases.path_exists Cases.read_file Cases.shutil_copy
         "https://example.org/cal.ics" (Some "/readonly/out.ics")
         Cases.empty_world)
  = OutlookIO.Done Samples.calendar /\
  OutlookIO.load_calendar Cases.world Cases.log_info Cases.log_error
    Cases.requests_get Cases.from_ical Cases.write_file
    Cases.path_exists Cases.path_exists Cases.read_file Cases.shutil_copy
    "https://example.org/cal.ics" None Cases.empty_world
  = (Cases.log_info "Downloading calendar: https://example.org/cal.ics"
       Cases.empty_world,
     OutlookIO.Done Samples.calendar).
Proof.
  apply (load_calendar_url_save_best_effort Cases.world Cases.log_info
           Cases.log_error Cases.requests_get Cases.from_ical Cases.write_file
           Cases.path_exists Cases.path_exists Cases.read_file
           Cases.shutil_copy
           "https://example.org/cal.ics" (Some "/readonly/out.ics")
           Cases.empty_world _ (OutlookIO.Response 200 "BEGIN:VCALENDAR")).
  - reflexivity.
  - reflexivity.
  - reflexivity.
  - reflexivity.
Defined.

Lemma load_calendar_url_parse_error_witness :
  OutlookIO.load_calendar Cases.world Cases.log_info Cases.log_error
    Cases.requests_get Cases.from_ical Cases.write_file
    Cases.path_exists Cases.path_exists Cases.read_file Cases.shutil_copy
    "https://example.org/index.html" (Some "/tmp/out.ics") Cases.empty_world
  = (Cases.log_info "Downloading calendar: https://example.org/index.html"
       Cases.empty_world,
     OutlookIO.Failed (OutlookIO.StdExn ValueError)).
Proof.
  apply (load_calendar_url_parse_error Cases.world Cases.log_info
           Cases.log_error Cases.requests_get Cases.from_ical Cases.write_file
           Cases.path_exists Cases.path_exists Cases.read_file
           Cases.shutil_copy
           "https://example.org/index.html" (Some "/tmp/out.ics")
           Cases.empty_world _ (OutlookIO.Response 200 "<html>")).
  - reflexivity.
  - reflexivity.
  - reflexivity.
  - reflexivity.
Defined.

Lemma load_calendar_missing_file_witness :
  OutlookIO.load_calendar Cases.world Cases.log_info Cases.log_error
    Cases.requests_get Cases.from_ical Cases.write_file
    Cases.path_exists Cases.path_exists Cases.read_file Cases.shutil_copy
    "HTTP://example.org/cal.ics" (Some "/tmp/out.ics") Cases.empty_world
  = (Cases.log_info "Loading calendar: HTTP://example.org/cal.ics"
       Cases.empty_world,
     OutlookIO.Failed (OutlookIO.OSError
       ("Calendar file does not exist: " +:+ "HTTP://example.org/cal.ics"))).
Proof.
  apply (load_calendar_missing_file Cases.world Cases.log_info
           Cases.log_error Cases.requests_get Cases.from_ical Cases.write_file
           Cases.path_exists Cases.path_exists Cases.read_file
           Cases.shutil_copy
           "HTTP://example.org/cal.ics" (Some "/tmp/out.ics")
           Cases.empty_world).
  - reflexivity.
  - vm_compute. reflexivity.
Defined.

Lemma load_calendar_path_copy_best_effort_witness :
  snd (OutlookIO.load_calendar Cases.world Cases.log_info Cases.log_error
         Cases.requests_get Cases.from_ical Cases.write_file
         Cases.path_exists Cases.path_exists Cases.read_file Cases.shutil_copy
         "/data/cal.ics" (Some "/readonly/copy.ics") Cases.disk_world)
  = OutlookIO.Done Samples.calendar /\
  OutlookIO.load_calendar Cases.world Cases.log_info Cases.log_error
    Cases.requests_get Cases.from_ical Cases.write_file
    Cases.path_exists Cases.path_exists Cases.read_file Cases.shutil_copy
    "/data/cal.ics" None Cases.disk_world
  = (Cases.log_info "Loading calendar: /data/cal.ics" Cases.disk_world,
     OutlookIO.Done Samples.calendar).
Proof.
  apply (load_calendar_path_copy_best_effort Cases.world Cases.log_info
           Cases.log_error Cases.requests_get Cases.from_ical Cases.write_file
           Cases.path_exists Cases.path_exists Cases.read_file
           Cases.shutil_copy
           "/data/cal.ics" (Some "/readonly/copy.ics")
           Cases.disk_world _ "BEGIN:VCALENDAR").
  - reflexivity.
  - vm_compute. reflexivity.
  - vm_compute. reflexivity.
  - reflexivity.
Defined.

(** The failed save is logged and the calendar is returned; a save that
    works leaves the text and a final line feed in the output file. *)
Example load_calendar_save_runs :
  OutlookIO.load_calendar Cases.world Cases.log_info Cases.log_error
    Cases.requests_get Cases.from_ical Cases.write_file
    Cases.path_exists Cases.path_exists Cases.read_file Cases.shutil_copy
    "https://example.org/cal.ics" (Some "/readonly/out.ics") Cases.empty_world
  = (Cases.World
       ["INFO Downloading calendar: https://example.org/cal.ics";
        "ERROR Failed to save Outlook calendar to: /readonly/out.ics"] ∅,
     OutlookIO.Done Samples.calendar) /\
  Cases.files
    (fst (OutlookIO.load_calendar Cases.world Cases.log_info Cases.log_error
            Cases.requests_get Cases.from_ical Cases.write_file
            Cases.path_exists Cases.path_exists Cases.read_file
            Cases.shutil_copy
            "https://example.org/cal.ics" (Some "/tmp/out.ics")
            Cases.empty_world)) !! "/tmp/out.ics"
  = Some ("BEGIN:VCALENDAR" +:+ OutlookIO.LF).
Proof. split; vm_compute; reflexivity. Qed.

(** The three answers of [has_event_changed] on sample pairs. *)
Lemma has_event_changed_false_iff_witness :
  agree_on EVENT_COMPARISON_FIELDS (ICal Samples.review) (Google Samples.g_review).
Proof.
  apply (proj1 (has_event_changed_false_iff
                  (ICal Samples.review) (Google Samples.g_review))).
  vm_compute. reflexivity.
Defined.

Lemma has_event_changed_true_iff_witness :
  exists pre f post, EVENT_COMPARISON_FIELDS = (pre ++ f :: post)%list /\
    agree_on pre (ICal Samples.standup) (Google Cases.g_renamed) /\
    differ_at f (ICal Samples.standup) (Google Cases.g_renamed).
Proof.
  apply (proj1 (has_event_changed_true_iff
                  (ICal Samples.standup) (Google Cases.g_renamed))).
  vm_compute. reflexivity.
Defined.

Lemma has_event_changed_raise_iff_witness :
  exists pre f post, EVENT_COMPARISON_FIELDS = (pre ++ f :: post)%list /\
    agree_on pre (ICal Samples.standup) (Google Samples.g_standup_moved) /\
    raise_at f (ICal Samples.standup) (Google Samples.g_standup_moved)
             (KeyError "LOCATION").
Proof.
  apply (proj1 (has_event_changed_raise_iff
                  (ICal Samples.standup) (Google Samples.g_standup_moved)
                  (KeyError "LOCATION"))).
  vm_compute. reflexivity.
Defined.
